(** * Adel plant generator: cohort decisions, leaf numbers, axis death
      dates and deterministic cardinalities

    Shallow embedding of [adel/plantgen/tools.py] and
    [adel/plantgen_extensions.py].

    Conventions of the embedding.
    - A Python [float] is a rational number of [Q] and float arithmetic is
      exact rational arithmetic; [int(x)] is truncation towards zero.
    - The numerical routines of numpy and scipy ([np.polyfit],
      [scipy.optimize.leastsq], the square root) are parameters of the
      functions that call them: what they return in double precision is
      near the exact solution and need not be equal to it.
    - A Python [dict] that is only iterated is the list of its items in
      iteration order; a [dict] that is looked up and updated by key is a
      [gmap].
    - [random.random()] reads the next value of a stream of draws; the
      number of values consumed so far is threaded through the calls.
    - A raised exception is [None]. *)

From Stdlib Require Import ZArith QArith Qround Lia Lqa Ascii String.
From stdpp Require Import base option list gmap strings sorting.

Local Open Scope Z_scope.

(** ** Python primitives *)

Module Py.

(** [int(x)] on a float: the integer part, rounding towards zero. *)
Definition int (x : Q) : Z := Z.quot (Qnum x) (Z.pos (Qden x)).

(** [sum(xs)] on integers and on floats. *)
Definition sum (xs : list Z) : Z := foldr Z.add 0 xs.
Definition fsum (xs : list Q) : Q := foldr Qplus (0%Q) xs.

(** [range(a, b)]. *)
Definition range (a b : Z) : list Z :=
  (fun i : nat => a + Z.of_nat i) <$> seq 0 (Z.to_nat (b - a)).

(** [round(x)] on a float, in Python 2: the nearest whole number, a half
    going away from zero. *)
Definition round (x : Q) : Z :=
  if Qle_bool 0 x then Qfloor (x + (1 # 2)) else - Qfloor (- x + (1 # 2)).

(** [d[k]] on a dict given by its items; [KeyError] when [k] is not a
    key. *)
Fixpoint getitem {K V} `{EqDecision K} (d : list (K * V)) (k : K)
  : option V :=
  match d with
  | [] => None
  | (k', v) :: rest => if decide (k' = k) then Some v else getitem rest k
  end.

(** [l.insert(i, x)] for [0 <= i]: [x] goes before position [i], or to the
    end of the list when [i] is past it. *)
Definition list_insert {A} (i : nat) (x : A) (l : list A) : list A :=
  take i l ++ x :: drop i l.

End Py.

(** ** plantgen_extensions.py *)

Module Ext.

(** [modalities(nff)]: the dict [{m1: p, m2: 1 - p}], as its two items. *)
Definition modalities (nff : Q) : list (Z * Q) :=
  let m1 := Py.int nff in
  let m2 := Py.int nff + 1 in
  let p := (inject_Z m1 + 1 - nff)%Q in
  [(m1, p); (m2, (1 - p)%Q)].

Section Cardinalities.
Context {K : Type} `{EqDecision K}.

(** [sorted(items, key=itemgetter(1), reverse=True)]: a stable sort by
    decreasing value; items of equal value keep their order. *)
Fixpoint insert_desc (x : K * Q) (l : list (K * Q)) : list (K * Q) :=
  match l with
  | [] => [x]
  | y :: l' =>
      if Qle_bool (snd y) (snd x) then x :: y :: l'
      else y :: insert_desc x l'
  end.

Definition sorted_desc (items : list (K * Q)) : list (K * Q) :=
  foldr insert_desc [] items.

(** [card[k] += 1]; [KeyError] when [k] is not a key of [card]. *)
Fixpoint incr (k : K) (card : list (K * Z)) : option (list (K * Z)) :=
  match card with
  | [] => None
  | (k', c) :: rest =>
      if decide (k' = k) then Some ((k', c + 1) :: rest)
      else cons (k', c) <$> incr k rest
  end.

(** [for k in new: card[k] += 1]. *)
Fixpoint incr_all (new : list K) (card : list (K * Z))
  : option (list (K * Z)) :=
  match new with
  | [] => Some card
  | k :: new' => incr k card ≫= incr_all new'
  end.

(** [card = {k: int(v*n) for k, v in proba.iteritems()}]. *)
Definition floors (proba : list (K * Q)) (n : Z) : list (K * Z) :=
  (fun kv => (fst kv, Py.int (snd kv * inject_Z n))) <$> proba.

(** [missing = int(n - sum(card.values()))]. *)
Definition missing (proba : list (K * Q)) (n : Z) : Z :=
  n - Py.sum (snd <$> floors proba n).

(** [new = [sorted_p[i][0] for i in range(missing)]]; [IndexError] when
    [missing] exceeds the number of categories. *)
Definition new_keys (sorted_p : list (K * Q)) (missing : Z)
  : option (list K) :=
  mapM (fun i : nat => fst <$> sorted_p !! i) (seq 0 (Z.to_nat missing)).

(** The counts of [cardinalities] just before the final comprehension. *)
Definition allocate (proba : list (K * Q)) (n : Z)
  : option (list (K * Z)) :=
  new ← new_keys (sorted_desc proba) (missing proba n);
  incr_all new (floors proba n).

(** [cardinalities(proba, n)]. *)
Definition cardinalities (proba : list (K * Q)) (n : Z)
  : option (list (K * Z)) :=
  card ← allocate proba n;
  Some (filter (fun kv : K * Z => 0 < snd kv) card).

End Cardinalities.

(** [_parent(axe)]: ['.'.join(axe.rsplit('.')[:-1])]. *)
Fixpoint split_dot (s : string) : list string :=
  match s with
  | EmptyString => [EmptyString]
  | String c r =>
      if Ascii.eqb c "."%char then EmptyString :: split_dot r
      else match split_dot r with
           | h :: t => String c h :: t
           | [] => [String c EmptyString]
           end
  end.

Definition _parent (axe : string) : string :=
  String.concat "." (removelast (split_dot axe)).

(** An axis instance [(cohort, modality, name)]: [axe[-1]] is its name and
    [axe[:-1]] the rest. *)
Definition axe : Type := Z * Z * string.
Definition axe_name (a : axe) : string := snd a.
Definition axe_data (a : axe) : Z * Z := fst a.

Section PlantList.
(** [random.sample(candidates, 1)[0]] picks the candidate whose position
    is the next value of [choice], reduced modulo the number of
    candidates. *)
Variable choice : nat -> nat.

(** The filter of [_choose_plant]. *)
Definition eligible (name : string) (x : gmap string (Z * Z)) : bool :=
  bool_decide (x !! name = None)
  && (bool_decide (is_Some (x !! _parent name))
      || bool_decide (_parent name = EmptyString)).

(** [_choose_plant]: the plant object that is chosen, with its position
    in [plantlist] (its identity); [ValueError] when there is no
    candidate. *)
Definition _choose_plant (name : string)
    (plantlist : list (gmap string (Z * Z))) (s : nat)
  : option (nat * gmap string (Z * Z)) :=
  let candidates :=
    List.filter (fun ix => eligible name (snd ix))
                (zip (seq 0 (length plantlist)) plantlist) in
  candidates !! (choice s `mod` length candidates)%nat.

(** [_update]: the chosen plant object is updated in place. *)
Definition _update (st : list (gmap string (Z * Z)) * nat) (a : axe)
  : option (list (gmap string (Z * Z)) * nat) :=
  let '(plantlist, s) := st in
  '(i, plant) ← _choose_plant (axe_name a) plantlist s;
  Some (<[i := <[axe_name a := axe_data a]> plant]> plantlist, S s).

(** [reduce(_update, axis, plants)]. *)
Fixpoint reduce_update (axis : list axe)
    (st : list (gmap string (Z * Z)) * nat)
  : option (list (gmap string (Z * Z)) * nat) :=
  match axis with
  | [] => Some st
  | a :: rest => _update st a ≫= reduce_update rest
  end.

(** [plant_list(axis, nplants)], started after [s] random choices. *)
Definition plant_list (axis : list axe) (nplants : Z) (s : nat)
  : option (list (gmap string (Z * Z))) :=
  fst <$> reduce_update axis (replicate (Z.to_nat nplants) ∅, s).

End PlantList.

(** [flat_list(nested_list)]. *)
Definition flat_list {A} (nested_list : list (list A)) : list A :=
  List.concat nested_list.

(** [flat_list(map(lambda x: [x[0]] * int(x[1]), v.items()))]: each key
    repeated as many times as its count. *)
Definition expand {K} (v : list (K * Z)) : list K :=
  flat_list ((fun x => replicate (Z.to_nat (snd x)) (fst x)) <$> v).

(** [axis_list(emited_cohorts, theoretical_probabilities, nplants)]. The
    table of cohorts is the list of its rows [(cohort, total_axis, nff)],
    with distinct cohorts; the probabilities are the items of the dict,
    keyed by [(cohort, axis)]. Each dict is the list of its items, and a
    dict built by a comprehension lists them in the order of the sequence
    it is built from; this order decides which modality is paired with
    which axis, not how many of them there are. A division by a zero sum
    raises [ZeroDivisionError]. *)
Definition axis_list (emited_cohorts : list (Z * Q * Q))
    (theoretical_probabilities : list (Z * string * Q)) (nplants : Z)
  : option (list (Z * Z * string)) :=
  let cohort_cardinalities : list (Z * Z) :=
    (fun '(c, total_axis, nff) =>
       (c, Py.round (total_axis * inject_Z nplants))) <$> emited_cohorts in
  let modal_proba : list (Z * list (Z * Q)) :=
    (fun '(c, total_axis, nff) => (c, modalities nff)) <$> emited_cohorts in
  cohort_modalities ←
    mapM (fun kv : Z * Z =>
            proba ← Py.getitem modal_proba (fst kv);
            card ← cardinalities proba (snd kv);
            Some (fst kv, card)) cohort_cardinalities;
  let cohort_mods : list (Z * list Z) :=
    (fun kv : Z * list (Z * Z) => (fst kv, expand (snd kv)))
      <$> cohort_modalities in
  let axis_p : list (Z * (string * Q)) :=
    (fun kv : Z * string * Q => (fst (fst kv), (snd (fst kv), snd kv)))
      <$> theoretical_probabilities in
  let axis_proba : list (Z * list (string * Q)) :=
    (fun k => (k, snd <$> filter (fun a : Z * (string * Q) => fst a = k)
                                 axis_p))
      <$> remove_dups axis_p.*1 in
  axis_proba ←
    mapM (fun kv : Z * list (string * Q) =>
            let total := Py.fsum (snd kv).*2 in
            if Qeq_bool total 0 then None
            else Some (fst kv,
                       (fun a : string * Q => (fst a, (snd a / total)%Q))
                         <$> snd kv))
         axis_proba;
  cohort_axis ←
    mapM (fun kv : Z * list (Z * Z) =>
            proba ← Py.getitem axis_proba (fst kv);
            card ← cardinalities proba (Py.sum (snd kv).*2);
            Some (fst kv, card)) cohort_modalities;
  let cohort_ax : list (Z * list string) :=
    (fun kv : Z * list (string * Z) => (fst kv, expand (snd kv)))
      <$> cohort_axis in
  axis ←
    mapM (fun kv : Z * list Z =>
            ax ← Py.getitem cohort_ax (fst kv);
            Some (fst kv, zip (snd kv) ax)) cohort_mods;
  Some (flat_list
          ((fun kv : Z * list (Z * string) =>
              (fun x => (fst kv, fst x, snd x)) <$> snd kv) <$> axis)).

(** A row of the table of [axeT_user], with the columns that the function
    fills; it leaves the other columns empty. *)
Record axeT_row : Type := {
  id_plt : Z;
  id_cohort : Z;
  id_axis : string;
  N_phytomer_potential : Z;
  id_phen : Z
}.

(** [zip] applied to the unpacked list of values, which are pairs: the list
    of the two columns, and the empty list when there is no pair. *)
Definition zip_star (values : list (Z * Z)) : list (list Z) :=
  match values with
  | [] => []
  | _ => [values.*1; values.*2]
  end.

(** The order of [df.sort(['id_plt', 'id_cohort', 'id_axis'])]. *)
Definition row_leb (a b : axeT_row) : bool :=
  match id_plt a ?= id_plt b with
  | Lt => true
  | Gt => false
  | Eq => match id_cohort a ?= id_cohort b with
          | Lt => true
          | Gt => false
          | Eq => String.leb (id_axis a) (id_axis b)
          end
  end.

(** [axeT_user(plants)]: the rows of the table, sorted. [x.keys()] and
    [x.values()] list the items of a plant in the same order; taking item
    0 of the [zip] of the values raises [IndexError] on a plant without
    axes. The
    columns have the same length, so that their assignment is the zip. *)
Definition axeT_user (plants : list (gmap string (Z * Z)))
  : option (list axeT_row) :=
  let iplant :=
    flat_list (imap (fun i x => replicate (size x) (Z.of_nat i + 1)) plants) in
  let axis_ids := flat_list ((fun x => (map_to_list x).*1) <$> plants) in
  cohorts ←
    flat_list <$> mapM (fun x => zip_star (map_to_list x).*2 !! 0%nat) plants;
  phytomers ←
    flat_list <$> mapM (fun x => zip_star (map_to_list x).*2 !! 1%nat) plants;
  let rows :=
    zip_with (fun '(plt, axis) '(cohort, nff) =>
                {| id_plt := plt; id_cohort := cohort; id_axis := axis;
                   N_phytomer_potential := nff;
                   id_phen := cohort * 100 + nff |})
             (zip iplant axis_ids) (zip cohorts phytomers) in
  Some (merge_sort (fun a b => Is_true (row_leb a b)) rows).

End Ext.

(** ** plantgen/tools.py *)

Module Tools.

(** A loop over the items of a sequence whose body may raise. *)
Fixpoint for_each {A S : Type} (body : A -> S -> option S)
    (items : list A) (st : S) : option S :=
  match items with
  | [] => Some st
  | x :: rest => body x st ≫= for_each body rest
  end.

Section Sampling.
(** The values returned by the successive calls of [random.random()]. *)
Variable draws : nat -> Q.

(** [decide_child_cohorts]. The mapping is the list of its items, each
    key given by its value under [int]; [s] counts the draws made so far.
    The recursion of the source is bounded by [fuel]; [None] is an
    exhausted bound. The recursion limit of the interpreter is not
    modelled. *)
Fixpoint decide_child_cohorts_rec (fuel : nat)
    (decide_child_cohort_probabilities : list (Z * Q))
    (parent_cohort_index first_child_delay : Z) (s : nat)
  : option (list Z * nat) :=
  match fuel with
  | O => None
  | S fuel' =>
      let first_possible_cohort_number :=
        parent_cohort_index + first_child_delay in
      if decide (first_possible_cohort_number = 1) then
        '(sub, s') ← decide_child_cohorts_rec fuel'
                       decide_child_cohort_probabilities
                       first_possible_cohort_number 2 s;
        Some (first_possible_cohort_number :: sub, s')
      else
        for_each
          (fun '(cohort_number, cohort_probability) '(child, s0) =>
             if decide (first_possible_cohort_number <= cohort_number) then
               if Qle_bool (draws s0) cohort_probability then
                 '(sub, s') ← decide_child_cohorts_rec fuel'
                                decide_child_cohort_probabilities
                                cohort_number 2 (S s0);
                 Some (child ++ cohort_number :: sub, s')
               else Some (child, S s0)
             else Some (child, s0))
          decide_child_cohort_probabilities ([], s)
  end.

(** A bound that the recursion never exhausts. *)
Definition max_cohort (probabilities : list (Z * Q)) : Z :=
  foldr Z.max 1 (fst <$> probabilities).

Definition enough_fuel (probabilities : list (Z * Q))
    (parent_cohort_index first_child_delay : Z) : nat :=
  S (Z.to_nat (max_cohort probabilities + 3
               - (parent_cohort_index + first_child_delay))).

Definition decide_child_cohorts (probabilities : list (Z * Q))
    (parent_cohort_index first_child_delay : Z) (s : nat)
  : option (list Z * nat) :=
  decide_child_cohorts_rec
    (enough_fuel probabilities parent_cohort_index first_child_delay)
    probabilities parent_cohort_index first_child_delay s.

(** The loop of [calculate_MS_final_leaves_number]; [None] is the
    initial value of [MS_final_leaves_number], left as it is when the
    loop ends without a [break]. *)
Fixpoint MS_loop (random_value : Q) (items : list (Q * Q))
    (probabilities_sum : Q) : option Q :=
  match items with
  | [] => None
  | (leaves_number, leaves_probability) :: rest =>
      let probabilities_sum := (probabilities_sum + leaves_probability)%Q in
      if Qle_bool random_value probabilities_sum then Some leaves_number
      else MS_loop random_value rest probabilities_sum
  end.

(** [calculate_MS_final_leaves_number]: the value returned ([None] is
    Python's [None]) and the new count of draws. Each key is given by its
    value under [float]. *)
Definition calculate_MS_final_leaves_number
    (MS_leaves_number_probabilities : list (Q * Q)) (s : nat)
  : option Q * nat :=
  let random_value := draws s in
  (MS_loop random_value MS_leaves_number_probabilities 0%Q, S s).

End Sampling.

(** [np.polyval(coefficients, x)], coefficients from the highest degree. *)
Definition polyval (coefficients : list Q) (x : Q) : Q :=
  foldl (fun acc c => (acc * x + c)%Q) 0%Q coefficients.

(** The exact least-squares line through two points, which
    [np.polyfit([x1, x2], [y1, y2], 1)] approximates. With distinct
    abscissae it is the line through both points. With [x1 = x2] the system
    has rank one and the solution of least norm of the column-scaled system
    has slope [(y1 + y2) / (4 * x1)] and intercept [(y1 + y2) / 4]; at
    [x1 = 0] the scaling divides by zero and no line is obtained. *)
Definition polyfit1 (x1 x2 y1 y2 : Q) : option (list Q) :=
  if Qeq_bool x1 x2 then
    if Qeq_bool x1 0 then None
    else Some [((y1 + y2) / (4 * x1))%Q; ((y1 + y2) / 4)%Q]
  else
    let slope := ((y2 - y1) / (x2 - x1))%Q in
    Some [slope; (y1 - slope * x1)%Q].

(** The order of Python on the tuples that [decide_time_of_death] sorts. *)
Definition em_leb (a b : Q * nat) : bool :=
  match (fst a ?= fst b)%Q with
  | Lt => true
  | Eq => (snd a <=? snd b)%nat
  | Gt => false
  end.

Definition stop_leb (a b : nat * Z) : bool :=
  match (fst a ?= fst b)%nat with
  | Lt => true
  | Eq => snd a <=? snd b
  | Gt => false
  end.

(** [l.pop()]: the last item and the list without it; [IndexError] on an
    empty list. *)
Definition pop {A} (l : list A) : option (A * list A) :=
  x ← last l; Some (x, removelast l).

(** The state of the loops of [decide_time_of_death]. *)
Record death_state : Type := {
  remaining_axes_number : Z;
  T_em_leaf1_tuples : list (Q * nat);
  T_stop_axis_tuples : list (nat * Z)
}.

(** [while axes_to_delete_number > 0], which runs [k] times when
    [axes_to_delete_number] starts at [k]. *)
Fixpoint delete_axes (k : nat) (TT : Z) (st : death_state)
  : option death_state :=
  match k with
  | O => Some st
  | S k' =>
      '((max_emf_1, axis_row_number), rest) ← pop (T_em_leaf1_tuples st);
      delete_axes k' TT
        {| remaining_axes_number := remaining_axes_number st - 1;
           T_em_leaf1_tuples := rest;
           T_stop_axis_tuples :=
             T_stop_axis_tuples st ++ [(axis_row_number, TT)] |}
  end.

(** [for tt in range(...)] (here [TT]), with its [break]. *)
Fixpoint walk (polynomial_coefficient_array : list Q) (tts : list Z)
    (st : death_state) : option death_state :=
  match tts with
  | [] => Some st
  | TT :: tts' =>
      let simulated_axes_number :=
        Py.int (polyval polynomial_coefficient_array (inject_Z TT)) in
      let axes_to_delete_number :=
        remaining_axes_number st - simulated_axes_number in
      st' ← delete_axes (Z.to_nat axes_to_delete_number) TT st;
      if decide (remaining_axes_number st' = 0) then Some st'
      else walk polynomial_coefficient_array tts' st'
  end.

(** The final loop, which puts [nan] ([None]) at the rows without a death
    time. *)
Definition fill_nan (rows : list nat) (TT_stop_axis_list : list (option Z))
    (n : nat) : list (option Z) :=
  foldl (fun l i => if decide (i ∈ rows) then l else Py.list_insert i None l)
        TT_stop_axis_list (seq 0 n).

Section Fitting.
(** The coefficients returned by [np.polyfit([x1, x2], [y1, y2], 1)], from
    the highest degree; [None] when it raises. numpy computes them in
    double precision by a least-squares routine: they are close to the
    exact line [polyfit1] and need not be equal to it, and a value of the
    fitted line that is a whole number on the exact line can come out just
    below it, which [int] then truncates to the whole number before. *)
Variable polyfit : Q -> Q -> Q -> Q -> option (list Q).

(** [decide_time_of_death]; a failed [assert] is [None], as is any other
    exception. An entry [Some tt] of the result is a death time and [None]
    is [nan]. *)
Definition decide_time_of_death (max_axes_number min_axes_number : Z)
    (TT_em_phytomer1 : list Q) (TT_bolting TT_flowering : Q)
  : option (list (option Z)) :=
  if negb ((0 <=? max_axes_number) && (0 <=? min_axes_number)
           && Qle_bool 0 TT_bolting && Qle_bool 0 TT_flowering) then None
  else if negb (Qle_bool TT_bolting TT_flowering) then None
  else if negb (min_axes_number <=? max_axes_number) then None
  else
    polynomial_coefficient_array ←
      polyfit TT_flowering TT_bolting
              (inject_Z min_axes_number) (inject_Z max_axes_number);
    let tuples :=
      merge_sort (fun a b => Is_true (em_leb a b))
        (zip TT_em_phytomer1 (seq 0 (length TT_em_phytomer1))) in
    st ← walk polynomial_coefficient_array
            (Py.range (Py.int TT_bolting) (Py.int TT_flowering + 1))
            {| remaining_axes_number := max_axes_number;
               T_em_leaf1_tuples := tuples;
               T_stop_axis_tuples := [] |};
    let stops :=
      merge_sort (fun a b => Is_true (stop_leb a b))
                 (T_stop_axis_tuples st) in
    let T_stop_axis_row_number_list := fst <$> stops in
    let TT_stop_axis_list := (fun t => Some (snd t)) <$> stops in
    Some (fill_nan T_stop_axis_row_number_list TT_stop_axis_list
                   (length TT_em_phytomer1)).

End Fitting.

(** A float computed by numpy, which need not be finite. *)
Inductive npfloat : Type :=
  | Finite (q : Q)
  | PosInf
  | NegInf
  | NaN.

Definition is_finite (v : npfloat) : bool :=
  match v with Finite _ => true | _ => false end.

(** [c / d] on a numpy float [c] and an integer [d]: a division by zero
    gives a non-finite value (and a warning), it does not raise. *)
Definition np_div (c : Q) (d : Z) : npfloat :=
  if decide (d = 0) then
    match (c ?= 0)%Q with Eq => NaN | Gt => PosInf | Lt => NegInf end
  else Finite (c / inject_Z d)%Q.

(** [a - b] on one-dimensional arrays, with numpy's broadcasting of an
    array of length one; [ValueError] on other unequal lengths. *)
Definition np_sub (a b : list Q) : option (list Q) :=
  if decide (length a = length b) then Some (zip_with Qminus a b)
  else match a, b with
       | [a0], _ => Some ((fun v => (a0 - v)%Q) <$> b)
       | _, [b0] => Some ((fun v => (v - b0)%Q) <$> a)
       | _, _ => None
       end.

(** The numerical routines that [fit_poly] calls: [scipy.optimize.leastsq]
    for one parameter, from the residual function and the starting
    estimate to the solution and the residuals there ([None] when it
    raises), and the square root of a finite non-negative float. *)
Class Numerics : Type := {
  leastsq : (Q -> option (list Q)) -> Q -> option (Q * list Q);
  sqrt_float : Q -> Q
}.

(** [np.sqrt]. *)
Definition np_sqrt `{Numerics} (v : npfloat) : npfloat :=
  match v with
  | Finite q => if Qle_bool 0 q then Finite (sqrt_float q) else NaN
  | PosInf => PosInf
  | NegInf => NaN
  | NaN => NaN
  end.

Section FitPoly.
Context `{Numerics}.

(** [peval(x, a)]: [np.poly1d([a] + fixed_coefs)(x)]. *)
Definition peval (fixed_coefs : list Q) (x : list Q) (a : Q) : list Q :=
  polyval (a :: fixed_coefs) <$> x.

(** [residuals(p, y, x)] with [a, = p]. *)
Definition residuals (fixed_coefs : list Q) (y x : list Q) (a : Q)
  : option (list Q) :=
  np_sub y (peval fixed_coefs x a).

(** [fit_poly]: the pair [(p[0], rmse)]. *)
Definition fit_poly (x_meas_array y_meas_array fixed_coefs : list Q)
    (a_starting_estimate : Q) : option (Q * npfloat) :=
  '(p, fvec) ← leastsq (residuals fixed_coefs y_meas_array x_meas_array)
                       a_starting_estimate;
  let chisq := Py.fsum ((fun e => (e * e)%Q) <$> fvec) in
  let dof := Z.of_nat (length x_meas_array) - 1 in
  let rmse := np_sqrt (np_div chisq dof) in
  Some (p, rmse).

End FitPoly.

(** The scalar product of two arrays. *)
Definition dot (u v : list Q) : Q := Py.fsum (zip_with Qmult u v).

(** An idealised instance of the numerical routines, for residuals that
    are affine in the parameter, as those of [fit_poly] are. [leastsq]
    raises when the residual function does, or when there are fewer
    residuals than parameters ([TypeError: Improper input]); otherwise it
    returns the exact minimiser, or the starting estimate when the
    residuals do not depend on the parameter. The square root is the
    rational approximation from below with the denominator of its
    argument. *)

Definition leastsq_affine (func : Q -> option (list Q)) (x0 : Q)
  : option (Q * list Q) :=
  r0 ← func 0%Q;
  r1 ← func 1%Q;
  if decide (length r0 = 0%nat) then None
  else
    let d := zip_with Qminus r1 r0 in
    let a := if Qeq_bool (dot d d) 0 then x0
             else (- dot r0 d / dot d d)%Q in
    fvec ← func a;
    Some (a, fvec).

Definition sqrt_below (q : Q) : Q :=
  Z.sqrt (Qnum q * Z.pos (Qden q)) # Qden q.

Definition ideal_numerics : Numerics :=
  {| leastsq := leastsq_affine; sqrt_float := sqrt_below |}.

End Tools.

(** ** Notions used in the statements *)

(** The expectation of a finite distribution over integers, given by its
    items. *)
Definition expectation (d : list (Z * Q)) : Q :=
  Py.fsum ((fun kv => (inject_Z (fst kv) * snd kv)%Q) <$> d).

(** [card] with one more unit at each key of [keys]. *)
Definition plus_one_on {K} `{EqDecision K} (keys : list K)
    (card : list (K * Z)) : list (K * Z) :=
  (fun kc => (fst kc, snd kc + if bool_decide (fst kc ∈ keys) then 1 else 0))
    <$> card.

(** The categories that receive a leftover unit in [cardinalities], the
    items [sorted_p[:missing]], and the other ones. *)
Definition receivers {K} (proba : list (K * Q)) (n : Z) : list (K * Q) :=
  take (Z.to_nat (Ext.missing proba n)) (Ext.sorted_desc proba).

Definition others {K} (proba : list (K * Q)) (n : Z) : list (K * Q) :=
  drop (Z.to_nat (Ext.missing proba n)) (Ext.sorted_desc proba).

(** The largest-remainder rule, in the words of the specification: the
    leftover units go to the categories with the largest fractional
    remainders. A category that received a unit has a remainder at least
    as large as that of any category that received none. *)
Definition remainder (v : Q) (n : Z) : Q :=
  (v * inject_Z n - inject_Z (Qfloor (v * inject_Z n)))%Q.

Definition largest_remainder_rule {K} (proba : list (K * Q)) (n : Z)
    (card : list (K * Z)) : Prop :=
  forall k v k' v',
    (k, v) ∈ proba -> (k', v') ∈ proba ->
    (k, Qfloor (v * inject_Z n) + 1) ∈ card ->
    (k', Qfloor (v' * inject_Z n)) ∈ card ->
    (remainder v' n <= remainder v n)%Q.

Local Set Warnings "-register-all".

(** A cohort listed by [decide_child_cohorts], with the cohorts listed as
    its children. *)
Inductive lineage : Type :=
  | Lineage (cohort : Z) (children : list lineage).

Definition lineage_cohort (t : lineage) : Z :=
  match t with Lineage c _ => c end.

Definition lineage_children (t : lineage) : list lineage :=
  match t with Lineage _ ch => ch end.

(** The depth-first listing of a lineage: the cohort, then its children in
    their order, each followed by its own. *)
Fixpoint listing (t : lineage) : list Z :=
  match t with
  | Lineage c ch => c :: concat (listing <$> ch)
  end.

Definition listings (ts : list lineage) : list Z := concat (listing <$> ts).

(** The lineages under a parent whose first possible child is [first], in
    a mapping of cohorts [keys]. When [first] is 1 there is the main stem
    alone, with what is under parent 1. Otherwise the children are cohorts
    of the mapping that are at least [first], in the order of the mapping
    and each item of the mapping taken at most once; under a child [c]
    are the lineages of first possible child [c + 2]. *)
Inductive drawn (keys : list Z) : Z -> list lineage -> Prop :=
  | drawn_main_stem ch :
      drawn keys 3 ch -> drawn keys 1 [Lineage 1 ch]
  | drawn_children first ts :
      first <> 1 ->
      lineage_cohort <$> ts `sublist_of` filter (fun c => first <= c) keys ->
      Forall (fun t => drawn keys (lineage_cohort t + 2) (lineage_children t))
             ts ->
      drawn keys first ts.

(** The invariant of a plant: the parent of each of its axes is the empty
    name or the name of one of its axes. *)
Definition parents_present (plant : gmap string (Z * Z)) : Prop :=
  forall name : string,
    is_Some (plant !! name) ->
    Ext._parent name = EmptyString \/ is_Some (plant !! Ext._parent name).

(** A name without the separator of [_parent]. *)
Fixpoint dot_free (s : string) : bool :=
  match s with
  | EmptyString => true
  | String c r => negb (Ascii.eqb c "."%char) && dot_free r
  end.

(** The number of axes held by a list of plants. *)
Definition axes_number (plants : list (gmap string (Z * Z))) : nat :=
  sum_list (size <$> plants).

(** The number of plants that hold an axis of a given name, and the number
    of axis instances of that name. *)
Definition holders (name : string) (plants : list (gmap string (Z * Z)))
  : nat :=
  sum_list ((fun plant => if decide (is_Some (plant !! name)) then 1%nat else 0%nat)
              <$> plants).

Definition occurrences (name : string) (axis : list Ext.axe) : nat :=
  length (filter (fun a => Ext.axe_name a = name) axis).

(** The death times of a result of [decide_time_of_death], in the order of
    the axes. *)
Definition resolved (l : list (option Z)) : list Z := omap id l.

(** The row of [axeT_user] for an axis of a plant. *)
Definition axis_row (plt : Z) (name : string) (d : Z * Z) : Ext.axeT_row :=
  {| Ext.id_plt := plt; Ext.id_cohort := d.1; Ext.id_axis := name;
     Ext.N_phytomer_potential := d.2; Ext.id_phen := d.1 * 100 + d.2 |}.

(** The rows of the table before it is sorted, for plants numbered from
    [k + 1]. *)
Fixpoint rows_from (k : nat) (plants : list (gmap string (Z * Z)))
  : list Ext.axeT_row :=
  match plants with
  | [] => []
  | x :: rest =>
      ((fun kv => axis_row (Z.of_nat k + 1) kv.1 kv.2) <$> map_to_list x)
      ++ rows_from (S k) rest
  end.

(** The total probability that a dict of probabilities gives to the axes
    of a cohort. *)
Definition cohort_mass (p : list (Z * string * Q)) (c : Z) : Q :=
  Py.fsum (snd <$> filter (fun kv : Z * string * Q => kv.1.1 = c) p).

(** * Properties *)

Local Set Warnings "-clear-no-such-hyp".

(** ** The functions on small inputs *)

Example modalities_ex :
  Ext.modalities (7 # 2) = [(3, (1 # 2)%Q); (4, (1 # 2)%Q)].
Proof. by vm_compute. Qed.

Example cardinalities_ex :
  Ext.cardinalities [(1, (3 # 5)%Q); (2, (2 # 5)%Q)] 4 = Some [(1, 3); (2, 1)].
Proof. by vm_compute. Qed.

Example parent_ex :
  Ext._parent <$> ["T1.0.2"; "T1"; EmptyString; "a..b"; "a."]%string
  = ["T1.0"; EmptyString; EmptyString; "a."; "a"]%string.
Proof. by vm_compute. Qed.

Example plant_list_ex :
  Ext.plant_list (fun _ => 1%nat)
    [(1, 11, "MS"); (1, 11, "MS"); (3, 9, "MS.1"); (3, 9, "MS.1")]%string 2 0
  = Some [ {[ "MS"%string := (1, 11); "MS.1"%string := (3, 9) ]};
           {[ "MS"%string := (1, 11); "MS.1"%string := (3, 9) ]} ].
Proof. by vm_compute. Qed.

Example decide_child_cohorts_ex :
  Tools.decide_child_cohorts (fun _ => 0%Q) [(3, 1%Q); (5, 1%Q)] (-1) 2 0
  = Some ([1; 3; 5; 5], 3%nat).
Proof. by vm_compute. Qed.

(** The same mapping iterated in the other order. *)
Example decide_child_cohorts_other_order :
  Tools.decide_child_cohorts (fun _ => 0%Q) [(5, 1%Q); (3, 1%Q)] 1 2 0
  = Some ([5; 3; 5], 3%nat).
Proof. by vm_compute. Qed.

(** With the exact line through the two points. *)
Example decide_time_of_death_ex :
  Tools.decide_time_of_death Tools.polyfit1 10 2 (replicate 10 0%Q) 100 110
  = Some [None; None; Some 109; Some 108; Some 107; Some 106; Some 104;
          Some 103; Some 102; Some 101].
Proof. by vm_compute. Qed.

(** With a line just below the exact one, as a fit in double precision can
    return. *)
Example decide_time_of_death_below :
  Tools.decide_time_of_death
    (fun _ _ _ _ => Some [- (8000000000000043 # 10000000000000000);
                          9000000000000041 # 100000000000000]%Q)
    10 2 (replicate 10 0%Q) 100 110
  = Some [None; Some 110; Some 109; Some 108; Some 107; Some 105; Some 104;
          Some 103; Some 102; Some 100].
Proof. by vm_compute. Qed.

Example fit_poly_ex :
  exists a r,
    @Tools.fit_poly Tools.ideal_numerics [0; 1; 2]%Q [5; 8; 11]%Q [5%Q] 1%Q
    = Some (a, Tools.Finite r)
    /\ (a == 3)%Q /\ (r == 0)%Q.
Proof. do 2 eexists. split; [by vm_compute|]. by vm_compute. Qed.

Example fit_poly_no_sample :
  @Tools.fit_poly Tools.ideal_numerics [] [] [5%Q] 1%Q = None.
Proof. by vm_compute. Qed.

(** ** Python primitives *)

Lemma int_nonneg_floor (x : Q) : (0 <= x)%Q -> Py.int x = Qfloor x.
Proof.
  destruct x as [n d]. unfold Qle, Py.int. simpl. intros Hn.
  apply Z.quot_div_nonneg; lia.
Qed.

Lemma int_bounds (x : Q) :
  (0 <= x)%Q -> (inject_Z (Py.int x) <= x < inject_Z (Py.int x) + 1)%Q.
Proof.
  intros Hx. rewrite (int_nonneg_floor x Hx). split.
  - apply Qfloor_le.
  - pose proof (Qlt_floor x) as Hlt.
    rewrite inject_Z_plus in Hlt. exact Hlt.
Qed.

Lemma int_nonneg (x : Q) : (0 <= x)%Q -> 0 <= Py.int x.
Proof.
  intros Hx. rewrite (int_nonneg_floor x Hx).
  change 0 with (Qfloor 0). by apply Qfloor_resp_le.
Qed.

(** [int] does not go below an integer that its argument reaches. *)
Lemma int_ge (x : Q) (m : Z) : 0 <= m -> (inject_Z m <= x)%Q -> m <= Py.int x.
Proof.
  intros Hm Hx.
  assert (H0 : (0 <= x)%Q).
  { apply Qle_trans with (inject_Z m); [|exact Hx].
    change 0%Q with (inject_Z 0). by rewrite <- Zle_Qle. }
  rewrite (int_nonneg_floor x H0).
  rewrite <- (Qfloor_Z m). by apply Qfloor_resp_le.
Qed.

Lemma product_nonneg (v : Q) (n : Z) :
  (0 <= v)%Q -> 0 <= n -> (0 <= v * inject_Z n)%Q.
Proof.
  intros Hv Hn. apply Qmult_le_0_compat; [exact Hv|].
  change 0%Q with (inject_Z 0). by rewrite <- Zle_Qle.
Qed.

Lemma sum_cons (c : Z) (l : list Z) : Py.sum (c :: l) = c + Py.sum l.
Proof. reflexivity. Qed.

Lemma fsum_cons (v : Q) (l : list Q) : Py.fsum (v :: l) = (v + Py.fsum l)%Q.
Proof. reflexivity. Qed.

Lemma fsum_nonneg (l : list Q) :
  Forall (fun v => (0 <= v)%Q) l -> (0 <= Py.fsum l)%Q.
Proof.
  induction 1 as [|v l Hv Hl IH]; [cbn; lra|]. rewrite fsum_cons. lra.
Qed.

Lemma elem_of_range (a b t : Z) : t ∈ Py.range a b -> a <= t < b.
Proof.
  unfold Py.range. intros (i & -> & Hi)%list_elem_of_fmap.
  apply elem_of_seq in Hi. lia.
Qed.

(** ** modalities *)

(** C3: for every [x >= 0], [modalities x] is the two-point distribution
    [{floor x: p, floor x + 1: 1 - p}], both probabilities are in [[0, 1]]
    and the expectation [floor x * p + (floor x + 1) * (1 - p)] is [x]. *)
Theorem modalities_two_point (x : Q) :
  (0 <= x)%Q ->
  exists p : Q,
    Ext.modalities x = [(Qfloor x, p); (Qfloor x + 1, (1 - p)%Q)]
    /\ (0 <= p <= 1)%Q /\ (0 <= 1 - p <= 1)%Q
    /\ (expectation (Ext.modalities x) == x)%Q.
Proof.
  intros Hx. pose proof (int_bounds x Hx) as [Hlo Hhi].
  exists (inject_Z (Py.int x) + 1 - x)%Q.
  unfold Ext.modalities, expectation. cbn [fmap list_fmap Py.fsum foldr fst snd].
  rewrite <- (int_nonneg_floor x Hx).
  split; [reflexivity|].
  split; [split; lra|]. split; [split; lra|].
  rewrite inject_Z_plus. change (inject_Z 1) with 1%Q. ring.
Qed.

Lemma modalities_two_point_witness :
  (0 <= 7 # 2)%Q
  /\ exists p : Q,
       Ext.modalities (7 # 2) = [(Qfloor (7 # 2), p); (Qfloor (7 # 2) + 1, (1 - p)%Q)]
       /\ (0 <= p <= 1)%Q /\ (0 <= 1 - p <= 1)%Q
       /\ (expectation (Ext.modalities (7 # 2)) == 7 # 2)%Q.
Proof.
  assert (H : (0 <= 7 # 2)%Q) by (by vm_compute).
  split; [exact H|]. exact (modalities_two_point (7 # 2) H).
Defined.

(** ** cardinalities *)

Section CardinalitiesFacts.
Context {K : Type} `{EqDecision K}.
Implicit Types (proba : list (K * Q)) (card : list (K * Z)) (n : Z).

Lemma floors_keys proba n : (Ext.floors proba n).*1 = proba.*1.
Proof. unfold Ext.floors. rewrite <- list_fmap_compose. reflexivity. Qed.

Lemma floors_nonneg proba n :
  Forall (fun kv => (0 <= snd kv)%Q) proba -> 0 <= n ->
  Forall (fun kc => 0 <= snd kc) (Ext.floors proba n).
Proof.
  intros Hp Hn. unfold Ext.floors. apply Forall_fmap.
  eapply Forall_impl; [exact Hp|]. intros [k v] Hv; simpl in *.
  by apply int_nonneg, product_nonneg.
Qed.

Lemma floors_sum_bounds proba n :
  Forall (fun kv => (0 <= snd kv)%Q) proba -> 0 <= n ->
  let s := inject_Z (Py.sum (Ext.floors proba n).*2) in
  let t := (Py.fsum proba.*2 * inject_Z n)%Q in
  (s <= t)%Q /\ (t <= s + inject_Z (Z.of_nat (length proba)))%Q
  /\ (proba <> [] -> (t < s + inject_Z (Z.of_nat (length proba)))%Q).
Proof.
  intros Hp Hn. induction Hp as [|[k v] l Hv Hl IH].
  - cbn. change (Z.of_nat 0) with 0. change (inject_Z 0) with 0%Q.
    split; [lra|]. split; [lra|]. congruence.
  - destruct IH as (IH1 & IH2 & _).
    destruct (int_bounds _ (product_nonneg v n Hv Hn)) as [Hlo Hhi].
    unfold Ext.floors in *. rewrite !fmap_cons, sum_cons, fsum_cons.
    cbn [fst snd length] in *.
    rewrite Nat2Z.inj_succ, <- Z.add_1_r, !inject_Z_plus.
    change (inject_Z 1) with 1%Q.
    set (a := inject_Z (Py.int (v * inject_Z n))) in *.
    set (s := inject_Z (Py.sum _)) in *.
    set (len := inject_Z (Z.of_nat (length l))) in *.
    set (f := Py.fsum l.*2) in *.
    set (m := inject_Z n) in *.
    split; [lra|]. split; [lra|]. intros _. lra.
Qed.

Lemma missing_range proba n :
  Forall (fun kv => (0 <= snd kv)%Q) proba ->
  (Py.fsum proba.*2 == 1)%Q -> 0 <= n ->
  0 <= Ext.missing proba n < Z.of_nat (length proba).
Proof.
  intros Hp Hsum Hn.
  destruct (floors_sum_bounds proba n Hp Hn) as (H1 & _ & H3).
  cbv zeta in H1, H3. rewrite Hsum in H1, H3.
  assert (Hne : proba <> []).
  { intros ->. cbn in Hsum. lra. }
  specialize (H3 Hne). unfold Ext.missing.
  rewrite Qmult_1_l in H1, H3.
  rewrite <- inject_Z_plus in H3.
  rewrite <- Zle_Qle in H1. rewrite <- Zlt_Qlt in H3. lia.
Qed.

Lemma insert_desc_perm (x : K * Q) l : Ext.insert_desc x l ≡ₚ x :: l.
Proof.
  induction l as [|y l IH]; [reflexivity|]. simpl.
  destruct (Qle_bool (snd y) (snd x)); [reflexivity|].
  rewrite IH. apply perm_swap.
Qed.

Lemma sorted_desc_perm proba : Ext.sorted_desc proba ≡ₚ proba.
Proof.
  induction proba as [|x l IH]; [reflexivity|].
  simpl. rewrite insert_desc_perm. by f_equiv.
Qed.

Lemma insert_desc_sorted (x : K * Q) l :
  StronglySorted (fun a b => (snd b <= snd a)%Q) l ->
  StronglySorted (fun a b => (snd b <= snd a)%Q) (Ext.insert_desc x l).
Proof.
  induction 1 as [|y l Hl IH Hy]; simpl.
  - repeat constructor.
  - destruct (Qle_bool (snd y) (snd x)) eqn:E.
    + apply Qle_bool_iff in E. constructor; [by constructor|].
      constructor; [exact E|].
      eapply Forall_impl; [exact Hy|]. intros z Hz; simpl in *. lra.
    + assert (snd x < snd y)%Q as Hlt.
      { apply Qnot_le_lt. intros Hle. apply Qle_bool_iff in Hle. congruence. }
      constructor; [exact IH|].
      rewrite insert_desc_perm. constructor; [lra|exact Hy].
Qed.

Lemma sorted_desc_sorted proba :
  StronglySorted (fun a b => (snd b <= snd a)%Q) (Ext.sorted_desc proba).
Proof.
  induction proba as [|x l IH]; simpl; [constructor|].
  by apply insert_desc_sorted.
Qed.

Lemma new_keys_take (sorted_p : list (K * Q)) (m : Z) :
  (Z.to_nat m <= length sorted_p)%nat ->
  Ext.new_keys sorted_p m = Some (take (Z.to_nat m) sorted_p).*1.
Proof.
  intros Hm. unfold Ext.new_keys. apply mapM_Some_2.
  apply Forall2_same_length_lookup_2.
  - rewrite length_seq, length_fmap, length_take. lia.
  - intros i j k Hi Hk.
    apply lookup_seq in Hi as [-> Hi]. simpl.
    rewrite list_lookup_fmap, lookup_take_lt in Hk by lia. exact Hk.
Qed.

Lemma new_keys_Some (sorted_p : list (K * Q)) (m : Z) new :
  Ext.new_keys sorted_p m = Some new ->
  (Z.to_nat m <= length sorted_p)%nat
  /\ new = (take (Z.to_nat m) sorted_p).*1.
Proof.
  intros Hnew.
  assert (Hm : (Z.to_nat m <= length sorted_p)%nat).
  { destruct (decide (Z.to_nat m <= length sorted_p)%nat) as [|Hgt]; [done|].
    exfalso. unfold Ext.new_keys in Hnew.
    apply mapM_Some_1 in Hnew.
    assert (Hin : seq 0 (Z.to_nat m) !! length sorted_p = Some (length sorted_p)).
    { apply lookup_seq. split; [done|lia]. }
    destruct (Forall2_lookup_l _ _ _ _ _ Hnew Hin) as (y & _ & Hy).
    rewrite lookup_ge_None_2 in Hy by lia. discriminate. }
  split; [exact Hm|].
  rewrite (new_keys_take _ _ Hm) in Hnew. congruence.
Qed.

Lemma plus_one_on_keys keys card : (plus_one_on keys card).*1 = card.*1.
Proof. unfold plus_one_on. by rewrite <- list_fmap_compose. Qed.

Lemma plus_one_on_absent keys card :
  (forall k, k ∈ keys -> k ∉ card.*1) -> plus_one_on keys card = card.
Proof.
  intros Hd. unfold plus_one_on. rewrite <- (list_fmap_id card) at 2.
  apply list_fmap_ext. intros i [k c] Hi. simpl.
  rewrite bool_decide_eq_false_2, Z.add_0_r; [done|].
  intros Hk. apply (Hd k Hk).
  apply (list_elem_of_fmap_2' fst _ (k, c)); [|done].
  by eapply list_elem_of_lookup_2.
Qed.

Lemma plus_one_on_cons k keys card :
  k ∉ keys ->
  plus_one_on keys (plus_one_on [k] card) = plus_one_on (k :: keys) card.
Proof.
  intros Hk. unfold plus_one_on. rewrite <- list_fmap_compose.
  apply list_fmap_ext. intros i [k' c] _; simpl. f_equal.
  repeat case_bool_decide; first [lia | exfalso; set_solver].
Qed.

Lemma incr_Some k card :
  k ∈ card.*1 -> NoDup card.*1 ->
  Ext.incr k card = Some (plus_one_on [k] card).
Proof.
  induction card as [|[k' c] rest IH].
  - intros Hin. by apply elem_of_nil in Hin.
  - rewrite fmap_cons. intros Hin [Hk' Hnd]%NoDup_cons.
    cbn [Ext.incr fst]. unfold plus_one_on. rewrite fmap_cons. cbn [fst snd].
    fold (plus_one_on [k] rest).
    destruct (decide (k' = k)) as [->|Hne].
    + rewrite bool_decide_eq_true_2 by (by apply list_elem_of_singleton).
      rewrite plus_one_on_absent; [done|].
      by intros k2 ->%list_elem_of_singleton.
    + apply elem_of_cons in Hin as [->|Hin]; [done|].
      rewrite IH by done. simpl.
      rewrite bool_decide_eq_false_2, Z.add_0_r; [done|].
      by intros ->%list_elem_of_singleton.
Qed.

Lemma incr_all_Some new card :
  NoDup new -> new ⊆ card.*1 -> NoDup card.*1 ->
  Ext.incr_all new card = Some (plus_one_on new card).
Proof.
  revert card. induction new as [|k new IH]; intros card Hnew Hsub Hnd; simpl.
  - rewrite plus_one_on_absent; [done|]. by intros k ?%elem_of_nil.
  - apply NoDup_cons in Hnew as [Hk Hnew].
    rewrite incr_Some; [simpl|set_solver|done].
    rewrite IH; [|done|by rewrite plus_one_on_keys; set_solver
                 |by rewrite plus_one_on_keys].
    by rewrite plus_one_on_cons.
Qed.

Lemma incr_sum k card card' :
  Ext.incr k card = Some card' ->
  Py.sum card'.*2 = Py.sum card.*2 + 1
  /\ (Forall (fun kc => 0 <= snd kc) card ->
      Forall (fun kc => 0 <= snd kc) card').
Proof.
  revert card'. induction card as [|[k' c] rest IH]; intros card'; [done|].
  cbn [Ext.incr]. destruct (decide (k' = k)) as [->|Hne].
  - intros [= <-]. rewrite !fmap_cons, !sum_cons. cbn [snd]. split; [lia|].
    intros [Hc Hr]%Forall_cons. constructor; [cbn [snd] in *; lia|done].
  - destruct (Ext.incr k rest) as [r|]; [|done]. intros [= <-].
    destruct (IH r eq_refl) as [IH1 IH2].
    rewrite !fmap_cons, !sum_cons. cbn [snd]. split; [lia|].
    intros [Hc Hr]%Forall_cons. constructor; [done|by apply IH2].
Qed.

Lemma incr_all_sum new card card' :
  Ext.incr_all new card = Some card' ->
  Py.sum card'.*2 = Py.sum card.*2 + Z.of_nat (length new)
  /\ (Forall (fun kc => 0 <= snd kc) card ->
      Forall (fun kc => 0 <= snd kc) card').
Proof.
  revert card. induction new as [|k new IH]; intros card; simpl.
  - intros [= <-]. split; [lia|done].
  - destruct (Ext.incr k card) as [c1|] eqn:E; [simpl|done]. intros Hall.
    destruct (incr_sum _ _ _ E) as [E1 E2].
    destruct (IH _ Hall) as [IH1 IH2]. split; [lia|auto].
Qed.

Lemma sum_filter_positive card :
  Forall (fun kc => 0 <= snd kc) card ->
  Py.sum (filter (fun kv : K * Z => 0 < snd kv) card).*2 = Py.sum card.*2.
Proof.
  induction 1 as [|[k c] rest Hc Hrest IH]; [done|].
  rewrite filter_cons. simpl in Hc. cbn [snd].
  destruct (decide (0 < c)); rewrite ?fmap_cons, ?sum_cons; cbn [snd]; lia.
Qed.

Lemma positive_sum_zero card :
  Forall (fun kc => 0 < snd kc) card -> Py.sum card.*2 = 0 -> card = [].
Proof.
  intros Hpos. destruct Hpos as [|[k c] rest Hc Hrest]; [done|].
  rewrite fmap_cons, sum_cons. simpl in *. intros Hsum. exfalso.
  assert (0 <= Py.sum rest.*2).
  { clear Hsum. induction Hrest as [|[k' c'] r Hc' Hr IH]; [done|].
    rewrite fmap_cons, sum_cons. simpl in *. lia. }
  lia.
Qed.

(** The first [missing] items of the sort are distinct keys of [card]. *)
Lemma new_keys_wf proba n :
  NoDup proba.*1 ->
  let new := (take (Z.to_nat (Ext.missing proba n))
                   (Ext.sorted_desc proba)).*1 in
  NoDup new /\ new ⊆ (Ext.floors proba n).*1.
Proof.
  intros Hnd new.
  assert (Hperm : (Ext.sorted_desc proba).*1 ≡ₚ proba.*1).
  { by rewrite sorted_desc_perm. }
  assert (Hsub : new `sublist_of` (Ext.sorted_desc proba).*1).
  { unfold new. apply fmap_sublist, sublist_take. }
  split.
  - eapply sublist_NoDup; [|exact Hsub]. by rewrite Hperm.
  - rewrite floors_keys. intros x Hx.
    rewrite <- Hperm. eapply elem_of_sublist; done.
Qed.

Lemma allocate_Some proba n card :
  NoDup proba.*1 -> Ext.allocate proba n = Some card ->
  (Z.to_nat (Ext.missing proba n) <= length proba)%nat
  /\ card = plus_one_on (take (Z.to_nat (Ext.missing proba n))
                              (Ext.sorted_desc proba)).*1
                        (Ext.floors proba n).
Proof.
  intros Hnd. unfold Ext.allocate.
  destruct (Ext.new_keys _ _) as [new|] eqn:E; [simpl|done].
  apply new_keys_Some in E as [Hm ->].
  destruct (new_keys_wf proba n Hnd) as [Hnew Hsub].
  rewrite incr_all_Some; [|done|done|by rewrite floors_keys].
  intros [= <-]. split; [|done].
  by rewrite <- (Permutation_length (sorted_desc_perm proba)).
Qed.

Lemma allocate_in_range proba n :
  NoDup proba.*1 ->
  (Z.to_nat (Ext.missing proba n) <= length proba)%nat ->
  Ext.allocate proba n
  = Some (plus_one_on (take (Z.to_nat (Ext.missing proba n))
                            (Ext.sorted_desc proba)).*1
                      (Ext.floors proba n)).
Proof.
  intros Hnd Hm. unfold Ext.allocate.
  rewrite new_keys_take
    by (by rewrite (Permutation_length (sorted_desc_perm proba))).
  simpl. destruct (new_keys_wf proba n Hnd) as [Hnew Hsub].
  apply incr_all_Some; [done|done|by rewrite floors_keys].
Qed.

End CardinalitiesFacts.

Section CardinalitiesTheorems.
Context {K : Type} `{EqDecision K}.
Implicit Types (proba : list (K * Q)) (card : list (K * Z)) (n : Z).

(** C1: for a mapping of non-negative proportions that sum to 1 and
    [n >= 0], [cardinalities] returns a mapping of counts that are
    non-negative (indeed positive, the zero counts being dropped) and sum
    exactly to [n]; for [n = 0] the result is empty. *)
Theorem cardinalities_sum proba n :
NoDup proba.*1 ->
Forall (fun kv => (0 <= snd kv)%Q) proba ->
(Py.fsum proba.*2 == 1)%Q ->
0 <= n ->
exists res,
  Ext.cardinalities proba n = Some res
  /\ NoDup res.*1
  /\ Forall (fun kc => 0 < snd kc) res
  /\ Py.sum res.*2 = n
  /\ (n = 0 -> res = []).
Proof.
intros Hnd Hpos Hsum Hn.
pose proof (missing_range proba n Hpos Hsum Hn) as Hm.
assert (Hm' : (Z.to_nat (Ext.missing proba n) <= length proba)%nat) by lia.
pose proof (allocate_in_range proba n Hnd Hm') as Halloc.
set (card := plus_one_on _ _) in Halloc.
unfold Ext.allocate in Halloc.
destruct (Ext.new_keys _ _) as [new|] eqn:Enew; [simpl in Halloc|done].
destruct (incr_all_sum _ _ _ Halloc) as [Hs Hnn].
specialize (Hnn (floors_nonneg proba n Hpos Hn)).
apply new_keys_Some in Enew as [_ Enew].
assert (Hlen : Z.of_nat (length new) = Ext.missing proba n).
{ rewrite Enew, length_fmap, length_take.
  rewrite (Permutation_length (sorted_desc_perm proba)). lia. }
assert (Hres : Py.sum (filter (fun kv : K * Z => 0 < snd kv) card).*2 = n).
{ rewrite sum_filter_positive by done. rewrite Hs, Hlen.
  unfold Ext.missing. lia. }
exists (filter (fun kv : K * Z => 0 < snd kv) card).
split.
{ unfold Ext.cardinalities, Ext.allocate.
  rewrite (new_keys_take _ _ ltac:(by rewrite (Permutation_length (sorted_desc_perm proba)))).
  simpl. rewrite <- Enew, Halloc. done. }
split.
{ eapply sublist_NoDup; [|apply fmap_sublist, sublist_filter].
  unfold card. by rewrite plus_one_on_keys, floors_keys. }
assert (Hp : Forall (fun kc : K * Z => 0 < snd kc)
               (filter (fun kv : K * Z => 0 < snd kv) card)).
{ apply Forall_forall. by intros x [? _]%list_elem_of_filter. }
split; [exact Hp|]. split; [exact Hres|].
intros ->. by apply positive_sum_zero.
Qed.

(** C2, amended: the leftover units, [n] minus the sum of the floors, go
    one each to the categories with the largest proportions, not the largest
    remainders. The categories that receive a unit are the first [missing]
    items of the mapping sorted by decreasing proportion; each of them has
    a proportion at least as large as that of every other category, and the
    counts are the floors with one more unit at these categories. *)
Theorem allocate_by_proportion proba n card :
  NoDup proba.*1 ->
  Ext.allocate proba n = Some card ->
  length (receivers proba n) = Z.to_nat (Ext.missing proba n)
  /\ receivers proba n ++ others proba n ≡ₚ proba
  /\ (forall kv kv', kv ∈ receivers proba n -> kv' ∈ others proba n ->
        (snd kv' <= snd kv)%Q)
  /\ card = plus_one_on (receivers proba n).*1 (Ext.floors proba n)
  /\ Ext.cardinalities proba n
     = Some (filter (fun kc : K * Z => 0 < snd kc) card).
Proof.
  intros Hnd Halloc. unfold receivers, others.
  destruct (allocate_Some proba n card Hnd Halloc) as [Hm Hcard].
  split.
  { rewrite length_take.
    rewrite (Permutation_length (sorted_desc_perm proba)). lia. }
  split.
  { rewrite take_drop. apply sorted_desc_perm. }
  split.
  { intros kv kv' Hkv Hkv'.
    pose proof (sorted_desc_sorted proba) as Hs.
    rewrite <- (take_drop (Z.to_nat (Ext.missing proba n))) in Hs.
    by apply (StronglySorted_app_1_elem_of _ _ _ _ _ Hs). }
  split; [exact Hcard|].
  unfold Ext.cardinalities. by rewrite Halloc.
Qed.

End CardinalitiesTheorems.

Lemma cardinalities_sum_witness :
  exists res,
    Ext.cardinalities [(1, (5 # 8)%Q); (2, (3 # 8)%Q)] 2 = Some res
    /\ NoDup res.*1
    /\ Forall (fun kc => 0 < snd kc) res
    /\ Py.sum res.*2 = 2
    /\ (2 = 0 -> res = []).
Proof.
  apply (cardinalities_sum [(1, (5 # 8)%Q); (2, (3 # 8)%Q)] 2).
  - compute_done.
  - repeat constructor; by vm_compute.
  - by vm_compute.
  - lia.
Defined.

Lemma allocate_by_proportion_witness :
  NoDup [(1, (5 # 8)%Q); (2, (3 # 8)%Q)].*1
  /\ Ext.allocate [(1, (5 # 8)%Q); (2, (3 # 8)%Q)] 2 = Some [(1, 2); (2, 0)]
  /\ [(1, 2); (2, 0)]
     = plus_one_on (receivers [(1, (5 # 8)%Q); (2, (3 # 8)%Q)] 2).*1
                   (Ext.floors [(1, (5 # 8)%Q); (2, (3 # 8)%Q)] 2).
Proof.
  assert (Hnd : NoDup [(1, (5 # 8)%Q); (2, (3 # 8)%Q)].*1) by compute_done.
  assert (Halloc : Ext.allocate [(1, (5 # 8)%Q); (2, (3 # 8)%Q)] 2
                   = Some [(1, 2); (2, 0)]) by (by vm_compute).
  split; [exact Hnd|]. split; [exact Halloc|].
  exact (proj1 (proj2 (proj2 (proj2
           (allocate_by_proportion _ 2 _ Hnd Halloc))))).
Defined.

(** C2, as stated, fails: with proportions 5/8 and 3/8 and [n = 2] the
    floors are 1 and 0 and the remainders 1/4 and 3/4; the one leftover
    unit goes to the first category, which has the smaller remainder. *)
Lemma largest_remainder_counterexample :
  exists card,
    Ext.allocate [(1, (5 # 8)%Q); (2, (3 # 8)%Q)] 2 = Some card
    /\ Ext.cardinalities [(1, (5 # 8)%Q); (2, (3 # 8)%Q)] 2 = Some [(1, 2)]
    /\ ~ largest_remainder_rule [(1, (5 # 8)%Q); (2, (3 # 8)%Q)] 2 card.
Proof.
  exists [(1, 2); (2, 0)]. split; [by vm_compute|]. split; [by vm_compute|].
  intros Hrule.
  specialize (Hrule 1 (5 # 8)%Q 2 (3 # 8)%Q).
  assert (Hle : (remainder (3 # 8) 2 <= remainder (5 # 8) 2)%Q).
  { apply Hrule.
    - apply list_elem_of_here.
    - apply list_elem_of_further, list_elem_of_here.
    - apply list_elem_of_here.
    - apply list_elem_of_further, list_elem_of_here. }
  vm_compute in Hle. by apply Hle.
Qed.

(** ** decide_child_cohorts *)

Section ForEach.
Context {A S : Type}.
Implicit Types (body : A -> S -> option S) (items : list A).

Lemma for_each_mono body1 body2 items st r :
  (forall x st r, x ∈ items -> body1 x st = Some r -> body2 x st = Some r) ->
  Tools.for_each body1 items st = Some r ->
  Tools.for_each body2 items st = Some r.
Proof.
  revert st. induction items as [|x items IH]; intros st Hb; [done|].
  simpl. destruct (body1 x st) as [st1|] eqn:E; [simpl|done].
  rewrite (Hb x st st1) by (done || apply list_elem_of_here). simpl.
  apply IH. intros y st' r' Hy. apply Hb. by apply list_elem_of_further.
Qed.

Lemma for_each_is_Some body items st :
  (forall x st, x ∈ items -> is_Some (body x st)) ->
  is_Some (Tools.for_each body items st).
Proof.
  revert st. induction items as [|x items IH]; intros st Hb; [by eexists|].
  simpl. destruct (Hb x st) as [st1 ->]; [apply list_elem_of_here|]. simpl.
  apply IH. intros y st' Hy. apply Hb. by apply list_elem_of_further.
Qed.

Lemma for_each_invariant (P : S -> Prop) body items st r :
  P st ->
  (forall x st st', x ∈ items -> P st -> body x st = Some st' -> P st') ->
  Tools.for_each body items st = Some r -> P r.
Proof.
  revert st. induction items as [|x items IH]; intros st HP Hb.
  - by intros [= <-].
  - simpl. destruct (body x st) as [st1|] eqn:E; [simpl|done].
    apply IH.
    + eapply Hb; [apply list_elem_of_here|exact HP|exact E].
    + intros y st' st'' Hy. apply Hb. by apply list_elem_of_further.
Qed.
End ForEach.

Section CohortFacts.
Variable draws : nat -> Q.
Implicit Types (probs : list (Z * Q)) (fuel : nat).

Lemma max_cohort_ge_1 probs : 1 <= Tools.max_cohort probs.
Proof.
  unfold Tools.max_cohort. induction (fst <$> probs) as [|c l IH]; simpl; lia.
Qed.

Lemma max_cohort_ge probs c : c ∈ probs.*1 -> c <= Tools.max_cohort probs.
Proof.
  unfold Tools.max_cohort. induction (fst <$> probs) as [|c' l IH]; simpl.
  - by intros ?%elem_of_nil.
  - intros [->|Hin]%elem_of_cons; [lia|]. specialize (IH Hin). lia.
Qed.

Lemma decide_child_cohorts_rec_mono fuel fuel' probs parent delay s r :
  (fuel <= fuel')%nat ->
  Tools.decide_child_cohorts_rec draws fuel probs parent delay s = Some r ->
  Tools.decide_child_cohorts_rec draws fuel' probs parent delay s = Some r.
Proof.
  revert fuel' parent delay s r.
  induction fuel as [|fuel IH]; intros fuel' parent delay s r Hle; [done|].
  destruct fuel' as [|fuel']; [lia|].
  assert (Hle' : (fuel <= fuel')%nat) by lia.
  cbn [Tools.decide_child_cohorts_rec]. cbv zeta.
  destruct (decide (parent + delay = 1)) as [Hone|Hone].
  - destruct (Tools.decide_child_cohorts_rec draws fuel _ _ _ _)
      as [[sub s']|] eqn:E; [simpl|done].
    by rewrite (IH _ _ _ _ _ Hle' E).
  - apply for_each_mono. intros [c p] [child s0] r' _.
    destruct (decide (parent + delay <= c)); [|done].
    destruct (Qle_bool (draws s0) p); [|done].
    destruct (Tools.decide_child_cohorts_rec draws fuel _ _ _ _)
      as [[sub s']|] eqn:E; [simpl|done].
    by rewrite (IH _ _ _ _ _ Hle' E).
Qed.

Lemma decide_child_cohorts_rec_total fuel probs parent delay s :
  (Z.to_nat (Tools.max_cohort probs + 3 - (parent + delay)) < fuel)%nat ->
  is_Some (Tools.decide_child_cohorts_rec draws fuel probs parent delay s).
Proof.
  pose proof (max_cohort_ge_1 probs) as HM.
  revert parent delay s.
  induction fuel as [|fuel IH]; intros parent delay s Hfuel; [lia|].
  cbn [Tools.decide_child_cohorts_rec]. cbv zeta.
  destruct (decide (parent + delay = 1)) as [Hone|Hone].
  - destruct (IH (parent + delay) 2 s) as [[sub s'] ->]; [lia|].
    by eexists.
  - apply for_each_is_Some. intros [c p] [child s0] Hin.
    destruct (decide (parent + delay <= c)); [|by eexists].
    destruct (Qle_bool (draws s0) p); [|by eexists].
    assert (c <= Tools.max_cohort probs).
    { apply max_cohort_ge. by apply (list_elem_of_fmap_2 fst _ (c, p)). }
    destruct (IH c 2 (S s0)) as [[sub s'] ->]; [lia|].
    by eexists.
Qed.

Lemma decide_child_cohorts_total probs parent delay s :
  is_Some (Tools.decide_child_cohorts draws probs parent delay s).
Proof.
  apply decide_child_cohorts_rec_total. unfold Tools.enough_fuel. lia.
Qed.

(** Any bound under which the recursion ends gives the result of
    [decide_child_cohorts]. *)
Lemma decide_child_cohorts_fuel fuel probs parent delay s r :
  Tools.decide_child_cohorts_rec draws fuel probs parent delay s = Some r ->
  Tools.decide_child_cohorts draws probs parent delay s = Some r.
Proof.
  intros Hr. unfold Tools.decide_child_cohorts.
  destruct (Nat.le_ge_cases fuel (Tools.enough_fuel probs parent delay)) as [Hle|Hge].
  - by apply (decide_child_cohorts_rec_mono fuel).
  - destruct (decide_child_cohorts_total probs parent delay s) as [r' Hr'].
    unfold Tools.decide_child_cohorts in Hr'.
    pose proof (decide_child_cohorts_rec_mono _ _ _ _ _ _ _ Hge Hr') as Hr''.
    congruence.
Qed.

Lemma decide_child_cohorts_rec_entries fuel probs parent delay s l s' :
  Tools.decide_child_cohorts_rec draws fuel probs parent delay s
  = Some (l, s') ->
  Forall (fun c => parent + delay <= c /\ (c = 1 \/ c ∈ probs.*1)) l.
Proof.
  revert parent delay s l s'.
  induction fuel as [|fuel IH]; intros parent delay s l s'; [done|].
  cbn [Tools.decide_child_cohorts_rec]. cbv zeta.
  destruct (decide (parent + delay = 1)) as [Hone|Hone].
  - destruct (Tools.decide_child_cohorts_rec draws fuel _ _ _ _)
      as [[sub s1]|] eqn:E; [simpl|done].
    intros [= <- <-]. constructor; [split; [lia|by left]|].
    eapply Forall_impl; [exact (IH _ _ _ _ _ E)|].
    intros c [Hc ?]. cbv beta in *. split; [lia|done].
  - intros Hloop.
    refine (for_each_invariant
              (fun st : list Z * nat =>
                 Forall (fun c => parent + delay <= c
                                  /\ (c = 1 \/ c ∈ probs.*1)) st.1)
              _ _ ([], s) (l, s') _ _ Hloop); [by constructor|].
    intros [c p] [child s0] [child' s0'] Hin Hst. cbn [fst] in *.
    destruct (decide (parent + delay <= c)); [|by intros [= <- <-]].
    destruct (Qle_bool (draws s0) p); [|by intros [= <- <-]].
    destruct (Tools.decide_child_cohorts_rec draws fuel _ _ _ _)
      as [[sub s1]|] eqn:E; [simpl|done].
    intros [= <- <-]. apply Forall_app. split; [exact Hst|].
    constructor.
    + split; [done|]. right. by apply (list_elem_of_fmap_2 fst _ (c, p)).
    + eapply Forall_impl; [exact (IH _ _ _ _ _ E)|].
      intros c' [Hc' ?]. cbv beta in *. split; [lia|done].
Qed.



(** With distinct cohorts in the mapping, the children of one parent are
    distinct. *)
Lemma drawn_NoDup (keys : list Z) (first : Z) (ts : list lineage) :
  NoDup keys -> drawn keys first ts -> NoDup (lineage_cohort <$> ts).
Proof.
  intros Hnd Hts. inversion Hts as [ch _|first' ts' _ Hsub _]; subst.
  - apply NoDup_singleton.
  - eapply sublist_NoDup; [|exact Hsub]. by apply NoDup_filter.
Qed.



End CohortFacts.

(** C4: whatever the mapping and the draws, [decide_child_cohorts] called
    with [parent_cohort_index = -1] and [first_child_delay = 2] returns,
    and the list it returns contains cohort 1, the main stem. *)
Theorem main_stem_always_included (draws : nat -> Q) (probs : list (Z * Q))
    (s : nat) :
  exists l s',
    Tools.decide_child_cohorts draws probs (-1) 2 s = Some (l, s') /\ 1 ∈ l.
Proof.
  destruct (decide_child_cohorts_total draws probs (-1) 2 s) as [[l s'] Hr].
  exists l, s'. split; [exact Hr|].
  unfold Tools.decide_child_cohorts, Tools.enough_fuel in Hr.
  cbn [Tools.decide_child_cohorts_rec] in Hr. cbv zeta in Hr.
  change (-1 + 2) with 1 in Hr.
  destruct (decide (1 = 1)); [|done].
  destruct (Tools.decide_child_cohorts_rec _ _ _ _ _ _) as [[sub s1]|];
    [simpl in Hr|done].
  injection Hr as <- <-. apply list_elem_of_here.
Qed.


(** The lineages of that result: cohort 5 is under cohort 3 and under the
    parent. *)
Example lineages_ex :
  listings [Lineage 3 [Lineage 5 []]; Lineage 5 []] = [3; 5; 5]
  /\ drawn [3; 5] 3 [Lineage 3 [Lineage 5 []]; Lineage 5 []].
Proof.
  split; [reflexivity|].
  assert (Hleaf : drawn [3; 5] 7 []).
  { apply drawn_children; [lia|vm_compute; constructor|constructor]. }
  apply drawn_children; [lia|vm_compute; repeat constructor|].
  constructor; [|constructor; [exact Hleaf|constructor]].
  cbn [lineage_cohort lineage_children].
  apply drawn_children; [lia|vm_compute; repeat constructor|].
  constructor; [exact Hleaf|constructor].
Qed.

(** The repetition does not depend on the draws. *)
Lemma any_draw_lists_cohort_twice (draws : nat -> Q) (s : nat) :
  (forall i, (draws i < 1)%Q) ->
  Tools.decide_child_cohorts draws [(3, 1%Q); (5, 1%Q)] 1 2 s
  = Some ([3; 5; 5], (3 + s)%nat).
Proof.
  intros Hd.
  assert (Hb : forall i, Qle_bool (draws i) 1 = true).
  { intros i. apply Qle_bool_iff, Qlt_le_weak, Hd. }
  apply (decide_child_cohorts_fuel draws 3).
  cbn.
  repeat first [ rewrite Hb | rewrite decide_True by lia
               | rewrite decide_False by lia | progress cbn ].
  reflexivity.
Qed.


(** ** calculate_MS_final_leaves_number *)

Lemma MS_loop_None (random_value : Q) (items : list (Q * Q)) (acc : Q) :
  Forall (fun kv => (0 <= snd kv)%Q) items ->
  (acc + Py.fsum items.*2 < random_value)%Q ->
  Tools.MS_loop random_value items acc = None.
Proof.
  intros Hpos. revert acc.
  induction Hpos as [|[k p] items Hp Hitems IH]; intros acc Hlt; [done|].
  rewrite fmap_cons, fsum_cons in Hlt. cbn [snd] in *.
  cbn [Tools.MS_loop].
  assert (Hrest : (0 <= Py.fsum items.*2)%Q).
  { apply fsum_nonneg, Forall_fmap. exact Hitems. }
  destruct (Qle_bool random_value (acc + p)) eqn:E.
  - apply Qle_bool_iff in E. lra.
  - apply IH. lra.
Qed.

(** C10: with non-negative probabilities, [calculate_MS_final_leaves_number]
    returns [None], and raises nothing, whenever the draw exceeds the total
    of the probabilities; when that total is below 1 this happens for
    every draw of an interval [(lo, 1)] with [0 <= lo < 1]. *)
Theorem MS_final_leaves_number_None (draws : nat -> Q)
    (probabilities : list (Q * Q)) (s : nat) :
  Forall (fun kv => (0 <= snd kv)%Q) probabilities ->
  ((Py.fsum probabilities.*2 < draws s)%Q ->
   Tools.calculate_MS_final_leaves_number draws probabilities s
   = (None, S s))
  /\ ((Py.fsum probabilities.*2 < 1)%Q ->
      exists lo : Q,
        (0 <= lo < 1)%Q
        /\ forall (draws' : nat -> Q) (s' : nat),
             (lo < draws' s')%Q ->
             Tools.calculate_MS_final_leaves_number draws' probabilities s'
             = (None, S s')).
Proof.
  intros Hpos.
  assert (Hgen : forall (d : nat -> Q) (i : nat),
             (Py.fsum probabilities.*2 < d i)%Q ->
             Tools.calculate_MS_final_leaves_number d probabilities i
             = (None, S i)).
  { intros d i Hlt. unfold Tools.calculate_MS_final_leaves_number.
    rewrite MS_loop_None; [done|exact Hpos|lra]. }
  split; [apply Hgen|].
  intros Hlt1. exists (Py.fsum probabilities.*2). split.
  - split; [|exact Hlt1]. apply fsum_nonneg, Forall_fmap. exact Hpos.
  - intros d i. apply Hgen.
Qed.

Lemma MS_final_leaves_number_None_witness :
  Forall (fun kv : Q * Q => (0 <= snd kv)%Q) [(11%Q, (1 # 2)%Q); (12%Q, (1 # 4)%Q)]
  /\ Tools.calculate_MS_final_leaves_number (fun _ => (7 # 8)%Q)
       [(11%Q, (1 # 2)%Q); (12%Q, (1 # 4)%Q)] 0 = (None, 1%nat).
Proof.
  assert (Hpos : Forall (fun kv : Q * Q => (0 <= snd kv)%Q)
                   [(11%Q, (1 # 2)%Q); (12%Q, (1 # 4)%Q)]).
  { repeat constructor; by vm_compute. }
  split; [exact Hpos|].
  apply (MS_final_leaves_number_None (fun _ => (7 # 8)%Q) _ 0%nat Hpos).
  by vm_compute.
Defined.

(** ** decide_time_of_death *)

Lemma delete_axes_spec k TT st st' :
  Tools.delete_axes k TT st = Some st' ->
  Tools.remaining_axes_number st'
  = Tools.remaining_axes_number st - Z.of_nat k
  /\ exists rows : list nat,
       length rows = k
       /\ Tools.T_stop_axis_tuples st'
          = Tools.T_stop_axis_tuples st ++ ((fun r => (r, TT)) <$> rows).
Proof.
  revert st. induction k as [|k IH]; intros st; cbn [Tools.delete_axes].
  - intros [= <-]. split; [lia|]. exists []. by rewrite app_nil_r.
  - destruct (Tools.pop _) as [[[e r] rest]|]; [simpl|done].
    intros (Hrem & rows & Hlen & Hstops)%IH. cbn in Hrem, Hstops.
    split; [lia|]. exists (r :: rows). split; [simpl; lia|].
    rewrite Hstops, <- app_assoc. reflexivity.
Qed.

(** A death is recorded at a step of the walk at which the line is below
    the number of axes alive at the start. *)
Lemma walk_stops coefs tts st st' :
  Tools.walk coefs tts st = Some st' ->
  Tools.remaining_axes_number st' <= Tools.remaining_axes_number st
  /\ forall r t,
       (r, t) ∈ Tools.T_stop_axis_tuples st' ->
       (r, t) ∈ Tools.T_stop_axis_tuples st
       \/ (t ∈ tts
           /\ Py.int (Tools.polyval coefs (inject_Z t))
              < Tools.remaining_axes_number st).
Proof.
  revert st. induction tts as [|TT tts IH]; intros st; cbn [Tools.walk].
  - intros [= <-]. split; [lia|]. by left.
  - cbv zeta.
    destruct (Tools.delete_axes _ TT st) as [st1|] eqn:E; [simpl|done].
    apply delete_axes_spec in E as (Hrem & rows & Hlen & Hstops).
    assert (Hhere : forall r t,
               (r, t) ∈ Tools.T_stop_axis_tuples st1 ->
               (r, t) ∈ Tools.T_stop_axis_tuples st
               \/ (t ∈ TT :: tts
                   /\ Py.int (Tools.polyval coefs (inject_Z t))
                      < Tools.remaining_axes_number st)).
    { intros r t. rewrite Hstops, elem_of_app.
      intros [?|Hin]; [by left|right].
      apply list_elem_of_fmap in Hin as (r' & [= -> ->] & Hr').
      split; [apply list_elem_of_here|].
      destruct rows; [by apply elem_of_nil in Hr'|]. simpl in Hlen. lia. }
    destruct (decide (Tools.remaining_axes_number st1 = 0)).
    + intros [= <-]. split; [lia|exact Hhere].
    + intros (Hle & Hin)%IH. split; [lia|].
      intros r t [Hold|[Ht Hlt]]%Hin.
      * by apply Hhere.
      * right. split; [by apply list_elem_of_further|lia].
Qed.

Lemma fill_nan_Some rows l n t :
  Some t ∈ Tools.fill_nan rows l n -> Some t ∈ l.
Proof.
  unfold Tools.fill_nan. revert l.
  induction (seq 0 n) as [|i rest IH]; intros l; [done|].
  simpl. intros Hin%IH. destruct (decide (i ∈ rows)); [done|].
  unfold Py.list_insert in Hin.
  rewrite elem_of_app, elem_of_cons in Hin.
  destruct Hin as [Hin|[?|Hin]]; [|done|].
  - eapply elem_of_sublist; [exact Hin|apply sublist_take].
  - eapply elem_of_sublist; [exact Hin|apply sublist_drop].
Qed.

(** The exact line does not go below the maximum before bolting. *)
Lemma line_before_bolting (max_axes min_axes : Z) (TB TF x : Q) coefs :
  min_axes <= max_axes -> (TB < TF)%Q -> (x <= TB)%Q ->
  Tools.polyfit1 TF TB (inject_Z min_axes) (inject_Z max_axes) = Some coefs ->
  (inject_Z max_axes <= Tools.polyval coefs x)%Q.
Proof.
  intros Hmm Hlt Hx. unfold Tools.polyfit1.
  destruct (Qeq_bool TF TB) eqn:E.
  { apply Qeq_bool_iff in E. lra. }
  intros [= <-]. cbn [Tools.polyval foldl].
  rewrite Zle_Qle in Hmm.
  set (M := inject_Z max_axes) in *. set (m := inject_Z min_axes) in *.
  assert (Hd : (0 < TF - TB)%Q) by lra.
  assert (Heq : ((0 * x + (M - m) / (TB - TF)) * x
                 + (m - (M - m) / (TB - TF) * TF)
                 == M + (M - m) * (TB - x) * / (TF - TB))%Q).
  { field. split; lra. }
  rewrite Heq.
  assert (0 <= (M - m) * (TB - x) * / (TF - TB))%Q; [|lra].
  apply Qmult_le_0_compat.
  - apply Qmult_le_0_compat; lra.
  - apply Qlt_le_weak, Qinv_lt_0_compat, Hd.
Qed.

(** So its truncated value at the first step is not below the maximum. *)
Lemma exact_line_first_step (max_axes min_axes : Z) (TB TF : Q) coefs :
  0 <= max_axes -> min_axes <= max_axes -> (0 <= TB)%Q -> (TB < TF)%Q ->
  Tools.polyfit1 TF TB (inject_Z min_axes) (inject_Z max_axes) = Some coefs ->
  max_axes <= Py.int (Tools.polyval coefs (inject_Z (Py.int TB))).
Proof.
  intros Hmax Hmm HTB Hlt Hfit. apply int_ge; [done|].
  eapply line_before_bolting; [exact Hmm|exact Hlt| |exact Hfit].
  by destruct (int_bounds TB HTB).
Qed.

(** What a call that returns has gone through. *)
Lemma decide_time_of_death_inv polyfit max_axes min_axes em TB TF l :
  Tools.decide_time_of_death polyfit max_axes min_axes em TB TF = Some l ->
  exists coefs st,
    (0 <= min_axes <= max_axes /\ (0 <= TB <= TF)%Q)
    /\ polyfit TF TB (inject_Z min_axes) (inject_Z max_axes) = Some coefs
    /\ Tools.walk coefs (Py.range (Py.int TB) (Py.int TF + 1))
         {| Tools.remaining_axes_number := max_axes;
            Tools.T_em_leaf1_tuples :=
              merge_sort (fun a b => Is_true (Tools.em_leb a b))
                         (zip em (seq 0 (length em)));
            Tools.T_stop_axis_tuples := [] |} = Some st
    /\ l = Tools.fill_nan
             (merge_sort (fun a b => Is_true (Tools.stop_leb a b))
                         (Tools.T_stop_axis_tuples st)).*1
             ((fun t => Some t.2)
                <$> merge_sort (fun a b => Is_true (Tools.stop_leb a b))
                               (Tools.T_stop_axis_tuples st))
             (length em).
Proof.
  unfold Tools.decide_time_of_death.
  destruct (negb _) eqn:E1; [done|].
  destruct (negb (Qle_bool TB TF)) eqn:E2; [done|].
  destruct (negb (min_axes <=? max_axes)) eqn:E3; [done|].
  apply negb_false_iff in E1, E2, E3.
  apply andb_true_iff in E1 as [E1 HTF]. apply andb_true_iff in E1 as [E1 HTB].
  apply andb_true_iff in E1 as [Hmax Hmin].
  apply Z.leb_le in Hmax, Hmin, E3.
  apply Qle_bool_iff in HTF, HTB, E2.
  destruct (polyfit _ _ _ _) as [coefs|] eqn:Efit; [simpl|done].
  destruct (Tools.walk _ _ _) as [st|] eqn:Ewalk; [simpl|done].
  intros [= <-]. exists coefs, st. split_and!; done.
Qed.

(** A call that passes the assertions, gets a line and walks to the end
    returns. *)
Lemma decide_time_of_death_eq polyfit max_axes min_axes em TB TF coefs :
  0 <= min_axes <= max_axes -> (0 <= TB <= TF)%Q ->
  polyfit TF TB (inject_Z min_axes) (inject_Z max_axes) = Some coefs ->
  Tools.decide_time_of_death polyfit max_axes min_axes em TB TF
  = st ← Tools.walk coefs (Py.range (Py.int TB) (Py.int TF + 1))
            {| Tools.remaining_axes_number := max_axes;
               Tools.T_em_leaf1_tuples :=
                 merge_sort (fun a b => Is_true (Tools.em_leb a b))
                            (zip em (seq 0 (length em)));
               Tools.T_stop_axis_tuples := [] |};
    Some (Tools.fill_nan
            (merge_sort (fun a b => Is_true (Tools.stop_leb a b))
                        (Tools.T_stop_axis_tuples st)).*1
            ((fun t => Some t.2)
               <$> merge_sort (fun a b => Is_true (Tools.stop_leb a b))
                              (Tools.T_stop_axis_tuples st))
            (length em)).
Proof.
  intros [Hmin Hmm] [HTB HTF] Hfit. unfold Tools.decide_time_of_death.
  rewrite (proj2 (Z.leb_le 0 max_axes)) by lia.
  rewrite (proj2 (Z.leb_le 0 min_axes)) by lia.
  rewrite (proj2 (Qle_bool_iff 0 TB)) by done.
  rewrite (proj2 (Qle_bool_iff 0 TF)) by lra.
  rewrite (proj2 (Qle_bool_iff TB TF)) by done.
  rewrite (proj2 (Z.leb_le min_axes max_axes)) by lia.
  cbn [andb negb]. rewrite Hfit. reflexivity.
Qed.

(** The walk depends on the line through its truncated values at the
    steps only. *)
Lemma walk_ext coefs coefs' tts st :
  (forall t, t ∈ tts ->
     Py.int (Tools.polyval coefs (inject_Z t))
     = Py.int (Tools.polyval coefs' (inject_Z t))) ->
  Tools.walk coefs tts st = Tools.walk coefs' tts st.
Proof.
  revert st. induction tts as [|TT tts IH]; intros st Hv; [done|].
  cbn [Tools.walk]. cbv zeta. rewrite (Hv TT) by apply list_elem_of_here.
  destruct (Tools.delete_axes _ TT st) as [st1|]; [simpl|done].
  destruct (decide (Tools.remaining_axes_number st1 = 0)); [done|].
  apply IH. intros t Ht. apply Hv. by apply list_elem_of_further.
Qed.

Lemma int_between (x : Q) (k : Z) :
  0 <= k -> (inject_Z k <= x < inject_Z k + 1)%Q -> Py.int x = k.
Proof.
  intros Hk [Hlo Hhi].
  assert (Hx : (0 <= x)%Q).
  { apply Qle_trans with (inject_Z k); [|done].
    change 0%Q with (inject_Z 0). by rewrite <- Zle_Qle. }
  rewrite (int_nonneg_floor x Hx).
  pose proof (Qfloor_le x) as Hfl. pose proof (Qlt_floor x) as Hfu.
  rewrite inject_Z_plus in Hfu. change (inject_Z 1) with 1%Q in Hfu.
  assert (inject_Z (Qfloor x) < inject_Z k + 1)%Q as H1 by lra.
  assert (inject_Z k < inject_Z (Qfloor x) + 1)%Q as H2 by lra.
  change 1%Q with (inject_Z 1) in H1, H2.
  rewrite <- inject_Z_plus, <- Zlt_Qlt in H1, H2. lia.
Qed.

(** C6, amended: every death time assigned by [decide_time_of_death] is a
    whole thermal time [t] with [int(TT_bolting) <= t <= int(TT_flowering)],
    hence [t <= TT_flowering]; and [TT_bolting <= t] when [TT_bolting] is a
    whole number, or when the truncated value of the fitted line at the
    first step [int(TT_bolting)] is at least [max_axes_number], so that no
    axis dies at that step. *)
Theorem death_times_in_window (polyfit : Q -> Q -> Q -> Q -> option (list Q))
    (max_axes min_axes : Z) (em : list Q)
    (TB TF : Q) (l : list (option Z)) (t : Z) :
  Tools.decide_time_of_death polyfit max_axes min_axes em TB TF = Some l ->
  Some t ∈ l ->
  Py.int TB <= t <= Py.int TF
  /\ (inject_Z t <= TF)%Q
  /\ ((inject_Z (Py.int TB) == TB)%Q -> (TB <= inject_Z t)%Q)
  /\ ((forall coefs,
         polyfit TF TB (inject_Z min_axes) (inject_Z max_axes) = Some coefs ->
         max_axes <= Py.int (Tools.polyval coefs (inject_Z (Py.int TB)))) ->
      (TB <= inject_Z t)%Q).
Proof.
  intros (coefs & st & [_ [HTB HTF]] & Efit & Ewalk & ->)
    %decide_time_of_death_inv Hin%fill_nan_Some.
  assert (HTF0 : (0 <= TF)%Q) by lra.
  apply list_elem_of_fmap in Hin as ([r t'] & [= <-] & Hin).
  rewrite merge_sort_Permutation in Hin.
  apply walk_stops in Ewalk as [_ Hstops].
  apply Hstops in Hin as [Hin|[Hrange Hbelow]]; [by apply elem_of_nil in Hin|].
  cbn [Tools.remaining_axes_number] in Hbelow.
  apply elem_of_range in Hrange.
  destruct (int_bounds TF HTF0) as [HTF' _].
  destruct (int_bounds TB HTB) as [_ HTB'].
  split; [lia|]. split.
  { apply Qle_trans with (inject_Z (Py.int TF)); [|exact HTF'].
    rewrite <- Zle_Qle. lia. }
  split.
  - intros Hint. rewrite <- Hint, <- Zle_Qle. lia.
  - intros Hfirst. specialize (Hfirst coefs Efit).
    assert (Py.int TB + 1 <= t) as Hnext.
    { destruct (decide (t = Py.int TB)) as [->|]; lia. }
    apply Qlt_le_weak, Qlt_le_trans with (inject_Z (Py.int TB) + 1)%Q;
      [done|].
    change 1%Q with (inject_Z 1). by rewrite <- inject_Z_plus, <- Zle_Qle.
Qed.

Lemma death_times_in_window_witness :
  exists l,
    Tools.decide_time_of_death Tools.polyfit1 10 2 (replicate 10 0%Q) 100 110
    = Some l
    /\ Some 109 ∈ l
    /\ (100 <= inject_Z 109 <= 110)%Q.
Proof.
  eexists. split; [by vm_compute|].
  assert (Hin : Some 109 ∈ [None; None; Some 109; Some 108; Some 107; Some 106;
                            Some 104; Some 103; Some 102; Some 101]).
  { do 2 apply list_elem_of_further. apply list_elem_of_here. }
  split; [exact Hin|].
  destruct (death_times_in_window Tools.polyfit1 10 2 (replicate 10 0%Q)
              100 110 _ 109 ltac:(by vm_compute) Hin) as (_ & Hhi & Hlo & _).
  split; [apply Hlo; by vm_compute|exact Hhi].
Defined.

(** C6, as stated, fails: with bolting and flowering both at 100.5 the only
    step of the walk is 100, the least-squares line for the two points of
    equal abscissa has the value 5.98 there, far from a whole number and
    below the ten axes alive, and five axes get the death time 100, before
    the bolting date. *)
Lemma death_before_bolting :
  exists l t,
    Tools.decide_time_of_death Tools.polyfit1 10 2 (replicate 10 0%Q)
      (201 # 2) (201 # 2)
    = Some l
    /\ Some t ∈ l
    /\ ~ ((201 # 2) <= inject_Z t <= (201 # 2))%Q.
Proof.
  exists [None; None; None; None; None;
          Some 100; Some 100; Some 100; Some 100; Some 100], 100.
  split; [by vm_compute|]. split.
  - do 5 apply list_elem_of_further. apply list_elem_of_here.
  - intros [Hlo _]. vm_compute in Hlo. by apply Hlo.
Qed.

(** C7 fails on the code: the exact line through (110, 2) and (100, 10) is
    [90 - 0.8 tt], a whole number at the steps 100, 105 and 110. With a
    fitted line below it by less than 1/5 at the steps 100 to 110, as a
    least-squares fit in double precision returns, [int] gives 9, 5 and 1
    there in place of 10, 6 and 2: an axis dies at the first step and a
    ninth at the last, the result has 9 death times and 1 entry left
    unresolved, and one axis is left where [min_axes_number] is 2. *)
Theorem death_times_example (polyfit : Q -> Q -> Q -> Q -> option (list Q))
    (a b : Q) :
  polyfit 110%Q 100%Q (inject_Z 2) (inject_Z 10) = Some [a; b] ->
  (forall tt, 100 <= tt <= 110 ->
     (90 - (4 # 5) * inject_Z tt - (1 # 5) < a * inject_Z tt + b
      /\ a * inject_Z tt + b < 90 - (4 # 5) * inject_Z tt)%Q) ->
  exists l,
    Tools.decide_time_of_death polyfit 10 2 (replicate 10 0%Q) 100 110
    = Some l
    /\ l = [None; Some 110; Some 109; Some 108; Some 107; Some 105;
            Some 104; Some 103; Some 102; Some 100]
    /\ length l = 10%nat
    /\ length (filter is_Some l) = 9%nat
    /\ length (filter (fun d => d = None) l) = 1%nat.
Proof.
  intros Hfit Hline. eexists. split; [|by vm_compute].
  rewrite (decide_time_of_death_eq polyfit 10 2 _ 100 110 [a; b]);
    [|lia|by vm_compute|exact Hfit].
  rewrite (walk_ext [a; b] [- (4 # 5); 899 # 10]%Q); [by vm_compute|].
  intros t Ht%elem_of_range.
  assert (Hk : 0 <= Py.int (Tools.polyval [- (4 # 5); 899 # 10]%Q
                              (inject_Z t))
               /\ (inject_Z (Py.int (Tools.polyval [- (4 # 5); 899 # 10]%Q
                                       (inject_Z t)))
                   <= 90 - (4 # 5) * inject_Z t - (1 # 5))%Q
               /\ (90 - (4 # 5) * inject_Z t
                   <= inject_Z (Py.int (Tools.polyval [- (4 # 5); 899 # 10]%Q
                                          (inject_Z t))) + 1)%Q).
  { assert (Hcases : t = 100 \/ t = 101 \/ t = 102 \/ t = 103 \/ t = 104
                     \/ t = 105 \/ t = 106 \/ t = 107 \/ t = 108 \/ t = 109
                     \/ t = 110) by (change (Py.int 100) with 100 in Ht;
                                     change (Py.int 110) with 110 in Ht; lia).
    repeat (destruct Hcases as [->|Hcases]; [by vm_compute|]).
    subst t. by vm_compute. }
  destruct Hk as (Hk0 & Hklo & Hkhi).
  set (K := Py.int (Tools.polyval [- (4 # 5); 899 # 10]%Q (inject_Z t))) in *.
  apply int_between; [done|].
  destruct (Hline t) as [Hlo Hhi].
  { change (Py.int 100) with 100 in Ht. change (Py.int 110) with 110 in Ht.
    lia. }
  cbn [Tools.polyval foldl].
  assert (Heq : ((0 * inject_Z t + a) * inject_Z t + b
                 == a * inject_Z t + b)%Q) by ring.
  rewrite Heq.
  set (X := (a * inject_Z t)%Q) in *.
  set (E := ((4 # 5) * inject_Z t)%Q) in *.
  split; lra.
Qed.

Lemma death_times_example_witness :
  exists l,
    Tools.decide_time_of_death
      (fun _ _ _ _ => Some [- (8000000000000043 # 10000000000000000);
                            9000000000000041 # 100000000000000]%Q)
      10 2 (replicate 10 0%Q) 100 110
    = Some l
    /\ l = [None; Some 110; Some 109; Some 108; Some 107; Some 105;
            Some 104; Some 103; Some 102; Some 100]
    /\ length l = 10%nat
    /\ length (filter is_Some l) = 9%nat
    /\ length (filter (fun d => d = None) l) = 1%nat.
Proof.
  apply (death_times_example
           (fun _ _ _ _ => Some [- (8000000000000043 # 10000000000000000);
                                 9000000000000041 # 100000000000000]%Q)
           (- (8000000000000043 # 10000000000000000))%Q
           (9000000000000041 # 100000000000000)%Q).
  - reflexivity.
  - intros tt Htt.
    assert (Hcases : tt = 100 \/ tt = 101 \/ tt = 102 \/ tt = 103 \/ tt = 104
                     \/ tt = 105 \/ tt = 106 \/ tt = 107 \/ tt = 108
                     \/ tt = 109 \/ tt = 110) by lia.
    repeat (destruct Hcases as [->|Hcases]; [by vm_compute|]).
    subst tt. by vm_compute.
Defined.

(** ** plant_list *)

Section PlantListFacts.
Variable choice : nat -> nat.
Implicit Types (plantlist : list (gmap string (Z * Z))).

Lemma choose_plant_spec name plantlist s i plant :
  Ext._choose_plant choice name plantlist s = Some (i, plant) ->
  plantlist !! i = Some plant /\ Ext.eligible name plant = true.
Proof.
  unfold Ext._choose_plant. intros Hc%list_elem_of_lookup_2.
  apply list_elem_of_In, filter_In in Hc as [Hin Hel].
  split; [|exact Hel].
  apply list_elem_of_In, list_elem_of_lookup in Hin as [j Hj].
  apply lookup_zip_with_Some in Hj as (i' & p' & [= <- <-] & Hi & Hp).
  apply lookup_seq in Hi as [-> _]. exact Hp.
Qed.

Lemma parents_present_insert name data plant :
  parents_present plant -> Ext.eligible name plant = true ->
  parents_present (<[name := data]> plant).
Proof.
  intros Hinv Hel name' Hin. unfold Ext.eligible in Hel.
  apply andb_true_iff in Hel as [_ Hpar].
  apply orb_true_iff in Hpar.
  assert (Hstep : forall n, Ext._parent n = EmptyString
                            \/ is_Some (plant !! Ext._parent n) ->
                  Ext._parent n = EmptyString
                  \/ is_Some (<[name := data]> plant !! Ext._parent n)).
  { intros n [?|Hs]; [by left|right].
    rewrite lookup_insert_is_Some. destruct (decide (name = Ext._parent n)); auto. }
  apply Hstep. apply lookup_insert_is_Some in Hin as [<-|[_ Hin]].
  - destruct Hpar as [Hp|Hp]; apply bool_decide_eq_true in Hp; auto.
  - by apply Hinv.
Qed.

Lemma update_invariant plantlist s a plantlist' s' :
  Forall parents_present plantlist ->
  Ext._update choice (plantlist, s) a = Some (plantlist', s') ->
  Forall parents_present plantlist'.
Proof.
  intros Hinv. unfold Ext._update.
  destruct (Ext._choose_plant _ _ _ _) as [[i plant]|] eqn:E; [simpl|done].
  intros [= <- <-].
  apply choose_plant_spec in E as [Hi Hel].
  apply Forall_insert; [exact Hinv|].
  apply parents_present_insert; [|exact Hel].
  by eapply (Forall_lookup_1 _ _ _ _ Hinv).
Qed.

Lemma reduce_update_invariant axis plantlist s plantlist' s' :
  Forall parents_present plantlist ->
  Ext.reduce_update choice axis (plantlist, s) = Some (plantlist', s') ->
  Forall parents_present plantlist'.
Proof.
  revert plantlist s. induction axis as [|a axis IH]; intros plantlist s Hinv.
  - by intros [= <- <-].
  - cbn [Ext.reduce_update].
    destruct (Ext._update _ _ _) as [[pl1 s1]|] eqn:E; [simpl|done].
    apply IH. by eapply update_invariant.
Qed.

End PlantListFacts.

(** C8: whatever the random choices, when [plant_list] returns, in each
    plant the parent of every axis is the empty name or the name of an
    axis of the same plant. *)
Theorem plant_list_parents_present (choice : nat -> nat) (axis : list Ext.axe)
    (nplants : Z) (s : nat) (plants : list (gmap string (Z * Z))) :
  Ext.plant_list choice axis nplants s = Some plants ->
  Forall parents_present plants.
Proof.
  unfold Ext.plant_list.
  destruct (Ext.reduce_update _ _ _) as [[pl s']|] eqn:E; [simpl|done].
  intros [= <-]. eapply reduce_update_invariant; [|exact E].
  apply Forall_replicate. intros name [v Hv]. by rewrite lookup_empty in Hv.
Qed.

Lemma plant_list_parents_present_witness :
  exists plants,
    Ext.plant_list (fun _ => 1%nat)
      [(1, 11, "MS"); (1, 11, "MS"); (3, 9, "MS.1"); (3, 9, "MS.1")]%string 2 0
    = Some plants
    /\ Forall parents_present plants.
Proof.
  eexists. split; [by vm_compute|].
  apply (plant_list_parents_present (fun _ => 1%nat)
           [(1, 11, "MS"); (1, 11, "MS"); (3, 9, "MS.1"); (3, 9, "MS.1")]%string
           2 0%nat).
  by vm_compute.
Defined.

(** ** fit_poly *)

Section FitPolyFacts.
Context `{Tools.Numerics}.

Lemma np_div_zero (c : Q) : Tools.is_finite (Tools.np_sqrt (Tools.np_div c 0)) = false.
Proof.
  unfold Tools.np_div. rewrite decide_True by done.
  by destruct (c ?= 0)%Q.
Qed.
End FitPolyFacts.

(** C9, amended: with exactly one sample [fit_poly] raises nothing of its
    own; whenever [leastsq] returns, [fit_poly] returns the fitted
    coefficient together with an RMSE that is not finite, the division by
    the zero degrees of freedom giving an infinity or a NaN. *)
Theorem fit_poly_one_sample `{Tools.Numerics} (x y fixed_coefs : list Q)
    (a0 p : Q) (fvec : list Q) :
  length x = 1%nat ->
  Tools.leastsq (Tools.residuals fixed_coefs y x) a0 = Some (p, fvec) ->
  exists rmse,
    Tools.fit_poly x y fixed_coefs a0 = Some (p, rmse)
    /\ Tools.is_finite rmse = false.
Proof.
  intros Hlen Hfit. unfold Tools.fit_poly. rewrite Hfit, Hlen. simpl.
  eexists. split; [reflexivity|]. apply np_div_zero.
Qed.

Lemma fit_poly_one_sample_witness :
  exists rmse,
    @Tools.fit_poly Tools.ideal_numerics [1%Q] [8%Q] [5%Q] 1%Q
    = Some ((3 # 1)%Q, rmse)
    /\ Tools.is_finite rmse = false.
Proof.
  apply (@fit_poly_one_sample Tools.ideal_numerics [1%Q] [8%Q] [5%Q] 1%Q
           (3 # 1)%Q [0 # 1]%Q).
  - reflexivity.
  - by vm_compute.
Defined.

(** C9, as stated, fails: with the single sample [(0, 8)] and the fixed
    coefficient 5 the residual is 3 whatever the parameter, and [fit_poly]
    returns the starting estimate and an infinite RMSE. *)
Lemma one_sample_fit_returns :
  @Tools.fit_poly Tools.ideal_numerics [0%Q] [8%Q] [5%Q] 1%Q
  = Some (1%Q, Tools.PosInf).
Proof. by vm_compute. Qed.

(** ** cardinalities: errors, quotas and order *)

Section CardinalitiesMore.
Context {K : Type} `{EqDecision K}.
Implicit Types (proba : list (K * Q)) (card : list (K * Z)) (n : Z).

Lemma int_mono_nonneg (x y : Q) : (0 <= x)%Q -> (x <= y)%Q -> Py.int x <= Py.int y.
Proof.
  intros Hx Hxy. rewrite (int_nonneg_floor x Hx).
  rewrite (int_nonneg_floor y) by lra. by apply Qfloor_resp_le.
Qed.

Lemma assoc_unique {V} (l : list (K * V)) k v1 v2 :
  NoDup l.*1 -> (k, v1) ∈ l -> (k, v2) ∈ l -> v1 = v2.
Proof.
  induction l as [|[k0 v0] l IH]; [by intros _ ?%elem_of_nil|].
  rewrite fmap_cons. intros [Hk0 Hnd]%NoDup_cons.
  intros [[= -> ->]|H1]%elem_of_cons [[= ->]|H2]%elem_of_cons; [done| | |by apply IH].
  - exfalso. apply Hk0. by apply (list_elem_of_fmap_2' fst _ (k0, v2)).
  - exfalso. subst. apply Hk0. by apply (list_elem_of_fmap_2' fst _ (k0, v1)).
Qed.

Lemma cardinalities_Some proba n res :
  NoDup proba.*1 ->
  Ext.cardinalities proba n = Some res ->
  (Z.to_nat (Ext.missing proba n) <= length proba)%nat
  /\ res = filter (fun kc : K * Z => 0 < snd kc)
             (plus_one_on (receivers proba n).*1 (Ext.floors proba n)).
Proof.
  intros Hnd. unfold Ext.cardinalities.
  destruct (Ext.allocate proba n) as [card|] eqn:E; [simpl|done].
  intros [= <-]. apply allocate_Some in E as [Hm ->]; done.
Qed.

(** The entry of a category in the counts before the final comprehension. *)
Lemma plus_one_on_floors_elem proba n keys k c :
  NoDup proba.*1 ->
  (k, c) ∈ plus_one_on keys (Ext.floors proba n) <->
  exists v, (k, v) ∈ proba
            /\ c = Py.int (v * inject_Z n)
                   + (if bool_decide (k ∈ keys) then 1 else 0).
Proof.
  intros Hnd. unfold plus_one_on, Ext.floors.
  rewrite <- list_fmap_compose. rewrite list_elem_of_fmap. split.
  - intros ([k0 v] & [= -> ->] & Hin). by exists v.
  - intros (v & Hin & ->). by exists (k, v).
Qed.

Lemma allocated_sum proba n :
  NoDup proba.*1 ->
  Forall (fun kv => (0 <= snd kv)%Q) proba -> 0 <= n ->
  (Z.to_nat (Ext.missing proba n) <= length proba)%nat ->
  Py.sum (filter (fun kc : K * Z => 0 < snd kc)
            (plus_one_on (receivers proba n).*1 (Ext.floors proba n))).*2
  = Z.max n (Py.sum (Ext.floors proba n).*2).
Proof.
  intros Hnd Hpos Hn Hm.
  pose proof (allocate_in_range proba n Hnd Hm) as Halloc.
  unfold Ext.allocate in Halloc.
  destruct (Ext.new_keys _ _) as [new|] eqn:Enew; [simpl in Halloc|done].
  destruct (incr_all_sum _ _ _ Halloc) as [Hs Hnn].
  specialize (Hnn (floors_nonneg proba n Hpos Hn)).
  apply new_keys_Some in Enew as [_ Enew].
  rewrite sum_filter_positive by done. unfold receivers. rewrite Hs.
  rewrite Enew, length_fmap, length_take.
  rewrite (Permutation_length (sorted_desc_perm proba)).
  unfold Ext.missing in *. lia.
Qed.

(** X1. On a dict with distinct keys, [cardinalities] raises ([IndexError]
    on [sorted_p[i]]) exactly when the number of units left after the
    floors exceeds the number of categories. *)
Theorem cardinalities_raises_iff proba n :
  NoDup proba.*1 ->
  Ext.cardinalities proba n = None
  <-> (length proba < Z.to_nat (Ext.missing proba n))%nat.
Proof.
  intros Hnd. split.
  - intros Hnone.
    destruct (decide (length proba < Z.to_nat (Ext.missing proba n))%nat)
      as [|Hge]; [done|].
    unfold Ext.cardinalities in Hnone.
    rewrite allocate_in_range in Hnone by (done || lia). done.
  - intros Hlt. destruct (Ext.cardinalities proba n) as [res|] eqn:E; [|done].
    apply cardinalities_Some in E as [Hm _]; [lia|done].
Qed.

(** X2. Every count that [cardinalities] returns is positive and is the
    floor [int(v * n)] of its category or that floor plus one; a category
    missing from the result has a floor of zero or less. *)
Theorem cardinalities_quota proba n res :
  NoDup proba.*1 ->
  Ext.cardinalities proba n = Some res ->
  (forall k c, (k, c) ∈ res ->
     exists v, (k, v) ∈ proba /\ 0 < c
               /\ Py.int (v * inject_Z n) <= c <= Py.int (v * inject_Z n) + 1)
  /\ (forall k v, (k, v) ∈ proba -> k ∉ res.*1 ->
        Py.int (v * inject_Z n) <= 0).
Proof.
  intros Hnd [_ ->]%cardinalities_Some; [|done]. split.
  - intros k c [Hc Hin]%list_elem_of_filter. cbn [snd] in Hc.
    apply plus_one_on_floors_elem in Hin as (v & Hv & ->); [|done].
    exists v. split; [done|]. split; [done|]. case_bool_decide; lia.
  - intros k v Hin Hout.
    set (c := Py.int (v * inject_Z n)
              + (if bool_decide (k ∈ (receivers proba n).*1) then 1 else 0)).
    destruct (decide (0 < c)) as [Hc|Hc].
    + exfalso. apply Hout.
      apply (list_elem_of_fmap_2' fst _ (k, c)); [|done].
      apply list_elem_of_filter. split; [done|].
      apply plus_one_on_floors_elem; [done|]. by exists v.
    + unfold c in Hc. case_bool_decide; lia.
Qed.

(** X3. [cardinalities] keeps the order of the proportions: a category of
    strictly larger proportion than a category of the result is in the
    result too, with a count at least as large. *)
Theorem cardinalities_monotone proba n res k v k' v' c' :
  NoDup proba.*1 ->
  Forall (fun kv => (0 <= snd kv)%Q) proba -> 0 <= n ->
  Ext.cardinalities proba n = Some res ->
  (k, v) ∈ proba -> (k', v') ∈ proba -> (v' < v)%Q ->
  (k', c') ∈ res ->
  exists c, (k, c) ∈ res /\ c' <= c.
Proof.
  intros Hnd Hpos Hn [_ ->]%cardinalities_Some Hk Hk' Hlt; [|done].
  intros [Hc' Hin']%list_elem_of_filter. cbn [snd] in Hc'.
  apply plus_one_on_floors_elem in Hin' as (v0 & Hv0 & ->); [|done].
  assert (v0 = v') as ->.
  { by eapply (assoc_unique proba k'). }
  assert (Hv' : (0 <= v')%Q).
  { rewrite Forall_forall in Hpos. apply (Hpos _ Hk'). }
  assert (Hfl : Py.int (v' * inject_Z n) <= Py.int (v * inject_Z n)).
  { apply int_mono_nonneg; [by apply product_nonneg|].
    apply Qmult_le_compat_r; [lra|].
    change 0%Q with (inject_Z 0). by rewrite <- Zle_Qle. }
  assert (Hrec : k' ∈ (receivers proba n).*1 -> k ∈ (receivers proba n).*1).
  { intros (kv' & -> & Hkv')%list_elem_of_fmap.
    assert (Hs : (k, v) ∈ receivers proba n ++ others proba n).
    { unfold receivers, others. rewrite take_drop.
      by rewrite sorted_desc_perm. }
    apply elem_of_app in Hs as [Hs|Hs].
    - by apply (list_elem_of_fmap_2' fst _ (k, v)).
    - exfalso.
      pose proof (sorted_desc_sorted proba) as Hsorted.
      rewrite <- (take_drop (Z.to_nat (Ext.missing proba n))) in Hsorted.
      pose proof (StronglySorted_app_1_elem_of _ _ _ _ _ Hsorted Hkv' Hs)
        as Hle. cbn [snd] in Hle.
      assert (kv' ∈ proba) as Hkv'p.
      { rewrite <- (sorted_desc_perm proba).
        eapply elem_of_sublist; [exact Hkv'|apply sublist_take]. }
      destruct kv' as [k0 v0]. cbn [fst snd] in *.
      assert (v0 = v') as -> by (by eapply (assoc_unique proba k0)).
      lra. }
  eexists. split.
  - apply list_elem_of_filter. split; [|apply plus_one_on_floors_elem; [done|]; by exists v].
    cbn [snd]. repeat case_bool_decide; try lia. exfalso; auto.
  - repeat case_bool_decide; try lia. exfalso; auto.
Qed.

(** X4. Without the assumption that the proportions add up to one, the
    counts of [cardinalities] add up to [n], or to the sum of the floors
    when that sum is larger than [n]. *)
Theorem cardinalities_result_sum proba n res :
  NoDup proba.*1 ->
  Forall (fun kv => (0 <= snd kv)%Q) proba -> 0 <= n ->
  Ext.cardinalities proba n = Some res ->
  Py.sum res.*2 = Z.max n (Py.sum (Ext.floors proba n).*2).
Proof.
  intros Hnd Hpos Hn Hres.
  destruct (cardinalities_Some _ _ _ Hnd Hres) as [Hm ->].
  by apply allocated_sum.
Qed.

End CardinalitiesMore.

Lemma cardinalities_raises_iff_witness :
  Ext.cardinalities [(1, (1 # 4)%Q)] 8 = None
  <-> (length [(1, (1 # 4)%Q)] < Z.to_nat (Ext.missing [(1, (1 # 4)%Q)] 8))%nat.
Proof.
  apply (cardinalities_raises_iff [(1, (1 # 4)%Q)] 8). compute_done.
Defined.

Lemma cardinalities_quota_witness :
  (forall k c, (k, c) ∈ [(1, 2)] ->
     exists v, (k, v) ∈ [(1, (5 # 8)%Q); (2, (3 # 8)%Q)] /\ 0 < c
               /\ Py.int (v * inject_Z 2) <= c <= Py.int (v * inject_Z 2) + 1)
  /\ (forall k v, (k, v) ∈ [(1, (5 # 8)%Q); (2, (3 # 8)%Q)] ->
        k ∉ [(1, 2)].*1 -> Py.int (v * inject_Z 2) <= 0).
Proof.
  apply (cardinalities_quota [(1, (5 # 8)%Q); (2, (3 # 8)%Q)] 2 [(1, 2)]).
  - compute_done.
  - by vm_compute.
Defined.

Lemma cardinalities_monotone_witness :
  exists c, (1, c) ∈ [(1, 5); (2, 3)] /\ 3 <= c.
Proof.
  apply (cardinalities_monotone [(1, (5 # 8)%Q); (2, (3 # 8)%Q)] 8
           [(1, 5); (2, 3)] 1 (5 # 8)%Q 2 (3 # 8)%Q 3).
  - compute_done.
  - repeat constructor; by vm_compute.
  - lia.
  - by vm_compute.
  - apply list_elem_of_here.
  - apply list_elem_of_further, list_elem_of_here.
  - by vm_compute.
  - apply list_elem_of_further, list_elem_of_here.
Defined.

Lemma cardinalities_result_sum_witness :
  Py.sum [(1, 3); (2, 2)].*2
  = Z.max 4 (Py.sum (Ext.floors [(1, (3 # 4)%Q); (2, (1 # 2)%Q)] 4).*2).
Proof.
  apply (cardinalities_result_sum [(1, (3 # 4)%Q); (2, (1 # 2)%Q)] 4
           [(1, 3); (2, 2)]).
  - compute_done.
  - repeat constructor; by vm_compute.
  - lia.
  - by vm_compute.
Defined.

(** ** modalities and cardinalities together *)

Section Composition.

Lemma cardinalities_total_aux {K} `{EqDecision K} (proba : list (K * Q)) n :
  NoDup proba.*1 ->
  Forall (fun kv => (0 <= snd kv)%Q) proba ->
  (Py.fsum proba.*2 == 1)%Q -> 0 <= n ->
  exists res,
    Ext.cardinalities proba n = Some res
    /\ Py.sum res.*2 = n
    /\ Forall (fun kc => 0 < snd kc) res
    /\ res.*1 ⊆ proba.*1.
Proof.
  intros Hnd Hpos Hsum Hn.
  pose proof (missing_range proba n Hpos Hsum Hn) as Hm.
  assert (Hres : Ext.cardinalities proba n
                 = Some (filter (fun kc : K * Z => 0 < snd kc)
                           (plus_one_on (receivers proba n).*1
                                        (Ext.floors proba n)))).
  { unfold Ext.cardinalities. rewrite allocate_in_range by (done || lia). done. }
  eexists. split; [exact Hres|]. split_and!.
  - rewrite allocated_sum by (done || lia).
    unfold Ext.missing in Hm. lia.
  - apply Forall_forall. by intros x [? _]%list_elem_of_filter.
  - intros k (kc & -> & [_ Hin]%list_elem_of_filter)%list_elem_of_fmap.
    rewrite <- (floors_keys proba n),
            <- (plus_one_on_keys (receivers proba n).*1 (Ext.floors proba n)).
    by apply list_elem_of_fmap_2.
Qed.

Lemma modalities_distribution (nff : Q) :
  (0 <= nff)%Q ->
  NoDup (Ext.modalities nff).*1
  /\ Forall (fun kv => (0 <= snd kv)%Q) (Ext.modalities nff)
  /\ (Py.fsum (Ext.modalities nff).*2 == 1)%Q.
Proof.
  intros Hx. destruct (int_bounds nff Hx) as [Hlo Hhi].
  unfold Ext.modalities. cbn [fmap list_fmap fst snd Py.fsum foldr].
  split_and!.
  - apply NoDup_cons. split; [|apply NoDup_singleton].
    intros ?%list_elem_of_singleton. lia.
  - repeat constructor; cbn [snd]; lra.
  - ring.
Qed.

(** X5. [cardinalities(modalities(nff), n)], the composition that
    [axis_list] makes: for [nff >= 0] and a whole [n >= 0] it returns
    positive counts for the floor of [nff] and its successor only, and
    they add up to [n]. *)
Theorem modalities_cardinalities (nff : Q) (n : Z) :
  (0 <= nff)%Q -> 0 <= n ->
  exists res,
    Ext.cardinalities (Ext.modalities nff) n = Some res
    /\ Py.sum res.*2 = n
    /\ Forall (fun kc => 0 < kc.2
                         /\ (kc.1 = Qfloor nff \/ kc.1 = Qfloor nff + 1)) res.
Proof.
  intros Hx Hn.
  destruct (modalities_distribution nff Hx) as (Hnd & Hpos & Hsum).
  destruct (cardinalities_total_aux _ n Hnd Hpos Hsum Hn)
    as (res & Hres & Htot & Hp & Hkeys).
  exists res. split; [done|]. split; [done|].
  apply Forall_forall. intros kc Hkc.
  rewrite Forall_forall in Hp. split; [by apply Hp|].
  assert (kc.1 ∈ (Ext.modalities nff).*1) as Hin.
  { apply Hkeys. by apply list_elem_of_fmap_2. }
  unfold Ext.modalities in Hin. cbn [fmap list_fmap fst] in Hin.
  rewrite (int_nonneg_floor nff Hx) in Hin.
  apply elem_of_cons in Hin as [?|Hin]; [by left|].
  apply list_elem_of_singleton in Hin. by right.
Qed.

Lemma int_negative_ceiling (x : Q) : (x <= 0)%Q -> Py.int x = Qceiling x.
Proof.
  destruct x as [n d]. unfold Qle, Py.int, Qceiling, Qfloor, Qopp.
  cbn [Qnum Qden]. intros Hn.
  rewrite <- (Z.opp_involutive n) at 1. rewrite Z.quot_opp_l by lia.
  f_equal. apply Z.quot_div_nonneg; lia.
Qed.

(** X6. For a negative [nff] that is not whole, [int] rounds towards zero
    and [modalities] returns the keys [ceil(nff)] and [ceil(nff) + 1] with
    a first value above one and a second value below zero. *)
Theorem modalities_negative (nff : Q) :
  (nff < 0)%Q -> ~ (inject_Z (Qceiling nff) == nff)%Q ->
  exists p : Q,
    Ext.modalities nff = [(Qceiling nff, p); (Qceiling nff + 1, (1 - p)%Q)]
    /\ (1 < p)%Q /\ (1 - p < 0)%Q.
Proof.
  intros Hneg Hfrac. unfold Ext.modalities. cbv zeta.
  rewrite (int_negative_ceiling nff) by lra.
  eexists. split; [reflexivity|].
  pose proof (Qle_ceiling nff) as Hle.
  assert (nff < inject_Z (Qceiling nff))%Q.
  { apply Qle_lteq in Hle as [?|Heq]; [done|]. exfalso. apply Hfrac. by symmetry. }
  split; lra.
Qed.


End Composition.

Lemma modalities_cardinalities_witness :
  exists res,
    Ext.cardinalities (Ext.modalities (7 # 2)) 4 = Some res
    /\ Py.sum res.*2 = 4
    /\ Forall (fun kc => 0 < kc.2
                         /\ (kc.1 = Qfloor (7 # 2) \/ kc.1 = Qfloor (7 # 2) + 1))
              res.
Proof.
  apply (modalities_cardinalities (7 # 2) 4).
  - by vm_compute.
  - lia.
Defined.

Lemma modalities_negative_witness :
  exists p : Q,
    Ext.modalities (- (1 # 2))
    = [(Qceiling (- (1 # 2)), p); (Qceiling (- (1 # 2)) + 1, (1 - p)%Q)]
    /\ (1 < p)%Q /\ (1 - p < 0)%Q.
Proof.
  apply (modalities_negative (- (1 # 2))).
  - by vm_compute.
  - by vm_compute.
Defined.

(** ** _parent and plant_list: what the plants hold *)

Section ParentFacts.

Lemma split_dot_nonempty (s : string) : Ext.split_dot s <> [].
Proof.
  destruct s as [|c r]; [done|]. cbn [Ext.split_dot].
  destruct (Ascii.eqb c "."); [done|]. by destruct (Ext.split_dot r).
Qed.

Lemma split_dot_free (c : string) : dot_free c = true -> Ext.split_dot c = [c].
Proof.
  induction c as [|a r IH]; [done|]. cbn [dot_free Ext.split_dot].
  intros [Ha Hr]%andb_true_iff. apply negb_true_iff in Ha. rewrite Ha.
  by rewrite (IH Hr).
Qed.

Lemma split_dot_snoc (p c : string) :
  dot_free c = true ->
  Ext.split_dot (p +:+ String "."%char c) = Ext.split_dot p ++ [c].
Proof.
  intros Hc. unfold String.app. induction p as [|a r IH].
  - cbn [String.append Ext.split_dot]. rewrite Ascii.eqb_refl.
    by rewrite (split_dot_free c Hc).
  - cbn [String.append Ext.split_dot]. rewrite IH.
    destruct (Ascii.eqb a "."); [done|].
    pose proof (split_dot_nonempty r). by destruct (Ext.split_dot r).
Qed.

Lemma concat_split_dot (p : string) :
  String.concat "." (Ext.split_dot p) = p.
Proof.
  induction p as [|a r IH]; [done|]. cbn [Ext.split_dot].
  pose proof (split_dot_nonempty r) as Hne.
  destruct (Ascii.eqb a ".") eqn:E.
  - apply Ascii.eqb_eq in E as ->.
    destruct (Ext.split_dot r) as [|h t]; [done|].
    cbn [String.concat]. cbn [String.concat] in IH. by rewrite IH.
  - destruct (Ext.split_dot r) as [|h t]; [done|].
    destruct t as [|h' t].
    + cbn [String.concat] in *. by rewrite IH.
    + cbn [String.concat] in *. rewrite <- IH. reflexivity.
Qed.

(** X7. [_parent] removes the last dot-separated component: the parent of
    [p + '.' + c] is [p] when [c] has no dot, and the parent of a name
    without a dot is the empty string. *)
Theorem parent_of_child (p c : string) :
  dot_free c = true ->
  Ext._parent (p +:+ String "."%char c) = p /\ Ext._parent c = EmptyString.
Proof.
  intros Hc. unfold Ext._parent. split.
  - rewrite (split_dot_snoc p c Hc), removelast_last. apply concat_split_dot.
  - by rewrite (split_dot_free c Hc).
Qed.

End ParentFacts.

Lemma parent_of_child_witness :
  dot_free "2" = true
  /\ Ext._parent ("T1.0" +:+ String "."%char "2") = "T1.0"%string
  /\ Ext._parent "2" = EmptyString.
Proof.
  split; [reflexivity|]. exact (parent_of_child "T1.0" "2" eq_refl).
Defined.


Section PlantListMore.
Variable choice : nat -> nat.
Implicit Types (plantlist : list (gmap string (Z * Z))).

Lemma sum_list_insert (l : list nat) (i x y : nat) :
  l !! i = Some y ->
  (sum_list (<[i := x]> l) + y = sum_list l + x)%nat.
Proof.
  revert i. induction l as [|z l IH]; intros [|i]; try done; simpl.
  - intros [= ->]. lia.
  - intros Hi. specialize (IH i Hi). lia.
Qed.

Lemma update_effect plantlist s a plantlist' s' :
  Ext._update choice (plantlist, s) a = Some (plantlist', s') ->
  exists i plant,
    plantlist !! i = Some plant
    /\ Ext.eligible (Ext.axe_name a) plant = true
    /\ plantlist'
       = <[i := <[Ext.axe_name a := Ext.axe_data a]> plant]> plantlist.
Proof.
  unfold Ext._update.
  destruct (Ext._choose_plant _ _ _ _) as [[i plant]|] eqn:E; [simpl|done].
  intros [= <- <-]. apply choose_plant_spec in E as [Hi Hel].
  by exists i, plant.
Qed.

Lemma eligible_fresh name plant :
  Ext.eligible name plant = true -> plant !! name = None.
Proof.
  unfold Ext.eligible. intros [H _]%andb_true_iff.
  by apply bool_decide_eq_true in H.
Qed.

Lemma reduce_update_app l1 l2 st :
  Ext.reduce_update choice (l1 ++ l2) st
  = Ext.reduce_update choice l1 st ≫= Ext.reduce_update choice l2.
Proof.
  revert st. induction l1 as [|a l1 IH]; intros st; [done|].
  cbn [app Ext.reduce_update].
  destruct (Ext._update choice st a) as [st1|]; [simpl|done]. apply IH.
Qed.

Lemma reduce_update_counts axis plantlist s plantlist' s' :
  Ext.reduce_update choice axis (plantlist, s) = Some (plantlist', s') ->
  length plantlist' = length plantlist
  /\ axes_number plantlist' = (axes_number plantlist + length axis)%nat
  /\ (forall i plant name d,
        plantlist' !! i = Some plant -> plant !! name = Some d ->
        (exists plant0, plantlist !! i = Some plant0
                        /\ plant0 !! name = Some d)
        \/ (d, name) ∈ axis).
Proof.
  revert plantlist s. induction axis as [|a axis IH]; intros plantlist s.
  - intros [= <- <-]. split; [done|]. split; [simpl; lia|]. eauto.
  - cbn [Ext.reduce_update].
    destruct (Ext._update _ _ _) as [[pl1 s1]|] eqn:E; [simpl|done].
    apply update_effect in E as (i & plant & Hi & Hel & ->).
    apply eligible_fresh in Hel.
    intros (Hlen & Hnum & Hprov)%IH.
    rewrite length_insert in Hlen. split; [done|]. split.
    + rewrite Hnum. unfold axes_number. rewrite list_fmap_insert.
      pose proof (sum_list_insert (size <$> plantlist) i
                    (size (<[Ext.axe_name a := Ext.axe_data a]> plant))
                    (size plant)) as Hs.
      rewrite list_lookup_fmap, Hi in Hs. specialize (Hs eq_refl).
      rewrite map_size_insert_None in Hs by done.
      rewrite map_size_insert_None by done. cbn [length]. lia.
    + intros j plant' name d Hj Hd.
      destruct (Hprov j plant' name d Hj Hd) as [(p0 & Hp0 & Hd0)|Hin].
      * destruct (decide (j = i)) as [->|Hne].
        -- rewrite list_lookup_insert_eq in Hp0
             by (by eapply lookup_lt_Some).
           injection Hp0 as <-.
           apply lookup_insert_Some in Hd0 as [[<- <-]|[_ Hd0]].
           ++ right. destruct a as [d n]. apply list_elem_of_here.
           ++ left. eauto.
        -- rewrite list_lookup_insert_ne in Hp0 by done. left. eauto.
      * right. by apply list_elem_of_further.
Qed.

Lemma filter_none {A} (f : A -> bool) (l : list A) :
  Forall (fun x => f x = false) l -> List.filter f l = [].
Proof. induction 1 as [|x l Hx Hl IH]; simpl; [done|]. by rewrite Hx. Qed.

Lemma choose_plant_no_candidate name plantlist s :
  Ext._parent name <> EmptyString ->
  Forall (fun plant => plant !! Ext._parent name = None) plantlist ->
  Ext._choose_plant choice name plantlist s = None.
Proof.
  intros Hpar Hall. unfold Ext._choose_plant.
  rewrite filter_none; [done|].
  apply Forall_forall. intros [i plant] Hin.
  apply list_elem_of_lookup in Hin as [j Hj].
  apply lookup_zip_with_Some in Hj as (i' & p' & [= <- <-] & _ & Hp).
  rewrite Forall_forall in Hall.
  pose proof (Hall plant (list_elem_of_lookup_2 _ _ _ Hp)) as Hnone.
  cbv beta. cbn [snd]. unfold Ext.eligible.
  rewrite (bool_decide_eq_false_2 (is_Some _)).
  - rewrite (bool_decide_eq_false_2 (_ = EmptyString)) by done.
    apply andb_false_r.
  - rewrite Hnone. by intros [? ?].
Qed.

End PlantListMore.

(** X8. When [plant_list] returns, it returns [nplants] plants, and they
    hold together as many axes as the list [axis] has elements: no axis is
    lost and none is stored twice. *)
Theorem plant_list_conservation (choice : nat -> nat) (axis : list Ext.axe)
    (nplants : Z) (s : nat) (plants : list (gmap string (Z * Z))) :
  Ext.plant_list choice axis nplants s = Some plants ->
  length plants = Z.to_nat nplants
  /\ axes_number plants = length axis.
Proof.
  unfold Ext.plant_list.
  destruct (Ext.reduce_update _ _ _) as [[pl s']|] eqn:E; [simpl|done].
  intros [= <-]. apply reduce_update_counts in E as (Hlen & Hnum & _).
  rewrite length_replicate in Hlen. split; [done|]. rewrite Hnum.
  unfold axes_number. clear.
  induction (Z.to_nat nplants) as [|k IH]; [done|]. simpl.
  rewrite map_size_empty. simpl. exact IH.
Qed.

(** X9. Every entry of a plant returned by [plant_list] comes from the
    list [axis]: its name and its data are those of one element. *)
Theorem plant_list_provenance (choice : nat -> nat) (axis : list Ext.axe)
    (nplants : Z) (s : nat) (plants : list (gmap string (Z * Z)))
    (plant : gmap string (Z * Z)) (name : string) (d : Z * Z) :
  Ext.plant_list choice axis nplants s = Some plants ->
  plant ∈ plants -> plant !! name = Some d ->
  (d, name) ∈ axis.
Proof.
  unfold Ext.plant_list.
  destruct (Ext.reduce_update _ _ _) as [[pl s']|] eqn:E; [simpl|done].
  intros [= <-] [i Hi]%list_elem_of_lookup Hd.
  apply reduce_update_counts in E as (_ & _ & Hprov).
  destruct (Hprov i plant name d Hi Hd) as [(p0 & Hp0 & Hd0)|Hin]; [|done].
  apply lookup_replicate in Hp0 as [-> _]. by rewrite lookup_empty in Hd0.
Qed.

(** X10. [plant_list] raises ([random.sample] on an empty list of
    candidates) at an axis whose parent name is not empty and is the name
    of no earlier axis of the list. *)
Theorem plant_list_orphan_raises (choice : nat -> nat)
    (before after : list Ext.axe) (a : Ext.axe) (nplants : Z) (s : nat) :
  Ext._parent (Ext.axe_name a) <> EmptyString ->
  Forall (fun b => Ext.axe_name b <> Ext._parent (Ext.axe_name a)) before ->
  Ext.plant_list choice (before ++ a :: after) nplants s = None.
Proof.
  intros Hpar Hbefore. unfold Ext.plant_list.
  rewrite reduce_update_app.
  destruct (Ext.reduce_update choice before _) as [[pl s']|] eqn:E;
    [simpl|done].
  cbn [Ext.reduce_update]. unfold Ext._update.
  rewrite choose_plant_no_candidate; [done|done|].
  apply reduce_update_counts in E as (_ & _ & Hprov).
  apply Forall_forall. intros plant [i Hi]%list_elem_of_lookup.
  destruct (plant !! Ext._parent (Ext.axe_name a)) as [d|] eqn:Hd; [|done].
  exfalso.
  destruct (Hprov i plant _ d Hi Hd) as [(p0 & Hp0 & Hd0)|Hin].
  - apply lookup_replicate in Hp0 as [-> _]. by rewrite lookup_empty in Hd0.
  - rewrite Forall_forall in Hbefore. by apply (Hbefore _ Hin).
Qed.

Lemma plant_list_conservation_witness :
  exists plants,
    Ext.plant_list (fun _ => 1%nat)
      [(1, 11, "MS"); (1, 11, "MS"); (3, 9, "MS.1")]%string 2 0 = Some plants
    /\ length plants = Z.to_nat 2
    /\ axes_number plants
       = length [(1, 11, "MS"); (1, 11, "MS"); (3, 9, "MS.1")]%string.
Proof.
  eexists. split; [by vm_compute|].
  apply (plant_list_conservation (fun _ => 1%nat)
           [(1, 11, "MS"); (1, 11, "MS"); (3, 9, "MS.1")]%string 2 0%nat).
  by vm_compute.
Defined.

Lemma plant_list_provenance_witness :
  ((3, 9), "T1"%string)
  ∈ [(1, 11, "MS"); (3, 9, "T1")]%string.
Proof.
  apply (plant_list_provenance (fun _ => 1%nat)
           [(1, 11, "MS"); (3, 9, "T1")]%string 2 0%nat
           [∅; <["MS"%string := (1, 11)]> (<["T1"%string := (3, 9)]> ∅)]
           (<["MS"%string := (1, 11)]> (<["T1"%string := (3, 9)]> ∅))
           "T1"%string (3, 9)).
  - by vm_compute.
  - apply list_elem_of_further, list_elem_of_here.
  - by vm_compute.
Defined.

Lemma plant_list_orphan_raises_witness :
  Ext.plant_list (fun _ => 1%nat)
    ([(1, 11, "MS"%string)] ++ (3, 9, "T1.0"%string) :: [(3, 9, "T1"%string)])
    2 0 = None.
Proof.
  apply (plant_list_orphan_raises (fun _ => 1%nat)
           [(1, 11, "MS")]%string [(3, 9, "T1")]%string
           (3, 9, "T1.0")%string 2 0%nat).
  - by vm_compute.
  - repeat constructor. by vm_compute.
Defined.

(** ** plant_list: one axis of a name per plant; the samplers *)

Section PlantListNames.
Variable choice : nat -> nat.
Implicit Types (plantlist : list (gmap string (Z * Z))).


Lemma holders_le_length name plantlist :
  (holders name plantlist <= length plantlist)%nat.
Proof.
  unfold holders. induction plantlist as [|p l IH]; [done|].
  rewrite fmap_cons. cbn [length].
  change (sum_list (?x :: ?k)) with (x + sum_list k)%nat.
  destruct (decide _); lia.
Qed.

Lemma reduce_update_holders name axis plantlist s plantlist' s' :
  Ext.reduce_update choice axis (plantlist, s) = Some (plantlist', s') ->
  holders name plantlist'
  = (holders name plantlist + occurrences name axis)%nat.
Proof.
  revert plantlist s. induction axis as [|a axis IH]; intros plantlist s.
  - intros [= <- <-]. unfold occurrences. simpl. lia.
  - cbn [Ext.reduce_update].
    destruct (Ext._update _ _ _) as [[pl1 s1]|] eqn:E; [simpl|done].
    apply update_effect in E as (i & plant & Hi & Hel & ->).
    apply eligible_fresh in Hel. intros ->%IH.
    unfold holders, occurrences. rewrite list_fmap_insert, filter_cons.
    pose proof (sum_list_insert
                  ((fun plant => if decide (is_Some (plant !! name))
                                 then 1%nat else 0%nat) <$> plantlist) i
                  (if decide (is_Some (<[Ext.axe_name a := Ext.axe_data a]> plant !! name))
                   then 1%nat else 0%nat)
                  (if decide (is_Some (plant !! name)) then 1%nat else 0%nat))
      as Hs.
    rewrite list_lookup_fmap, Hi in Hs. specialize (Hs eq_refl).
    destruct (decide (Ext.axe_name a = name)) as [Heq|Hne].
    + rewrite Heq in *. rewrite lookup_insert_eq in Hs |- *.
      rewrite Hel in Hs.
      rewrite (decide_True (P := is_Some (Some _))) in Hs |- * by (by eexists).
      rewrite (decide_False (P := is_Some None)) in Hs by (by intros [? ?]).
      cbn [length]. lia.
    + rewrite lookup_insert_ne in Hs |- * by done.
      lia.
Qed.

End PlantListNames.

(** X11. In the plants returned by [plant_list], the number of plants
    that hold an axis of a given name is the number of axes of that name
    in the list, which is therefore at most [nplants]. *)
Theorem plant_list_one_per_plant (choice : nat -> nat) (axis : list Ext.axe)
    (nplants : Z) (s : nat) (plants : list (gmap string (Z * Z)))
    (name : string) :
  Ext.plant_list choice axis nplants s = Some plants ->
  holders name plants = occurrences name axis
  /\ (occurrences name axis <= Z.to_nat nplants)%nat.
Proof.
  unfold Ext.plant_list.
  destruct (Ext.reduce_update _ _ _) as [[pl s']|] eqn:E; [simpl|done].
  intros [= <-].
  pose proof (reduce_update_holders choice name _ _ _ _ _ E) as Hh.
  apply reduce_update_counts in E as (Hlen & _ & _).
  rewrite length_replicate in Hlen.
  assert (H0 : holders name (replicate (Z.to_nat nplants) (∅ : gmap string (Z * Z))) = 0%nat).
  { clear. unfold holders. induction (Z.to_nat nplants) as [|k IH]; [done|].
    cbn [replicate]. rewrite fmap_cons.
    change (sum_list (?x :: ?l)) with (x + sum_list l)%nat.
    rewrite lookup_empty. rewrite decide_False by (by intros [? ?]).
    exact IH. }
  rewrite H0 in Hh. simpl in Hh. split; [done|].
  rewrite <- Hh, <- Hlen. apply holders_le_length.
Qed.

Section SamplingMore.
Variable draws : nat -> Q.
Implicit Types (probs : list (Z * Q)) (fuel : nat).

Lemma decide_child_cohorts_rec_draws fuel probs parent delay s l s' :
  Tools.decide_child_cohorts_rec draws fuel probs parent delay s
  = Some (l, s') ->
  (s <= s')%nat
  /\ Forall (fun c => c = 1
                      \/ exists p i, (c, p) ∈ probs /\ (s <= i < s')%nat
                                     /\ (draws i <= p)%Q) l.
Proof.
  revert parent delay s l s'.
  induction fuel as [|fuel IH]; intros parent delay s l s'; [done|].
  cbn [Tools.decide_child_cohorts_rec]. cbv zeta.
  destruct (decide (parent + delay = 1)) as [Hone|Hone].
  - destruct (Tools.decide_child_cohorts_rec draws fuel _ _ _ _)
      as [[sub s1]|] eqn:E; [simpl|done].
    intros [= <- <-]. destruct (IH _ _ _ _ _ E) as [Hs Hsub].
    split; [done|]. constructor; [by left|done].
  - intros Hloop.
    refine (for_each_invariant
              (fun st : list Z * nat =>
                 (s <= st.2)%nat
                 /\ Forall (fun c => c = 1
                              \/ exists p i, (c, p) ∈ probs
                                             /\ (s <= i < st.2)%nat
                                             /\ (draws i <= p)%Q) st.1)
              _ _ ([], s) (l, s') _ _ Hloop); [by split|].
    intros [c p] [child s0] [child' s0'] Hin [Hs0 Hst]. cbn [fst snd] in *.
    assert (Hweak : forall s2, (s0 <= s2)%nat ->
              Forall (fun c => c = 1
                        \/ exists p i, (c, p) ∈ probs /\ (s <= i < s2)%nat
                                       /\ (draws i <= p)%Q) child).
    { intros s2 Hs2. eapply Forall_impl; [exact Hst|].
      intros c0 [?|(p0 & i & ? & ? & ?)]; [by left|right].
      exists p0, i. split; [done|]. split; [lia|done]. }
    destruct (decide (parent + delay <= c)); [|intros [= <- <-]; by split].
    destruct (Qle_bool (draws s0) p) eqn:Ed;
      [|intros [= <- <-]; split; [lia|apply Hweak; lia]].
    destruct (Tools.decide_child_cohorts_rec draws fuel _ _ _ _)
      as [[sub s1]|] eqn:E; [simpl|done].
    intros [= <- <-]. destruct (IH _ _ _ _ _ E) as [Hs1 Hsub].
    split; [lia|]. apply Forall_app. split; [apply Hweak; lia|].
    constructor.
    + right. exists p, s0. split; [done|]. split; [lia|].
      by apply Qle_bool_iff.
    + eapply Forall_impl; [exact Hsub|].
      intros c0 [?|(p0 & i & ? & ? & ?)]; [by left|right].
      exists p0, i. split; [done|]. split; [lia|done].
Qed.

Lemma MS_loop_Some (r : Q) (items : list (Q * Q)) (acc : Q) :
  items <> [] -> (r <= acc + Py.fsum items.*2)%Q ->
  exists k, Tools.MS_loop r items acc = Some k /\ k ∈ items.*1.
Proof.
  revert acc. induction items as [|[k p] items IH]; intros acc Hne Hle; [done|].
  rewrite fmap_cons, fsum_cons in Hle. cbn [snd] in Hle.
  cbn [Tools.MS_loop]. destruct (Qle_bool r (acc + p)) eqn:E.
  - exists k. split; [done|]. rewrite fmap_cons. apply list_elem_of_here.
  - destruct items as [|kp items'].
    + exfalso. cbn in Hle.
      assert (r <= acc + p)%Q as Hr by lra.
      apply Qle_bool_iff in Hr. congruence.
    + destruct (IH (acc + p)%Q) as (k' & Hk' & Hin); [done|lra|].
      exists k'. split; [done|]. rewrite fmap_cons.
      by apply list_elem_of_further.
Qed.

Lemma MS_loop_positive (r : Q) (items : list (Q * Q)) (acc k : Q) :
  (acc < r)%Q -> Tools.MS_loop r items acc = Some k ->
  exists p, (k, p) ∈ items /\ (0 < p)%Q.
Proof.
  revert acc. induction items as [|[k0 p0] items IH]; intros acc Hacc; [done|].
  cbn [Tools.MS_loop]. destruct (Qle_bool r (acc + p0)) eqn:E.
  - intros [= <-]. apply Qle_bool_iff in E. exists p0.
    split; [apply list_elem_of_here|lra].
  - intros Hloop.
    assert (acc + p0 < r)%Q as Hlt.
    { apply Qnot_le_lt. intros Hle. apply Qle_bool_iff in Hle. congruence. }
    destruct (IH _ Hlt Hloop) as (p & Hin & Hp).
    exists p. split; [by apply list_elem_of_further|done].
Qed.

End SamplingMore.

(** X12. With the default arguments [decide_child_cohorts] always
    returns, its list starts with cohort 1, and every other cohort of the
    list is a key of the probabilities numbered 3 or more. *)
Theorem main_stem_listed_once (draws : nat -> Q) (probs : list (Z * Q))
    (s : nat) :
  exists sub s',
    Tools.decide_child_cohorts draws probs (-1) 2 s = Some (1 :: sub, s')
    /\ Forall (fun c => 3 <= c /\ c ∈ probs.*1) sub.
Proof.
  destruct (decide_child_cohorts_total draws probs (-1) 2 s) as [[l s'] Hr].
  unfold Tools.decide_child_cohorts, Tools.enough_fuel in Hr.
  cbn [Tools.decide_child_cohorts_rec] in Hr. cbv zeta in Hr.
  change (-1 + 2) with 1 in Hr.
  destruct (decide (1 = 1)); [|done].
  destruct (Tools.decide_child_cohorts_rec _ _ _ _ _ _) as [[sub s1]|] eqn:E;
    [simpl in Hr|done].
  injection Hr as <- <-. exists sub, s1. split.
  - apply (decide_child_cohorts_fuel draws
             (S (Z.to_nat (Tools.max_cohort probs + 3 - 1)))).
    cbn [Tools.decide_child_cohorts_rec]. cbv zeta.
    change (-1 + 2) with 1.
    destruct (decide (1 = 1)); [|done]. by rewrite E.
  - apply decide_child_cohorts_rec_entries in E.
    eapply Forall_impl; [exact E|]. intros c [Hc [->|Hin]]; [lia|].
    split; [lia|done].
Qed.

(** X13. Every cohort that [decide_child_cohorts] lists, other than the
    main stem, is a key of the probabilities, and one of the random draws
    made during the call was at most its probability. *)
Theorem listed_cohorts_were_drawn (draws : nat -> Q) (probs : list (Z * Q))
    (parent delay : Z) (s : nat) (l : list Z) (s' : nat) :
  Tools.decide_child_cohorts draws probs parent delay s = Some (l, s') ->
  (s <= s')%nat
  /\ Forall (fun c => c = 1
                      \/ exists p i, (c, p) ∈ probs /\ (s <= i < s')%nat
                                     /\ (draws i <= p)%Q) l.
Proof. apply decide_child_cohorts_rec_draws. Qed.

(** X14. When the draw is at most the sum of the probabilities and the
    dict is not empty, [calculate_MS_final_leaves_number] returns one of
    its keys, after exactly one random draw. *)
Theorem MS_final_leaves_number_Some (draws : nat -> Q)
    (probabilities : list (Q * Q)) (s : nat) :
  probabilities <> [] ->
  (draws s <= Py.fsum probabilities.*2)%Q ->
  exists k,
    Tools.calculate_MS_final_leaves_number draws probabilities s
    = (Some k, S s)
    /\ k ∈ probabilities.*1.
Proof.
  intros Hne Hle. unfold Tools.calculate_MS_final_leaves_number.
  destruct (MS_loop_Some (draws s) probabilities 0%Q Hne) as (k & -> & Hk);
    [lra|].
  by exists k.
Qed.

(** X15. For a positive draw, the number of leaves that
    [calculate_MS_final_leaves_number] returns is a key of positive
    probability. *)
Theorem MS_final_leaves_number_positive (draws : nat -> Q)
    (probabilities : list (Q * Q)) (s : nat) (k : Q) :
  (0 < draws s)%Q ->
  (Tools.calculate_MS_final_leaves_number draws probabilities s).1 = Some k ->
  exists p, (k, p) ∈ probabilities /\ (0 < p)%Q.
Proof.
  intros Hpos. unfold Tools.calculate_MS_final_leaves_number. cbn [fst].
  by apply MS_loop_positive.
Qed.

Lemma plant_list_one_per_plant_witness :
  exists plants,
    Ext.plant_list (fun _ => 1%nat)
      [(1, 11, "MS"); (1, 11, "MS"); (3, 9, "MS.1")]%string 2 0 = Some plants
    /\ holders "MS" plants
       = occurrences "MS" [(1, 11, "MS"); (1, 11, "MS"); (3, 9, "MS.1")]%string
    /\ le (occurrences "MS"
              [(1, 11, "MS"); (1, 11, "MS"); (3, 9, "MS.1")]%string)
          (Z.to_nat 2).
Proof.
  eexists. split; [by vm_compute|].
  apply (plant_list_one_per_plant (fun _ => 1%nat)
           [(1, 11, "MS"); (1, 11, "MS"); (3, 9, "MS.1")]%string 2 0%nat).
  by vm_compute.
Defined.

Lemma listed_cohorts_were_drawn_witness :
  (0 <= 4)%nat
  /\ Forall (fun c => c = 1
                      \/ exists p i,
                           (c, p) ∈ [(3, (3 # 4)%Q); (4, (1 # 4)%Q); (5, 1%Q)]
                           /\ (0 <= i < 4)%nat
                           /\ ((fun _ : nat => (1 # 2)%Q) i <= p)%Q)
            [1; 3; 5; 5].
Proof.
  apply (listed_cohorts_were_drawn (fun _ => (1 # 2)%Q)
           [(3, (3 # 4)%Q); (4, (1 # 4)%Q); (5, 1%Q)] (-1) 2 0%nat).
  by vm_compute.
Defined.

Lemma MS_final_leaves_number_Some_witness :
  exists k,
    Tools.calculate_MS_final_leaves_number (fun _ => (1 # 2)%Q)
      [(11%Q, (1 # 4)%Q); (12%Q, (3 # 4)%Q)] 0 = (Some k, 1%nat)
    /\ k ∈ [(11%Q, (1 # 4)%Q); (12%Q, (3 # 4)%Q)].*1.
Proof.
  apply (MS_final_leaves_number_Some (fun _ => (1 # 2)%Q)
           [(11%Q, (1 # 4)%Q); (12%Q, (3 # 4)%Q)] 0%nat).
  - done.
  - by vm_compute.
Defined.

Lemma MS_final_leaves_number_positive_witness :
  exists p, (12%Q, p) ∈ [(11%Q, (1 # 4)%Q); (12%Q, (3 # 4)%Q)] /\ (0 < p)%Q.
Proof.
  apply (MS_final_leaves_number_positive (fun _ => (1 # 2)%Q)
           [(11%Q, (1 # 4)%Q); (12%Q, (3 # 4)%Q)] 0%nat 12%Q).
  - by vm_compute.
  - by vm_compute.
Defined.

(** ** decide_time_of_death: the steps of the function *)

Section DeathFacts.
Implicit Types (st : Tools.death_state) (coefs : list Q) (tts : list Z).

Lemma pop_spec {A} (l : list A) x rest :
  Tools.pop l = Some (x, rest) -> l = rest ++ [x].
Proof.
  unfold Tools.pop. destruct (last l) as [y|] eqn:E; [simpl|done].
  intros [= -> <-]. apply last_Some in E as [l' ->].
  by rewrite removelast_last.
Qed.

Lemma pop_is_Some {A} (l : list A) : (0 < length l)%nat -> is_Some (Tools.pop l).
Proof.
  intros Hl. unfold Tools.pop.
  destruct (last l) as [y|] eqn:E; [by eexists|].
  apply last_None in E as ->. simpl in Hl. lia.
Qed.

Lemma delete_axes_state k TT st st' :
  Tools.delete_axes k TT st = Some st' ->
  exists popped : list (Q * nat),
    length popped = k
    /\ Tools.T_em_leaf1_tuples st
       = Tools.T_em_leaf1_tuples st' ++ reverse popped
    /\ Tools.T_stop_axis_tuples st'
       = Tools.T_stop_axis_tuples st ++ ((fun x => (x.2, TT)) <$> popped)
    /\ Tools.remaining_axes_number st'
       = Tools.remaining_axes_number st - Z.of_nat k.
Proof.
  revert st. induction k as [|k IH]; intros st; cbn [Tools.delete_axes].
  - intros [= <-]. exists []. rewrite !app_nil_r. split_and!; [done..|lia].
  - destruct (Tools.pop _) as [[[e r] rest]|] eqn:E; [simpl|done].
    apply pop_spec in E.
    intros (popped & Hlen & Hem & Hstop & Hrem)%IH.
    cbn [Tools.T_em_leaf1_tuples Tools.T_stop_axis_tuples
         Tools.remaining_axes_number] in *.
    exists ((e, r) :: popped). split_and!.
    + simpl. lia.
    + rewrite E, Hem, reverse_cons, app_assoc. reflexivity.
    + rewrite Hstop, <- app_assoc. reflexivity.
    + lia.
Qed.

Lemma delete_axes_is_Some k TT st :
  (k <= length (Tools.T_em_leaf1_tuples st))%nat ->
  is_Some (Tools.delete_axes k TT st).
Proof.
  revert st. induction k as [|k IH]; intros st Hk; [by eexists|].
  cbn [Tools.delete_axes].
  destruct (pop_is_Some (Tools.T_em_leaf1_tuples st)) as [[[e r] rest] E];
    [lia|].
  rewrite E. simpl. apply IH. cbn [Tools.T_em_leaf1_tuples].
  apply pop_spec in E. rewrite E, length_app in Hk. simpl in Hk. lia.
Qed.

Lemma walk_state coefs tts st st' :
  Tools.walk coefs tts st = Some st' ->
  exists popped : list (Q * nat),
    Tools.T_em_leaf1_tuples st = Tools.T_em_leaf1_tuples st' ++ reverse popped
    /\ (Tools.T_stop_axis_tuples st').*1
       = (Tools.T_stop_axis_tuples st).*1 ++ popped.*2
    /\ Tools.remaining_axes_number st'
       = Tools.remaining_axes_number st - Z.of_nat (length popped).
Proof.
  revert st. induction tts as [|TT tts IH]; intros st; cbn [Tools.walk].
  - intros [= <-]. exists []. rewrite !app_nil_r. split_and!; [done..|simpl; lia].
  - cbv zeta.
    destruct (Tools.delete_axes _ TT st) as [st1|] eqn:E; [simpl|done].
    apply delete_axes_state in E as (p1 & Hlen & Hem & Hstop & Hrem).
    assert (Hstop1 : (Tools.T_stop_axis_tuples st1).*1
                     = (Tools.T_stop_axis_tuples st).*1 ++ p1.*2).
    { rewrite Hstop, fmap_app. f_equal.
      rewrite <- list_fmap_compose. done. }
    destruct (decide (Tools.remaining_axes_number st1 = 0)).
    + intros [= <-]. exists p1. split_and!; [done|done|lia].
    + intros (p2 & Hem2 & Hstop2 & Hrem2)%IH. exists (p1 ++ p2). split_and!.
      * rewrite Hem, Hem2, reverse_app, app_assoc. reflexivity.
      * rewrite Hstop2, Hstop1, fmap_app, app_assoc. reflexivity.
      * rewrite length_app. lia.
Qed.

Lemma walk_lower coefs tts st st' (m : Z) :
  (forall t, t ∈ tts -> m <= Py.int (Tools.polyval coefs (inject_Z t))) ->
  m <= Tools.remaining_axes_number st ->
  Tools.walk coefs tts st = Some st' ->
  m <= Tools.remaining_axes_number st'.
Proof.
  revert st. induction tts as [|TT tts IH]; intros st Hv Hm; cbn [Tools.walk].
  - by intros [= <-].
  - cbv zeta.
    destruct (Tools.delete_axes _ TT st) as [st1|] eqn:E; [simpl|done].
    apply delete_axes_state in E as (p1 & Hlen & _ & _ & Hrem).
    pose proof (Hv TT (list_elem_of_here _ _)) as HTT.
    assert (m <= Tools.remaining_axes_number st1) by lia.
    destruct (decide (Tools.remaining_axes_number st1 = 0)).
    + by intros [= <-].
    + apply IH; [|done]. intros t Ht. apply Hv. by apply list_elem_of_further.
Qed.

Lemma walk_upper coefs tts st st' :
  Tools.walk coefs tts st = Some st' ->
  Tools.remaining_axes_number st' <= Tools.remaining_axes_number st
  /\ forall t, t ∈ tts ->
       Tools.remaining_axes_number st' = 0
       \/ Tools.remaining_axes_number st'
          <= Py.int (Tools.polyval coefs (inject_Z t)).
Proof.
  revert st. induction tts as [|TT tts IH]; intros st; cbn [Tools.walk].
  - intros [= <-]. split; [lia|]. by intros t ?%elem_of_nil.
  - cbv zeta.
    destruct (Tools.delete_axes _ TT st) as [st1|] eqn:E; [simpl|done].
    apply delete_axes_state in E as (p1 & Hlen & _ & _ & Hrem).
    destruct (decide (Tools.remaining_axes_number st1 = 0)) as [H0|H0].
    + intros [= <-]. split; [lia|]. by left.
    + intros [Hle Hup]%IH. split; [lia|].
      intros t [->|Ht]%elem_of_cons; [right; lia|by apply Hup].
Qed.

Lemma walk_is_Some coefs tts st (m : Z) :
  (forall t, t ∈ tts -> m <= Py.int (Tools.polyval coefs (inject_Z t))) ->
  Tools.remaining_axes_number st - m
  <= Z.of_nat (length (Tools.T_em_leaf1_tuples st)) ->
  is_Some (Tools.walk coefs tts st).
Proof.
  revert st. induction tts as [|TT tts IH]; intros st Hv Hlen; [by eexists|].
  cbn [Tools.walk]. cbv zeta.
  pose proof (Hv TT (list_elem_of_here _ _)) as HTT.
  destruct (delete_axes_is_Some
              (Z.to_nat (Tools.remaining_axes_number st
                         - Py.int (Tools.polyval coefs (inject_Z TT))))
              TT st) as [st1 E]; [lia|].
  rewrite E. simpl.
  apply delete_axes_state in E as (p1 & Hl1 & Hem & _ & Hrem).
  destruct (decide (Tools.remaining_axes_number st1 = 0)); [by eexists|].
  apply IH; [intros t Ht; apply Hv; by apply list_elem_of_further|].
  rewrite Hem, length_app, length_reverse in Hlen. lia.
Qed.

Lemma resolved_fill_nan rows l n :
  resolved (Tools.fill_nan rows l n) = resolved l.
Proof.
  unfold Tools.fill_nan, resolved. revert l.
  induction (seq 0 n) as [|i rest IH]; intros l; [done|]. simpl.
  rewrite IH. destruct (decide (i ∈ rows)); [done|].
  unfold Py.list_insert. rewrite omap_app. simpl.
  by rewrite <- omap_app, take_drop.
Qed.

Lemma length_fill_nan rows l n :
  length (Tools.fill_nan rows l n)
  = (length l + length (filter (fun i => i ∉ rows) (seq 0 n)))%nat.
Proof.
  unfold Tools.fill_nan. revert l.
  induction (seq 0 n) as [|i rest IH]; intros l; [simpl; lia|]. simpl.
  rewrite IH, filter_cons. destruct (decide (i ∈ rows)).
  - rewrite decide_False by auto. done.
  - rewrite decide_True by done.
    unfold Py.list_insert. rewrite length_app. simpl.
    rewrite length_take, length_drop. lia.
Qed.

Lemma length_rows_complement (rows : list nat) n :
  NoDup rows -> (forall i, i ∈ rows -> (i < n)%nat) ->
  (length rows + length (filter (fun i => i ∉ rows) (seq 0 n)) = n)%nat.
Proof.
  intros Hnd Hlt.
  assert (Hperm : filter (fun i => i ∈ rows) (seq 0 n) ≡ₚ rows).
  { apply NoDup_Permutation; [apply NoDup_filter, NoDup_seq|done|].
    intros i. rewrite list_elem_of_filter, elem_of_seq. split; [by intros [? _]|].
    intros Hi. split; [done|]. specialize (Hlt i Hi). lia. }
  pose proof (filter_app_complement (fun i => i ∈ rows) (seq 0 n)) as Hc.
  apply Permutation_length in Hc. rewrite length_app, length_seq in Hc.
  rewrite (Permutation_length Hperm) in Hc. exact Hc.
Qed.

(** The rows that were given a death time are distinct rows of the input. *)
Lemma popped_rows (em : list Q) (rest popped : list (Q * nat)) :
  merge_sort (fun a b => Is_true (Tools.em_leb a b))
             (zip em (seq 0 (length em)))
  = rest ++ reverse popped ->
  NoDup popped.*2 /\ (forall i, i ∈ popped.*2 -> (i < length em)%nat)
  /\ (length rest + length popped = length em)%nat.
Proof.
  intros Hs.
  assert (Hperm : rest.*2 ++ popped.*2 ≡ₚ seq 0 (length em)).
  { rewrite <- (snd_zip em (seq 0 (length em))) by (rewrite length_seq; lia).
    rewrite <- (merge_sort_Permutation
                  (fun a b => Is_true (Tools.em_leb a b)) (zip em _)).
    rewrite Hs, fmap_app, fmap_reverse. by rewrite reverse_Permutation. }
  split_and!.
  - pose proof (NoDup_seq 0 (length em)) as Hnd.
    rewrite <- Hperm in Hnd. by apply NoDup_app in Hnd as (_ & _ & ?).
  - intros i Hi.
    assert (i ∈ seq 0 (length em)) as Hin.
    { rewrite <- Hperm. apply elem_of_app. by right. }
    apply elem_of_seq in Hin. lia.
  - apply Permutation_length in Hperm.
    rewrite length_app, !length_fmap, length_seq in Hperm. done.
Qed.

End DeathFacts.

(** ** decide_time_of_death: the number of deaths *)

Section DeathTheorems.

(** The fitted line between bolting and flowering. *)
Lemma line_value (max_axes min_axes : Z) (TB TF x : Q) coefs :
  (TB < TF)%Q ->
  Tools.polyfit1 TF TB (inject_Z min_axes) (inject_Z max_axes) = Some coefs ->
  (Tools.polyval coefs x
   == inject_Z min_axes
      + (inject_Z max_axes - inject_Z min_axes) * (TF - x) * / (TF - TB))%Q.
Proof.
  intros Hlt. unfold Tools.polyfit1.
  destruct (Qeq_bool TF TB) eqn:E.
  { apply Qeq_bool_iff in E. lra. }
  intros [= <-]. cbn [Tools.polyval foldl]. field. split; lra.
Qed.

Lemma line_above_min (max_axes min_axes : Z) (TB TF x : Q) coefs :
  min_axes <= max_axes -> (TB < TF)%Q -> (x <= TF)%Q ->
  Tools.polyfit1 TF TB (inject_Z min_axes) (inject_Z max_axes) = Some coefs ->
  (inject_Z min_axes <= Tools.polyval coefs x)%Q.
Proof.
  intros Hmm Hlt Hx Hfit. rewrite (line_value _ _ _ _ x _ Hlt Hfit).
  rewrite Zle_Qle in Hmm.
  assert (0 <= (inject_Z max_axes - inject_Z min_axes) * (TF - x)
               * / (TF - TB))%Q; [|lra].
  apply Qmult_le_0_compat.
  - apply Qmult_le_0_compat; lra.
  - apply Qlt_le_weak, Qinv_lt_0_compat. lra.
Qed.

(** The exact line at a whole flowering date. *)
Lemma exact_line_at_flowering (max_axes min_axes : Z) (TB TF : Q) coefs :
  (TB < TF)%Q -> (inject_Z (Py.int TF) == TF)%Q ->
  Tools.polyfit1 TF TB (inject_Z min_axes) (inject_Z max_axes) = Some coefs ->
  (Tools.polyval coefs (inject_Z (Py.int TF)) < inject_Z min_axes + 1)%Q.
Proof.
  intros Hlt Hwhole Hfit.
  rewrite (line_value _ _ _ _ _ _ Hlt Hfit), Hwhole.
  assert (Hz : ((inject_Z max_axes - inject_Z min_axes) * (TF - TF)
                * / (TF - TB) == 0)%Q) by (field; lra).
  lra.
Qed.

Lemma int_below (x : Q) (m : Z) :
  0 <= m -> (x < inject_Z m + 1)%Q -> Py.int x <= m.
Proof.
  intros Hm Hx. destruct (Qlt_le_dec x 0) as [Hneg|Hpos].
  - rewrite (int_negative_ceiling x) by lra.
    unfold Qceiling.
    assert (0 <= Qfloor (- x)); [|lia].
    change 0 with (Qfloor 0). apply Qfloor_resp_le. lra.
  - rewrite (int_nonneg_floor x Hpos).
    pose proof (Qfloor_le x) as Hfl.
    assert (inject_Z (Qfloor x) < inject_Z m + 1)%Q as H1 by lra.
    change 1%Q with (inject_Z 1) in H1.
    rewrite <- inject_Z_plus, <- Zlt_Qlt in H1. lia.
Qed.

Lemma last_step (TB TF : Q) :
  (0 <= TB <= TF)%Q -> Py.int TF ∈ Py.range (Py.int TB) (Py.int TF + 1).
Proof.
  intros [HTB HTF]. unfold Py.range. apply list_elem_of_fmap.
  assert (Py.int TB <= Py.int TF).
  { rewrite (int_nonneg_floor TB HTB), (int_nonneg_floor TF) by lra.
    by apply Qfloor_resp_le. }
  exists (Z.to_nat (Py.int TF - Py.int TB)). split; [lia|].
  apply elem_of_seq. lia.
Qed.

Section DeathCounts.
Variable polyfit : Q -> Q -> Q -> Q -> option (list Q).

(** What a call that returns has gone through. *)
Lemma decide_time_of_death_Some max_axes min_axes em TB TF l :
  Tools.decide_time_of_death polyfit max_axes min_axes em TB TF = Some l ->
  exists coefs st (popped : list (Q * nat)),
    (0 <= min_axes <= max_axes /\ (0 <= TB <= TF)%Q)
    /\ polyfit TF TB (inject_Z min_axes) (inject_Z max_axes) = Some coefs
    /\ Tools.walk coefs (Py.range (Py.int TB) (Py.int TF + 1))
         {| Tools.remaining_axes_number := max_axes;
            Tools.T_em_leaf1_tuples :=
              merge_sort (fun a b => Is_true (Tools.em_leb a b))
                         (zip em (seq 0 (length em)));
            Tools.T_stop_axis_tuples := [] |} = Some st
    /\ merge_sort (fun a b => Is_true (Tools.em_leb a b))
                  (zip em (seq 0 (length em)))
       = Tools.T_em_leaf1_tuples st ++ reverse popped
    /\ (Tools.T_stop_axis_tuples st).*1 = popped.*2
    /\ Tools.remaining_axes_number st = max_axes - Z.of_nat (length popped)
    /\ l = Tools.fill_nan
             (merge_sort (fun a b => Is_true (Tools.stop_leb a b))
                         (Tools.T_stop_axis_tuples st)).*1
             ((fun t => Some t.2)
                <$> merge_sort (fun a b => Is_true (Tools.stop_leb a b))
                               (Tools.T_stop_axis_tuples st))
             (length em).
Proof.
  intros (coefs & st & Hpre & Efit & Ewalk & ->)%decide_time_of_death_inv.
  exists coefs, st.
  destruct (walk_state _ _ _ _ Ewalk) as (popped & Hem & Hstop & Hrem).
  cbn in Hem, Hstop, Hrem. exists popped.
  destruct Hpre as [[? ?] [? ?]]. split_and!; done.
Qed.

Lemma resolved_Some (stops : list (nat * Z)) :
  resolved ((fun t => Some t.2) <$> stops) = stops.*2.
Proof.
  unfold resolved. induction stops as [|x l IH]; [done|].
  rewrite !fmap_cons. cbn. by rewrite IH.
Qed.

Lemma death_list_shape max_axes min_axes em TB TF l :
  Tools.decide_time_of_death polyfit max_axes min_axes em TB TF = Some l ->
  exists coefs st,
    length l = length em
    /\ Z.of_nat (length (resolved l))
       = max_axes - Tools.remaining_axes_number st
    /\ (length (resolved l) <= length em)%nat
    /\ (0 <= min_axes <= max_axes /\ (0 <= TB <= TF)%Q)
    /\ polyfit TF TB (inject_Z min_axes) (inject_Z max_axes) = Some coefs
    /\ Tools.walk coefs (Py.range (Py.int TB) (Py.int TF + 1))
         {| Tools.remaining_axes_number := max_axes;
            Tools.T_em_leaf1_tuples :=
              merge_sort (fun a b => Is_true (Tools.em_leb a b))
                         (zip em (seq 0 (length em)));
            Tools.T_stop_axis_tuples := [] |} = Some st.
Proof.
  intros (coefs & st & popped & Hpre & Hfit & Hwalk & Hem & Hstop & Hrem & ->)
    %decide_time_of_death_Some.
  exists coefs, st.
  destruct (popped_rows em _ _ Hem) as (Hnd & Hlt & Hlen).
  set (stops := merge_sort _ (Tools.T_stop_axis_tuples st)).
  assert (Hperm : stops.*1 ≡ₚ popped.*2).
  { unfold stops. by rewrite merge_sort_Permutation, Hstop. }
  assert (Hres : length (resolved (Tools.fill_nan stops.*1
                    ((fun t => Some t.2) <$> stops) (length em)))
                 = length popped).
  { rewrite resolved_fill_nan, resolved_Some, length_fmap.
    rewrite <- (length_fmap fst stops), (Permutation_length Hperm).
    by rewrite length_fmap. }
  split; [|split; [lia|split; [lia|done]]].
  rewrite length_fill_nan, length_fmap, <- (length_fmap fst stops).
  apply length_rows_complement.
  - by rewrite Hperm.
  - intros i Hi. apply Hlt. by rewrite <- Hperm.
Qed.

Lemma result_length max_axes min_axes em TB TF l :
  Tools.decide_time_of_death polyfit max_axes min_axes em TB TF = Some l ->
  length l = length em /\ (length (resolved l) <= length em)%nat.
Proof.
  intros (coefs & st & Hlen & _ & Hres & _)%death_list_shape. done.
Qed.

(** The number of death times, from the truncated values of the fitted
    line at the steps. *)
Lemma resolved_bounds max_axes min_axes em TB TF l coefs :
  Tools.decide_time_of_death polyfit max_axes min_axes em TB TF = Some l ->
  polyfit TF TB (inject_Z min_axes) (inject_Z max_axes) = Some coefs ->
  max_axes
  - Z.max 0 (Py.int (Tools.polyval coefs (inject_Z (Py.int TF))))
  <= Z.of_nat (length (resolved l))
  /\ forall m : Z,
       m <= max_axes ->
       (forall tt, Py.int TB <= tt <= Py.int TF ->
          m <= Py.int (Tools.polyval coefs (inject_Z tt))) ->
       Z.of_nat (length (resolved l)) <= max_axes - m.
Proof.
  intros (coefs' & st & _ & Hres & _ & Hpre & Hfit' & Hwalk)%death_list_shape
    Hfit.
  assert (coefs' = coefs) as -> by congruence.
  destruct Hpre as [[Hmin Hmm] HT]. split.
  - destruct (walk_upper _ _ _ _ Hwalk) as [_ Hup].
    destruct (Hup _ (last_step TB TF HT)) as [H0|Hle]; lia.
  - intros m Hm Hsteps.
    assert (Hsteps' : forall t, t ∈ Py.range (Py.int TB) (Py.int TF + 1) ->
               m <= Py.int (Tools.polyval coefs (inject_Z t))).
    { intros t Ht%elem_of_range. apply Hsteps. lia. }
    pose proof (walk_lower _ _ _ _ m Hsteps'
                  (Hm : m <= Tools.remaining_axes_number
                              {| Tools.remaining_axes_number := max_axes;
                                 Tools.T_em_leaf1_tuples := _;
                                 Tools.T_stop_axis_tuples := [] |})
                  Hwalk) as Hlow.
    lia.
Qed.

(** X16. [decide_time_of_death] returns when its assertions hold,
    [np.polyfit] returns a line, and at every step of the walk the
    truncated value of that line is at least [max_axes_number] minus the
    number of axes, so that [pop] never finds the list empty. *)
Theorem decide_time_of_death_returns max_axes min_axes em TB TF coefs :
  0 <= min_axes <= max_axes -> (0 <= TB <= TF)%Q ->
  polyfit TF TB (inject_Z min_axes) (inject_Z max_axes) = Some coefs ->
  (forall tt, Py.int TB <= tt <= Py.int TF ->
     max_axes - Z.of_nat (length em)
     <= Py.int (Tools.polyval coefs (inject_Z tt))) ->
  is_Some (Tools.decide_time_of_death polyfit max_axes min_axes em TB TF).
Proof.
  intros Hmm HT Hfit Hsteps.
  rewrite (decide_time_of_death_eq polyfit _ _ _ _ _ coefs Hmm HT Hfit).
  destruct (walk_is_Some coefs (Py.range (Py.int TB) (Py.int TF + 1))
              {| Tools.remaining_axes_number := max_axes;
                 Tools.T_em_leaf1_tuples :=
                   merge_sort (fun a b => Is_true (Tools.em_leb a b))
                              (zip em (seq 0 (length em)));
                 Tools.T_stop_axis_tuples := [] |}
              (max_axes - Z.of_nat (length em))) as [st Hwalk].
  - intros t Ht%elem_of_range. apply Hsteps. lia.
  - cbn [Tools.remaining_axes_number Tools.T_em_leaf1_tuples].
    rewrite (Permutation_length (merge_sort_Permutation _ _)).
    rewrite length_zip_with, length_seq. lia.
  - rewrite Hwalk. by eexists.
Qed.

(** X17. [decide_time_of_death] raises ([IndexError] on [pop]) when there
    are fewer axes than the [max_axes_number - min_axes_number] to remove
    and the fitted line is below [min_axes_number + 1] at the last step
    [int(TT_flowering)], as the exact line is for a whole flowering date
    after the bolting date, and as is any line below the exact one. *)
Theorem too_few_axes_raises max_axes min_axes em TB TF :
  (forall coefs,
     polyfit TF TB (inject_Z min_axes) (inject_Z max_axes) = Some coefs ->
     (Tools.polyval coefs (inject_Z (Py.int TF)) < inject_Z min_axes + 1)%Q) ->
  Z.of_nat (length em) < max_axes - min_axes ->
  Tools.decide_time_of_death polyfit max_axes min_axes em TB TF = None.
Proof.
  intros Hline Hfew.
  destruct (Tools.decide_time_of_death _ _ _ _ _ _) as [l|] eqn:E; [|done].
  exfalso.
  destruct (decide_time_of_death_inv _ _ _ _ _ _ _ E)
    as (coefs & _ & [[Hmin _] _] & Hfit & _).
  destruct (resolved_bounds _ _ _ _ _ _ _ E Hfit) as [Hlow _].
  destruct (result_length _ _ _ _ _ _ E) as [_ Hle].
  pose proof (int_below _ _ Hmin (Hline coefs Hfit)). lia.
Qed.

(** X18. The list returned by [decide_time_of_death] has one entry per
    axis, whatever the fitted line. *)
Theorem death_list_length max_axes min_axes em TB TF l :
  Tools.decide_time_of_death polyfit max_axes min_axes em TB TF = Some l ->
  length l = length em /\ (length (resolved l) <= length em)%nat.
Proof. apply result_length. Qed.

(** X19. The number of death times that [decide_time_of_death] gives
    follows the fitted line: it is at least [max_axes_number - max(0, s)],
    where [s] is the truncated value of the line at the last step
    [int(TT_flowering)], and at most [max_axes_number - m] for every [m]
    that the truncated line does not go below at any step. *)
Theorem deaths_number max_axes min_axes em TB TF l coefs :
  Tools.decide_time_of_death polyfit max_axes min_axes em TB TF = Some l ->
  polyfit TF TB (inject_Z min_axes) (inject_Z max_axes) = Some coefs ->
  max_axes
  - Z.max 0 (Py.int (Tools.polyval coefs (inject_Z (Py.int TF))))
  <= Z.of_nat (length (resolved l))
  /\ forall m : Z,
       m <= max_axes ->
       (forall tt, Py.int TB <= tt <= Py.int TF ->
          m <= Py.int (Tools.polyval coefs (inject_Z tt))) ->
       Z.of_nat (length (resolved l)) <= max_axes - m.
Proof. apply resolved_bounds. Qed.

End DeathCounts.

(** With the exact line and the bolting date before the flowering date the
    count is the one that the docstring describes: at most
    [max_axes_number - min_axes_number] axes die, and exactly that many
    for a whole flowering date. *)
Lemma exact_line_deaths max_axes min_axes em TB TF l :
  (TB < TF)%Q ->
  Tools.decide_time_of_death Tools.polyfit1 max_axes min_axes em TB TF
  = Some l ->
  Z.of_nat (length (resolved l)) <= max_axes - min_axes
  /\ ((inject_Z (Py.int TF) == TF)%Q ->
      Z.of_nat (length (resolved l)) = max_axes - min_axes).
Proof.
  intros Hlt E.
  destruct (decide_time_of_death_inv _ _ _ _ _ _ _ E)
    as (coefs & _ & [[Hmin Hmm] [HTB HTF]] & Hfit & _).
  destruct (resolved_bounds _ _ _ _ _ _ _ _ E Hfit) as [Hlow Hup].
  assert (HTF0 : (0 <= TF)%Q) by lra.
  destruct (int_bounds TF HTF0) as [HTFlo _].
  assert (Hle : Z.of_nat (length (resolved l)) <= max_axes - min_axes).
  { apply Hup; [done|]. intros tt Htt. apply int_ge; [done|].
    eapply line_above_min; [exact Hmm|exact Hlt| |exact Hfit].
    apply Qle_trans with (inject_Z (Py.int TF)); [|done].
    rewrite <- Zle_Qle. lia. }
  split; [done|]. intros Hwhole.
  pose proof (int_below _ _ Hmin
                (exact_line_at_flowering _ _ _ _ _ Hlt Hwhole Hfit)).
  lia.
Qed.

(** So with the exact line, a whole flowering date after the bolting date
    and fewer axes than [max_axes_number - min_axes_number], the call
    raises. *)
Lemma exact_line_too_few_axes max_axes min_axes em TB TF :
  (TB < TF)%Q -> (inject_Z (Py.int TF) == TF)%Q ->
  Z.of_nat (length em) < max_axes - min_axes ->
  Tools.decide_time_of_death Tools.polyfit1 max_axes min_axes em TB TF
  = None.
Proof.
  intros Hlt Hwhole Hfew.
  destruct (Tools.decide_time_of_death _ _ _ _ _ _) as [l|] eqn:E; [|done].
  exfalso. destruct (exact_line_deaths _ _ _ _ _ _ Hlt E) as [_ Heq].
  destruct (result_length _ _ _ _ _ _ _ E) as [_ Hle].
  specialize (Heq Hwhole). lia.
Qed.

End DeathTheorems.

Lemma decide_time_of_death_returns_witness :
  is_Some (Tools.decide_time_of_death Tools.polyfit1 4 2
             [0%Q; 5%Q; 5%Q; 3%Q] 100 110).
Proof.
  apply (decide_time_of_death_returns Tools.polyfit1 4 2
           [0%Q; 5%Q; 5%Q; 3%Q] 100 110 [- (2 # 10); 240 # 10]%Q).
  - lia.
  - split; by vm_compute.
  - by vm_compute.
  - intros tt Htt.
    change (Py.int 100) with 100 in Htt. change (Py.int 110) with 110 in Htt.
    assert (Hcases : tt = 100 \/ tt = 101 \/ tt = 102 \/ tt = 103 \/ tt = 104
                     \/ tt = 105 \/ tt = 106 \/ tt = 107 \/ tt = 108
                     \/ tt = 109 \/ tt = 110) by lia.
    repeat (destruct Hcases as [->|Hcases]; [by vm_compute|]).
    subst tt. by vm_compute.
Defined.

Lemma too_few_axes_raises_witness :
  Tools.decide_time_of_death Tools.polyfit1 10 2 [0%Q; 5%Q] 100 110 = None.
Proof.
  apply (too_few_axes_raises Tools.polyfit1 10 2 [0%Q; 5%Q] 100 110).
  - intros coefs Hfit. vm_compute in Hfit. injection Hfit as <-.
    by vm_compute.
  - cbn. lia.
Defined.

Lemma death_list_length_witness :
  length [None; Some 106; Some 101; None] = length [0%Q; 5%Q; 5%Q; 3%Q]
  /\ le (length (resolved [None; Some 106; Some 101; None]))
        (length [0%Q; 5%Q; 5%Q; 3%Q]).
Proof.
  apply (death_list_length Tools.polyfit1 4 2 [0%Q; 5%Q; 5%Q; 3%Q] 100 110).
  by vm_compute.
Defined.

Lemma deaths_number_witness :
  4 - Z.max 0 (Py.int (Tools.polyval [- (2 # 10); 240 # 10]%Q
                         (inject_Z (Py.int 110))))
  <= Z.of_nat (length (resolved [None; Some 106; Some 101; None]))
  /\ forall m : Z,
       m <= 4 ->
       (forall tt, Py.int 100 <= tt <= Py.int 110 ->
          m <= Py.int (Tools.polyval [- (2 # 10); 240 # 10]%Q (inject_Z tt))) ->
       Z.of_nat (length (resolved [None; Some 106; Some 101; None])) <= 4 - m.
Proof.
  apply (deaths_number Tools.polyfit1 4 2 [0%Q; 5%Q; 5%Q; 3%Q] 100 110).
  - by vm_compute.
  - by vm_compute.
Defined.

(** ** decide_time_of_death: which axes die *)

Section DeathOrder.

Lemma em_leb_spec (a b : Q * nat) :
  Is_true (Tools.em_leb a b)
  <-> (a.1 < b.1)%Q \/ ((a.1 == b.1)%Q /\ (a.2 <= b.2)%nat).
Proof.
  unfold Tools.em_leb. destruct (a.1 ?= b.1)%Q eqn:E.
  - apply Qeq_alt in E. rewrite Is_true_true, Nat.leb_le. split.
    + intros. right. done.
    + intros [Hlt|[_ ?]]; [lra|done].
  - apply Qlt_alt in E. split; [by left|done].
  - apply Qgt_alt in E. split; [done|]. intros [?|[? _]]; lra.
Qed.

Lemma stop_leb_spec (a b : nat * Z) :
  Is_true (Tools.stop_leb a b)
  <-> (a.1 < b.1)%nat \/ (a.1 = b.1 /\ a.2 <= b.2).
Proof.
  unfold Tools.stop_leb. destruct (Nat.compare_spec a.1 b.1) as [E|E|E].
  - rewrite Is_true_true, Z.leb_le. split; [by right|].
    intros [?|[_ ?]]; [lia|done].
  - split; [by left|done].
  - split; [done|]. intros [?|[? _]]; lia.
Qed.

Lemma em_le_total :
  Total (fun a b : Q * nat => Is_true (Tools.em_leb a b)).
Proof.
  intros a b. rewrite !em_leb_spec.
  destruct (Q_dec a.1 b.1) as [[?|?]|Heq]; [by left; left|by right; left|].
  destruct (Nat.le_ge_cases a.2 b.2); [left|right]; right; split;
    [done|done|by symmetry|done].
Qed.

Lemma em_le_trans :
  Transitive (fun a b : Q * nat => Is_true (Tools.em_leb a b)).
Proof.
  intros a b c. rewrite !em_leb_spec.
  intros [H1|[H1 H1']] [H2|[H2 H2']].
  - left. lra.
  - left. lra.
  - left. lra.
  - right. split; [lra|lia].
Qed.

Lemma stop_le_total :
  Total (fun a b : nat * Z => Is_true (Tools.stop_leb a b)).
Proof. intros a b. rewrite !stop_leb_spec. lia. Qed.

Lemma stop_le_trans :
  Transitive (fun a b : nat * Z => Is_true (Tools.stop_leb a b)).
Proof. intros a b c. rewrite !stop_leb_spec. lia. Qed.

Lemma stops_strictly_sorted (stops : list (nat * Z)) :
  StronglySorted (fun a b => Is_true (Tools.stop_leb a b)) stops ->
  NoDup stops.*1 ->
  StronglySorted (fun a b : nat * Z => (a.1 < b.1)%nat) stops.
Proof.
  induction 1 as [|a l Hl IH Ha]; [constructor|].
  rewrite fmap_cons. intros [Hnotin Hnd]%NoDup_cons.
  constructor; [by apply IH|].
  apply Forall_forall. intros b Hb.
  rewrite Forall_forall in Ha. pose proof (Ha b Hb) as Hab.
  apply stop_leb_spec in Hab.
  assert (a.1 <> b.1).
  { intros Heq. apply Hnotin. rewrite Heq. by apply list_elem_of_fmap_2. }
  lia.
Qed.

Lemma list_insert_app {A} (pre rest : list A) (x : A) :
  Py.list_insert (length pre) x (pre ++ rest) = pre ++ x :: rest.
Proof.
  unfold Py.list_insert.
  by rewrite take_app_length, drop_app_length.
Qed.

(** The final loop puts each death time at the row of its axis. *)
Lemma fill_loop (all_rows : list nat) (m : nat) :
  forall (pre : list (option Z)) (rest : list (nat * Z)) (j : nat),
    length pre = j ->
    StronglySorted (fun a b : nat * Z => (a.1 < b.1)%nat) rest ->
    Forall (fun a : nat * Z => (j <= a.1 < j + m)%nat) rest ->
    (forall i, (j <= i)%nat -> i ∈ all_rows <-> i ∈ rest.*1) ->
    foldl (fun l i => if decide (i ∈ all_rows) then l
                      else Py.list_insert i None l)
          (pre ++ ((fun t => Some t.2) <$> rest)) (seq j m)
    = pre ++ ((fun i => (list_to_map rest : gmap nat Z) !! i) <$> seq j m).
Proof.
  induction m as [|m IH]; intros pre rest j Hpre Hsorted Hrange Hrows.
  - destruct rest as [|a rest]; [done|].
    apply Forall_cons in Hrange as [? _]. lia.
  - cbn [seq foldl]. rewrite fmap_cons.
    destruct (decide (j ∈ rest.*1)) as [Hin|Hout].
    + destruct rest as [|[r t] rest]; [by apply elem_of_nil in Hin|].
      apply StronglySorted_inv in Hsorted as [Hsorted Hhead].
      apply Forall_cons in Hrange as [Hr Hrange]. cbn [fst] in Hr.
      assert (r = j) as ->.
      { rewrite fmap_cons in Hin. apply elem_of_cons in Hin as [->|Hin]; [done|].
        apply list_elem_of_fmap in Hin as (b & -> & Hb).
        rewrite Forall_forall in Hhead. specialize (Hhead b Hb).
        cbn [fst] in Hhead. lia. }
      rewrite decide_True by (apply Hrows; [lia|rewrite fmap_cons; apply list_elem_of_here]).
      rewrite fmap_cons. cbn [snd].
      rewrite (cons_middle (Some t)), app_assoc.
      rewrite (IH (pre ++ [Some t]) rest (S j)).
      * rewrite <- app_assoc. cbn [app]. rewrite list_to_map_cons.
        rewrite lookup_insert_eq. do 2 f_equal.
        apply list_fmap_ext. intros k i Hi.
        apply lookup_seq in Hi as [-> _].
        by rewrite lookup_insert_ne by lia.
      * rewrite length_app. simpl. lia.
      * done.
      * apply Forall_forall. intros b Hb.
        rewrite Forall_forall in Hhead, Hrange.
        specialize (Hhead b Hb). specialize (Hrange b Hb).
        cbn [fst] in Hhead. lia.
      * intros i Hi. rewrite Hrows by lia. rewrite fmap_cons, elem_of_cons.
        cbn [fst]. split; [intros [?|?]; [lia|done]|by right].
    + rewrite decide_False by (rewrite Hrows by lia; done).
      rewrite <- Hpre at 1. rewrite list_insert_app.
      rewrite (cons_middle None), app_assoc.
      rewrite (IH (pre ++ [None]) rest (S j)).
      * rewrite <- app_assoc. cbn [app]. do 2 f_equal.
        symmetry. by apply not_elem_of_list_to_map.
      * rewrite length_app. simpl. lia.
      * done.
      * apply Forall_forall. intros b Hb.
        rewrite Forall_forall in Hrange. specialize (Hrange b Hb).
        assert (b.1 <> j).
        { intros <-. apply Hout. by apply list_elem_of_fmap_2. }
        lia.
      * intros i Hi. apply Hrows. lia.
Qed.

Lemma fill_nan_lookup (stops : list (nat * Z)) (n i : nat) :
  StronglySorted (fun a b : nat * Z => (a.1 < b.1)%nat) stops ->
  Forall (fun a : nat * Z => (a.1 < n)%nat) stops ->
  (i < n)%nat ->
  Tools.fill_nan stops.*1 ((fun t => Some t.2) <$> stops) n !! i
  = Some ((list_to_map stops : gmap nat Z) !! i).
Proof.
  intros Hsorted Hlt Hi. unfold Tools.fill_nan.
  rewrite (fill_loop stops.*1 n [] stops 0%nat); [|done|done| |done].
  - cbn [app]. rewrite list_lookup_fmap, lookup_seq_lt by done. done.
  - eapply Forall_impl; [exact Hlt|]. intros a Ha. cbv beta in *. lia.
Qed.

Lemma elem_of_zip_seq (em : list Q) (e : Q) (i : nat) :
  (e, i) ∈ zip em (seq 0 (length em)) <-> em !! i = Some e.
Proof.
  rewrite list_elem_of_lookup. split.
  - intros [k Hk].
    apply lookup_zip_with_Some in Hk as (e' & i' & [= <- <-] & He & Hi).
    apply lookup_seq in Hi as [-> _]. done.
  - intros Hi. exists i. apply lookup_zip_with_Some. exists e, i.
    split; [done|]. split; [done|]. apply lookup_seq.
    split; [done|]. by eapply lookup_lt_Some.
Qed.

Lemma nan_rows_emerged_first polyfit max_axes min_axes em TB TF l i j t
    ei ej :
  Tools.decide_time_of_death polyfit max_axes min_axes em TB TF = Some l ->
  l !! i = Some (Some t) -> l !! j = Some None ->
  em !! i = Some ei -> em !! j = Some ej ->
  (ej <= ei)%Q /\ ((ej == ei)%Q -> (j < i)%nat).
Proof.
  intros (coefs & st & popped & _ & _ & _ & Hem & Hstop & _ & ->)
    %decide_time_of_death_Some Hi Hj Hei Hej.
  destruct (popped_rows em _ _ Hem) as (Hnd & Hlt & _).
  set (stops := merge_sort (fun a b => Is_true (Tools.stop_leb a b))
                           (Tools.T_stop_axis_tuples st)) in *.
  assert (Hperm : stops.*1 ≡ₚ popped.*2).
  { unfold stops. by rewrite merge_sort_Permutation, Hstop. }
  assert (Hsorted : StronglySorted (fun a b : nat * Z => (a.1 < b.1)%nat) stops).
  { apply stops_strictly_sorted;
      [apply StronglySorted_merge_sort;
       [apply stop_le_trans|apply stop_le_total]|].
    by rewrite Hperm. }
  assert (Hrange : Forall (fun a : nat * Z => (a.1 < length em)%nat) stops).
  { apply Forall_forall. intros a Ha. apply Hlt. rewrite <- Hperm.
    by apply list_elem_of_fmap_2. }
  rewrite fill_nan_lookup in Hi, Hj
    by (done || by eapply lookup_lt_Some).
  injection Hi as Hi. injection Hj as Hj.
  assert (Hip : i ∈ popped.*2).
  { rewrite <- Hperm. apply elem_of_list_to_map_2 in Hi.
    by apply (list_elem_of_fmap_2' fst _ (i, t)). }
  assert (Hjp : j ∉ popped.*2).
  { rewrite <- Hperm. by apply not_elem_of_list_to_map. }
  set (tuples := merge_sort (fun a b => Is_true (Tools.em_leb a b))
                            (zip em (seq 0 (length em)))) in *.
  assert (Hin : forall e k, (e, k) ∈ tuples <-> em !! k = Some e).
  { intros e k. unfold tuples. rewrite merge_sort_Permutation.
    apply elem_of_zip_seq. }
  assert (Hjrest : (ej, j) ∈ Tools.T_em_leaf1_tuples st).
  { apply Hin in Hej. rewrite Hem in Hej.
    apply elem_of_app in Hej as [?|Hej]; [done|].
    exfalso. apply Hjp. rewrite elem_of_reverse in Hej.
    by apply (list_elem_of_fmap_2' snd _ (ej, j)). }
  assert (Hipop : (ei, i) ∈ reverse popped).
  { apply list_elem_of_fmap in Hip as ([e' k] & -> & He').
    cbn [snd]. rewrite elem_of_reverse.
    assert (em !! k = Some e') as Hk.
    { apply Hin. rewrite Hem. apply elem_of_app. right.
      by rewrite elem_of_reverse. }
    cbn [snd] in Hei. rewrite Hei in Hk. by injection Hk as ->. }
  assert (Hs : StronglySorted (fun a b => Is_true (Tools.em_leb a b)) tuples).
  { apply StronglySorted_merge_sort; [apply em_le_trans|apply em_le_total]. }
  rewrite Hem in Hs.
  pose proof (StronglySorted_app_1_elem_of _ _ _ _ _ Hs Hjrest Hipop) as Hle.
  apply em_leb_spec in Hle. cbn [fst snd] in Hle.
  assert (i <> j) by (intros ->; done).
  destruct Hle as [Hlt'|[Heq Hle]]; split; try lra; intros; try lra; lia.
Qed.

(** X20. [decide_time_of_death] removes the axes that emerged last,
    whatever the fitted line: an axis that dies emerged no earlier than any
    axis that survives, and at equal emergence dates it is the one of
    larger index. *)
Theorem last_emerged_die_first polyfit max_axes min_axes em TB TF l i j t
    ei ej :
  Tools.decide_time_of_death polyfit max_axes min_axes em TB TF = Some l ->
  l !! i = Some (Some t) -> l !! j = Some None ->
  em !! i = Some ei -> em !! j = Some ej ->
  (ej <= ei)%Q /\ ((ej == ei)%Q -> (j < i)%nat).
Proof. apply nan_rows_emerged_first. Qed.

End DeathOrder.

Lemma last_emerged_die_first_witness :
  (3 <= 5)%Q /\ ((3 == 5)%Q -> lt 3 1).
Proof.
  apply (last_emerged_die_first Tools.polyfit1 4 2 [0%Q; 5%Q; 5%Q; 3%Q]
           100 110 [None; Some 106; Some 101; None] 1%nat 3%nat 106 5%Q 3%Q).
  - by vm_compute.
  - reflexivity.
  - reflexivity.
  - reflexivity.
  - reflexivity.
Defined.

(** ** fit_poly with two samples or more *)

Section FitPolyMore.
Context `{Tools.Numerics}.

Lemma squares_nonneg (fvec : list Q) :
  (0 <= Py.fsum ((fun e => (e * e)%Q) <$> fvec))%Q.
Proof.
  apply fsum_nonneg, Forall_fmap, Forall_forall. intros e _. unfold compose. cbv beta.
  nra.
Qed.

(** X21. With two samples or more, [fit_poly] returns whenever [leastsq]
    does, with the parameter that [leastsq] found and a finite RMSE, the
    square root of the sum of the squared residuals over [n - 1]. *)
Theorem fit_poly_rmse_finite (x y fixed_coefs : list Q) (a0 p : Q)
    (fvec : list Q) :
  (2 <= length x)%nat ->
  Tools.leastsq (Tools.residuals fixed_coefs y x) a0 = Some (p, fvec) ->
  Tools.fit_poly x y fixed_coefs a0
  = Some (p, Tools.Finite
               (Tools.sqrt_float
                  (Py.fsum ((fun e => (e * e)%Q) <$> fvec)
                   / inject_Z (Z.of_nat (length x) - 1)))).
Proof.
  intros Hlen Hfit. unfold Tools.fit_poly. rewrite Hfit. simpl.
  unfold Tools.np_div. rewrite decide_False by lia.
  unfold Tools.np_sqrt.
  assert (Hq : (0 <= Py.fsum ((fun e => (e * e)%Q) <$> fvec)
                     / inject_Z (Z.of_nat (length x) - 1))%Q).
  { apply Qle_shift_div_l.
    - change 0%Q with (inject_Z 0). rewrite <- Zlt_Qlt. lia.
    - rewrite Qmult_0_l. apply squares_nonneg. }
  apply Qle_bool_iff in Hq. by rewrite Hq.
Qed.

End FitPolyMore.

Lemma fit_poly_rmse_finite_witness :
  @Tools.fit_poly Tools.ideal_numerics [1%Q; 2%Q] [8%Q; 11%Q] [5%Q] 1%Q
  = Some ((15 # 5)%Q,
          Tools.Finite
            (@Tools.sqrt_float Tools.ideal_numerics
               (Py.fsum ((fun e => (e * e)%Q) <$> [0 # 5; 0 # 5]%Q)
                / inject_Z (Z.of_nat (length [1%Q; 2%Q]) - 1)))).
Proof.
  apply (@fit_poly_rmse_finite Tools.ideal_numerics [1%Q; 2%Q] [8%Q; 11%Q]
           [5%Q] 1%Q (15 # 5)%Q [0 # 5; 0 # 5]%Q).
  - cbn. lia.
  - by vm_compute.
Defined.

(** ** axeT_user *)

Section TableFacts.
Implicit Types (plants : list (gmap string (Z * Z))).

Lemma zip_star_0 (values : list (Z * Z)) :
  Ext.zip_star values !! 0%nat
  = if decide (values = []) then None else Some values.*1.
Proof. by destruct values. Qed.

Lemma zip_star_1 (values : list (Z * Z)) :
  Ext.zip_star values !! 1%nat
  = if decide (values = []) then None else Some values.*2.
Proof. by destruct values. Qed.

Lemma values_nil (x : gmap string (Z * Z)) :
  (map_to_list x).*2 = [] <-> x = ∅.
Proof.
  rewrite <- map_to_list_empty_iff. split; [|by intros ->].
  by destruct (map_to_list x).
Qed.

Lemma columns_Some plants :
  Forall (fun x => x <> ∅) plants ->
  mapM (fun x => Ext.zip_star (map_to_list x).*2 !! 0%nat) plants
  = Some ((fun x => (map_to_list x).*2.*1) <$> plants)
  /\ mapM (fun x => Ext.zip_star (map_to_list x).*2 !! 1%nat) plants
     = Some ((fun x => (map_to_list x).*2.*2) <$> plants).
Proof.
  intros Hne. split; apply mapM_Some_2, Forall2_fmap_r, Forall_Forall2_diag;
    (eapply Forall_impl; [exact Hne|]); intros x Hx; cbv beta.
  - rewrite zip_star_0, decide_False; [done|]. by rewrite values_nil.
  - rewrite zip_star_1, decide_False; [done|]. by rewrite values_nil.
Qed.

Lemma columns_None plants :
  ∅ ∈ plants ->
  mapM (fun x => Ext.zip_star (map_to_list x).*2 !! 0%nat) plants = None.
Proof.
  intros Hin. apply mapM_None_2, Exists_exists. exists ∅.
  split; [done|]. by rewrite map_to_list_empty.
Qed.


Lemma plant_rows (plt : Z) (l : list (string * (Z * Z))) :
  zip_with (fun '(plt, axis) '(cohort, nff) =>
              {| Ext.id_plt := plt; Ext.id_cohort := cohort;
                 Ext.id_axis := axis; Ext.N_phytomer_potential := nff;
                 Ext.id_phen := cohort * 100 + nff |})
           (zip (replicate (length l) plt) l.*1) (zip l.*2.*1 l.*2.*2)
  = (fun kv => axis_row plt kv.1 kv.2) <$> l.
Proof.
  induction l as [|[name [c n]] l IH]; [done|].
  cbn [length replicate fmap list_fmap zip_with fst snd]. f_equal. exact IH.
Qed.

Lemma table_rows (k : nat) plants :
  zip_with (fun '(plt, axis) '(cohort, nff) =>
              {| Ext.id_plt := plt; Ext.id_cohort := cohort;
                 Ext.id_axis := axis; Ext.N_phytomer_potential := nff;
                 Ext.id_phen := cohort * 100 + nff |})
           (zip (Ext.flat_list
                   (imap (fun i x => replicate (size x) (Z.of_nat (k + i) + 1))
                         plants))
                (Ext.flat_list ((fun x => (map_to_list x).*1) <$> plants)))
           (zip (Ext.flat_list ((fun x => (map_to_list x).*2.*1) <$> plants))
                (Ext.flat_list ((fun x => (map_to_list x).*2.*2) <$> plants)))
  = rows_from k plants.
Proof.
  revert k. induction plants as [|x rest IH]; intros k; [done|].
  rewrite imap_cons, !fmap_cons. unfold Ext.flat_list in *.
  cbn [List.concat rows_from].
  rewrite !zip_with_app
    by (rewrite ?length_zip_with, ?length_replicate, ?length_fmap,
                ?length_map_to_list; lia).
  f_equal.
  - rewrite Nat.add_0_r, <- length_map_to_list. apply plant_rows.
  - rewrite <- (IH (S k)). do 3 f_equal. apply imap_ext.
    intros i y _. simpl. do 3 f_equal. lia.
Qed.

Lemma elem_of_rows_from (k : nat) plants (row : Ext.axeT_row) :
  row ∈ rows_from k plants
  <-> exists i x name d,
        plants !! i = Some x /\ x !! name = Some d
        /\ row = axis_row (Z.of_nat (k + i) + 1) name d.
Proof.
  revert k. induction plants as [|x rest IH]; intros k.
  - cbn. split; [by intros ?%elem_of_nil|]. by intros (i & ? & ? & ? & ? & _).
  - cbn [rows_from]. rewrite elem_of_app, IH, list_elem_of_fmap. split.
    + intros [([name d] & -> & Hin)|(i & y & name & d & Hi & Hd & ->)].
      * apply elem_of_map_to_list in Hin.
        exists 0%nat, x, name, d. rewrite Nat.add_0_r. done.
      * exists (S i), y, name, d. split; [done|]. split; [done|].
        do 3 f_equal. lia.
    + intros ([|i] & y & name & d & Hi & Hd & ->).
      * left. injection Hi as <-. exists (name, d).
        rewrite Nat.add_0_r. split; [done|]. by apply elem_of_map_to_list.
      * right. exists i, y, name, d. split; [done|]. split; [done|].
        do 3 f_equal. lia.
Qed.

Lemma length_rows_from (k : nat) plants :
  length (rows_from k plants) = axes_number plants.
Proof.
  revert k. unfold axes_number.
  induction plants as [|x rest IH]; intros k; [done|].
  cbn [rows_from]. rewrite length_app, length_fmap, length_map_to_list, IH.
  done.
Qed.

Lemma axeT_user_Some plants :
  Forall (fun x => x <> ∅) plants ->
  Ext.axeT_user plants
  = Some (merge_sort (fun a b => Is_true (Ext.row_leb a b))
                     (rows_from 0 plants)).
Proof.
  intros Hne. unfold Ext.axeT_user.
  destruct (columns_Some plants Hne) as [-> ->].
  cbn [fmap option_fmap option_map mbind option_bind].
  do 2 f_equal. apply (table_rows 0).
Qed.

Lemma row_le_total :
  Total (fun a b : Ext.axeT_row => Is_true (Ext.row_leb a b)).
Proof.
  intros a b. unfold Ext.row_leb.
  rewrite (Z.compare_antisym (Ext.id_plt a) (Ext.id_plt b)).
  rewrite (Z.compare_antisym (Ext.id_cohort a) (Ext.id_cohort b)).
  destruct (Ext.id_plt a ?= Ext.id_plt b); cbn; auto.
  destruct (Ext.id_cohort a ?= Ext.id_cohort b); cbn; auto.
  destruct (String.leb_total (Ext.id_axis a) (Ext.id_axis b)) as [->| ->];
    auto.
Qed.

Lemma sorted_table_rows plants rows :
  Ext.axeT_user plants = Some rows ->
  Forall (fun x => x <> ∅) plants
  /\ length rows = axes_number plants
  /\ Sorted (fun a b => Is_true (Ext.row_leb a b)) rows
  /\ forall row,
       row ∈ rows
       <-> exists i x name d,
             plants !! i = Some x /\ x !! name = Some d
             /\ row = axis_row (Z.of_nat i + 1) name d.
Proof.
  intros Hrows.
  assert (Hne : Forall (fun x => x <> ∅) plants).
  { apply Forall_forall. intros x Hx ->.
    unfold Ext.axeT_user in Hrows. by rewrite (columns_None plants Hx) in Hrows. }
  rewrite (axeT_user_Some plants Hne) in Hrows. injection Hrows as <-.
  split; [done|]. split.
  { by rewrite (Permutation_length (merge_sort_Permutation _ _)),
               length_rows_from. }
  split; [apply Sorted_merge_sort, row_le_total|].
  intros row. rewrite merge_sort_Permutation. apply (elem_of_rows_from 0).
Qed.

End TableFacts.

(** X22. [axeT_user] raises ([IndexError], on the first column of the
    transposed values) exactly when one of the plants has no axis. *)
Theorem axeT_user_raises_iff (plants : list (gmap string (Z * Z))) :
  Ext.axeT_user plants = None <-> ∅ ∈ plants.
Proof.
  split.
  - intros Hnone.
    destruct (decide (∅ ∈ plants)) as [|Hout]; [done|].
    rewrite axeT_user_Some in Hnone; [done|].
    apply Forall_forall. by intros x Hx ->.
  - intros Hin. unfold Ext.axeT_user. by rewrite (columns_None plants Hin).
Qed.

(** X23. The table of [axeT_user] has one row per axis of each plant,
    with the plant numbered from one, the cohort and the number of
    phytomers of the axis and [id_phen = id_cohort * 100 +
    N_phytomer_potential]; the rows are sorted by plant, cohort and axis
    name. *)
Theorem axeT_user_rows (plants : list (gmap string (Z * Z)))
    (rows : list Ext.axeT_row) :
  Ext.axeT_user plants = Some rows ->
  length rows = axes_number plants
  /\ Sorted (fun a b => Is_true (Ext.row_leb a b)) rows
  /\ forall row,
       row ∈ rows
       <-> exists i x name d,
             plants !! i = Some x /\ x !! name = Some d
             /\ row = axis_row (Z.of_nat i + 1) name d.
Proof. intros H. by apply sorted_table_rows in H as (_ & ? & ? & ?). Qed.

(** X24. [axeT_user] raises on the plants that [plant_list] returns for
    a list of fewer axes than plants: one plant at least is empty. *)
Theorem table_of_short_axis_list_raises (choice : nat -> nat)
    (axis : list Ext.axe) (nplants : Z) (s : nat)
    (plants : list (gmap string (Z * Z))) :
  Ext.plant_list choice axis nplants s = Some plants ->
  (length axis < Z.to_nat nplants)%nat ->
  Ext.axeT_user plants = None.
Proof.
  unfold Ext.plant_list.
  destruct (Ext.reduce_update _ _ _) as [[pl s']|] eqn:E; [simpl|done].
  intros [= ->] Hshort.
  apply reduce_update_counts in E as (Hlen & Hnum & _).
  rewrite length_replicate in Hlen.
  assert (H0 : axes_number (replicate (Z.to_nat nplants)
                              (∅ : gmap string (Z * Z))) = 0%nat).
  { clear. unfold axes_number. induction (Z.to_nat nplants) as [|k IH]; [done|].
    cbn [replicate]. rewrite fmap_cons.
    change (sum_list (?x :: ?l)) with (x + sum_list l)%nat.
    by rewrite map_size_empty. }
  rewrite H0 in Hnum. simpl in Hnum.
  destruct (Ext.axeT_user plants) as [rows|] eqn:Erows; [exfalso|done].
  apply sorted_table_rows in Erows as (Hne & _).
  assert (Hsize : (length plants <= axes_number plants)%nat).
  { clear -Hne. unfold axes_number.
    induction Hne as [|x l Hx Hl IH]; [done|].
    rewrite fmap_cons. cbn [length].
    change (sum_list (?x :: ?l)) with (x + sum_list l)%nat.
    assert (size x <> 0%nat) by (by intros ?%map_size_empty_inv). lia. }
  lia.
Qed.

Lemma axeT_user_rows_witness :
  exists rows,
    Ext.axeT_user [(list_to_map [("MS", (1, 11)); ("T1", (3, 9))] : gmap string (Z * Z));
                   (list_to_map [("MS", (1, 11))] : gmap string (Z * Z))]%string = Some rows
    /\ length rows
       = axes_number [(list_to_map [("MS", (1, 11)); ("T1", (3, 9))] : gmap string (Z * Z));
                      (list_to_map [("MS", (1, 11))] : gmap string (Z * Z))]%string
    /\ Sorted (fun a b => Is_true (Ext.row_leb a b)) rows
    /\ forall row,
         row ∈ rows
         <-> exists i x name d,
               [(list_to_map [("MS", (1, 11)); ("T1", (3, 9))] : gmap string (Z * Z));
                (list_to_map [("MS", (1, 11))] : gmap string (Z * Z))]%string !! i = Some x
               /\ x !! name = Some d
               /\ row = axis_row (Z.of_nat i + 1) name d.
Proof.
  eexists. split; [by vm_compute|].
  apply (axeT_user_rows
           [(list_to_map [("MS", (1, 11)); ("T1", (3, 9))] : gmap string (Z * Z));
            (list_to_map [("MS", (1, 11))] : gmap string (Z * Z))]%string).
  by vm_compute.
Defined.

Lemma table_of_short_axis_list_raises_witness :
  exists plants,
    Ext.plant_list (fun _ => 1%nat) [(1, 11, "MS")]%string 2 0 = Some plants
    /\ Ext.axeT_user plants = None.
Proof.
  eexists. split; [by vm_compute|].
  apply (table_of_short_axis_list_raises (fun _ => 1%nat)
           [(1, 11, "MS")]%string 2 0%nat).
  - by vm_compute.
  - cbn. lia.
Defined.

(** ** axis_list *)

Section AxisListFacts.

Lemma getitem_elem {K V} `{EqDecision K} (d : list (K * V)) k v :
  NoDup d.*1 -> (k, v) ∈ d -> Py.getitem d k = Some v.
Proof.
  induction d as [|[k0 v0] d IH]; [by intros _ ?%elem_of_nil|].
  rewrite fmap_cons. intros [Hk0 Hnd]%NoDup_cons. cbn [Py.getitem].
  intros [[= -> ->]|Hin]%elem_of_cons.
  - by rewrite decide_True.
  - rewrite decide_False; [by apply IH|].
    intros ->. apply Hk0. by apply (list_elem_of_fmap_2' fst _ (k, v)).
Qed.

Lemma mapM_exists {A B} (f : A -> option B) (R : A -> B -> Prop)
    (l : list A) :
  (forall x, x ∈ l -> exists y, f x = Some y /\ R x y) ->
  exists k, mapM f l = Some k /\ Forall2 R l k.
Proof.
  induction l as [|x l IH]; intros Hf.
  - exists []. split; [done|constructor].
  - destruct (Hf x (list_elem_of_here _ _)) as (y & Hy & HR).
    destruct IH as (k & Hk & HF).
    { intros z Hz. apply Hf. by apply list_elem_of_further. }
    exists (y :: k). split; [|by constructor].
    cbn. rewrite Hy. cbn. by rewrite Hk.
Qed.

Lemma round_nonneg (x : Q) : (0 <= x)%Q -> 0 <= Py.round x.
Proof.
  intros Hx. unfold Py.round. apply Qle_bool_iff in Hx as Hb. rewrite Hb.
  change 0 with (Qfloor 0). apply Qfloor_resp_le. lra.
Qed.

Lemma length_expand {K} (v : list (K * Z)) :
  Forall (fun kc => 0 < kc.2) v ->
  Z.of_nat (length (Ext.expand v)) = Py.sum v.*2.
Proof.
  unfold Ext.expand, Ext.flat_list.
  induction 1 as [|[k c] v Hc Hv IH]; [done|].
  rewrite !fmap_cons, sum_cons. cbn [List.concat fst snd] in *.
  rewrite length_app, length_replicate, Nat2Z.inj_add, IH. lia.
Qed.

Lemma fsum_scale (v : list (string * Q)) (s : Q) :
  (Py.fsum ((fun a : string * Q => (a.1, (a.2 / s)%Q)) <$> v).*2
   == Py.fsum v.*2 / s)%Q.
Proof.
  induction v as [|[k x] v IH].
  - cbn. unfold Qdiv. ring.
  - rewrite !fmap_cons, !fsum_cons. cbn [fst snd]. rewrite IH.
    unfold Qdiv. ring.
Qed.

Lemma normalised_distribution (v : list (string * Q)) :
  NoDup v.*1 -> Forall (fun a => (0 <= a.2)%Q) v ->
  (0 < Py.fsum v.*2)%Q ->
  let w := (fun a : string * Q => (a.1, (a.2 / Py.fsum v.*2)%Q)) <$> v in
  NoDup w.*1 /\ Forall (fun a => (0 <= a.2)%Q) w /\ (Py.fsum w.*2 == 1)%Q.
Proof.
  intros Hnd Hpos Hs w. split_and!.
  - unfold w. by rewrite <- list_fmap_compose.
  - unfold w. apply Forall_fmap. eapply Forall_impl; [exact Hpos|].
    intros [k x] Hx. cbn [snd compose fst] in *.
    apply Qle_shift_div_l; [done|]. lra.
  - unfold w. rewrite fsum_scale. field. lra.
Qed.

End AxisListFacts.

Section AxisListCount.

Lemma Forall2_compose {A B C} (R : A -> B -> Prop) (S : B -> C -> Prop)
    (T : A -> C -> Prop) (l : list A) (k : list B) (m : list C) :
  (forall x y z, R x y -> S y z -> T x z) ->
  Forall2 R l k -> Forall2 S k m -> Forall2 T l m.
Proof.
  intros HT HR. revert m. induction HR as [|x y l k Hxy HR IH]; intros m HS.
  - inversion HS. constructor.
  - inversion HS as [|? z ? m' Hyz HS']; subst. constructor; eauto.
Qed.

Lemma Forall2_elem_l {A B} (R : A -> B -> Prop) (l : list A) (k : list B) x :
  Forall2 R l k -> x ∈ l -> exists y, y ∈ k /\ R x y.
Proof.
  intros HR [i Hi]%list_elem_of_lookup.
  destruct (Forall2_lookup_l _ _ _ _ _ HR Hi) as (y & Hy & HRy).
  exists y. split; [by eapply list_elem_of_lookup_2|done].
Qed.

Lemma Forall2_elem_r {A B} (R : A -> B -> Prop) (l : list A) (k : list B) y :
  Forall2 R l k -> y ∈ k -> exists x, x ∈ l /\ R x y.
Proof.
  intros HR [i Hi]%list_elem_of_lookup.
  destruct (Forall2_lookup_r _ _ _ _ _ HR Hi) as (x & Hx & HRx).
  exists x. split; [by eapply list_elem_of_lookup_2|done].
Qed.

Lemma Forall2_keys {A B} (f : A -> Z) (g : B -> Z) (l : list A) (k : list B) :
  Forall2 (fun x y => g y = f x) l k -> g <$> k = f <$> l.
Proof. induction 1 as [|x y l k Hxy _ IH]; [done|]. rewrite !fmap_cons. by f_equal. Qed.

(** The axes of one cohort in the dict of probabilities. *)
Lemma cohort_axes_values (p : list (Z * string * Q)) (c : Z) :
  (snd <$> filter (fun a : Z * (string * Q) => a.1 = c)
             ((fun kv : Z * string * Q => (kv.1.1, (kv.1.2, kv.2))) <$> p))
  = (fun kv : Z * string * Q => (kv.1.2, kv.2))
      <$> filter (fun kv : Z * string * Q => kv.1.1 = c) p.
Proof.
  induction p as [|[[c0 a0] v0] p IH]; [done|].
  rewrite fmap_cons, !filter_cons. cbn [fst snd].
  destruct (decide (c0 = c)); [rewrite !fmap_cons; cbn [fst snd]|]; by rewrite IH.
Qed.

Lemma cohort_axes_NoDup (p : list (Z * string * Q)) (c : Z) :
  NoDup p.*1 ->
  NoDup ((fun kv : Z * string * Q => kv.1.2)
           <$> filter (fun kv : Z * string * Q => kv.1.1 = c) p).
Proof.
  induction p as [|[[c0 a0] v0] p IH]; [constructor|].
  rewrite fmap_cons. intros [Hk Hnd]%NoDup_cons. rewrite filter_cons.
  cbn [fst snd] in *. destruct (decide (c0 = c)) as [->|]; [|by apply IH].
  rewrite fmap_cons. apply NoDup_cons. split; [|by apply IH].
  cbn [fst snd]. intros ([[c1 a1] v1] & Ha & [Hc Hin]%list_elem_of_filter)
                   %list_elem_of_fmap.
  cbn [fst snd] in *. subst. apply Hk.
  by apply (list_elem_of_fmap_2' fst _ (c, a1, v1)).
Qed.

End AxisListCount.

Lemma axis_list_blocks (emited : list (Z * Q * Q))
    (p : list (Z * string * Q)) (nplants : Z) :
  NoDup emited.*1.*1 ->
  Forall (fun row : Z * Q * Q => (0 <= row.1.2)%Q /\ (0 <= row.2)%Q) emited ->
  0 <= nplants ->
  NoDup p.*1 ->
  Forall (fun kv : Z * string * Q => (0 <= kv.2)%Q) p ->
  (forall c, c ∈ p.*1.*1 -> (0 < cohort_mass p c)%Q) ->
  emited.*1.*1 ⊆ p.*1.*1 ->
  exists blocks : list (list (Z * Z * string)),
    Ext.axis_list emited p nplants = Some (List.concat blocks)
    /\ Forall2 (fun (row : Z * Q * Q) block =>
                  Z.of_nat (length block)
                  = Py.round (row.1.2 * inject_Z nplants)
                  /\ Forall (fun t : Z * Z * string => t.1.1 = row.1.1) block)
               emited blocks.
Proof.
  intros Hcohorts Hrows Hn Hkeys Hp Hmass Hcover.
  unfold Ext.axis_list. cbv zeta.
  (* cohort_modalities *)
  match goal with
  | |- context [mapM ?f ?l ≫= _] =>
      destruct (mapM_exists f
                  (fun (kv : Z * Z) (y : Z * list (Z * Z)) =>
                     y.1 = kv.1 /\ Py.sum y.2.*2 = kv.2
                     /\ Forall (fun kc => 0 < kc.2) y.2) l)
        as (cm & -> & Hcm)
  end.
  { intros kv ([[c ta] nff] & -> & Hrow)%list_elem_of_fmap. cbn [fst snd].
    rewrite Forall_forall in Hrows.
    destruct (Hrows _ Hrow) as [Hta Hnff]. cbn [fst snd] in Hta, Hnff.
    rewrite (getitem_elem _ c (Ext.modalities nff)).
    - cbn [mbind option_bind].
      destruct (modalities_distribution nff Hnff) as (Hnd & Hpos & Hsum).
      destruct (cardinalities_total_aux _
                  (Py.round (ta * inject_Z nplants)) Hnd Hpos Hsum)
        as (res & -> & Htot & Hres & _).
      { by apply round_nonneg, product_nonneg. }
      cbn [mbind option_bind]. eexists. split; [done|]. done.
    - replace (((fun '(c, _, nff) => (c, Ext.modalities nff)) <$> emited).*1)
        with (emited.*1.*1); [done|].
      rewrite <- !list_fmap_compose. apply list_fmap_ext.
      by intros i [[? ?] ?] _.
    - by apply (list_elem_of_fmap_2' _ _ (c, ta, nff)). }
  cbn [mbind option_bind].
  assert (Haxp : ((fun kv : Z * string * Q => (kv.1.1, (kv.1.2, kv.2)))
                    <$> p).*1 = p.*1.*1).
  { rewrite <- !list_fmap_compose. by apply list_fmap_ext. }
  (* the normalised probabilities *)
  match goal with
  | |- context [mapM ?f ?l ≫= _] =>
      destruct (mapM_exists f
                  (fun (kv y : Z * list (string * Q)) =>
                     y.1 = kv.1 /\ NoDup y.2.*1
                     /\ Forall (fun a => (0 <= a.2)%Q) y.2
                     /\ (Py.fsum y.2.*2 == 1)%Q) l)
        as (ap & -> & Hap)
  end.
  { intros kv (c & -> & Hc)%list_elem_of_fmap.
    rewrite elem_of_remove_dups, Haxp in Hc.
    cbn [fst snd]. rewrite cohort_axes_values.
    assert (Hc' : c ∈ p.*1.*1) by done.
    pose proof (Hmass c Hc') as Hm. unfold cohort_mass in Hm.
    set (v := (fun kv : Z * string * Q => (kv.1.2, kv.2))
                <$> filter (fun kv : Z * string * Q => kv.1.1 = c) p).
    assert (Hv2 : v.*2 = snd <$> filter (fun kv : Z * string * Q => kv.1.1 = c) p).
    { unfold v. by rewrite <- list_fmap_compose. }
    assert (Hv1 : NoDup v.*1).
    { unfold v. rewrite <- list_fmap_compose. by apply cohort_axes_NoDup. }
    assert (Hvpos : Forall (fun a : string * Q => (0 <= a.2)%Q) v).
    { unfold v. apply Forall_fmap, Forall_forall.
      intros kv [_ Hin]%list_elem_of_filter.
      rewrite Forall_forall in Hp. by apply Hp. }
    rewrite <- Hv2 in Hm.
    destruct (Qeq_bool (Py.fsum v.*2) 0) eqn:E.
    { apply Qeq_bool_iff in E. lra. }
    eexists. split; [done|]. cbn [fst snd].
    split; [done|]. by apply normalised_distribution. }
  cbn [mbind option_bind].
  assert (Hapkeys : NoDup ap.*1).
  { erewrite (Forall2_keys fst fst);
      [|eapply Forall2_impl; [exact Hap|by intros ? ? [? _]]].
    rewrite <- list_fmap_compose.
    rewrite (list_fmap_ext _ id (remove_dups _)) by done.
    rewrite list_fmap_id. apply NoDup_remove_dups. }
  assert (Hcmkeys : cm.*1 = emited.*1.*1).
  { erewrite (Forall2_keys fst fst);
      [|eapply Forall2_impl; [exact Hcm|by intros ? ? [? _]]].
    rewrite <- !list_fmap_compose. apply list_fmap_ext.
    by intros i [[? ?] ?] _. }
  (* cohort_axis *)
  match goal with
  | |- context [mapM ?f ?l ≫= _] =>
      destruct (mapM_exists f
                  (fun (kc : Z * list (Z * Z)) (y : Z * list (string * Z)) =>
                     y.1 = kc.1 /\ Py.sum y.2.*2 = Py.sum kc.2.*2
                     /\ Forall (fun kc => 0 < kc.2) y.2) l)
        as (ca & -> & Hca)
  end.
  { intros kc Hkc.
    destruct (Forall2_elem_r _ _ _ _ Hcm Hkc) as (kv & Hkv & Hk1 & Hsum & Hpos).
    apply list_elem_of_fmap in Hkv as ([[c ta] nff] & -> & Hrow).
    cbn [fst snd] in Hk1, Hsum.
    rewrite Forall_forall in Hrows.
    destruct (Hrows _ Hrow) as [Hta Hnff]. cbn [fst snd] in Hta, Hnff.
    assert (Hc : c ∈ remove_dups
                   ((fun kv : Z * string * Q => (kv.1.1, (kv.1.2, kv.2))) <$> p).*1).
    { rewrite elem_of_remove_dups, Haxp. apply Hcover.
      rewrite <- list_fmap_compose.
      by apply (list_elem_of_fmap_2' _ _ (c, ta, nff)). }
    destruct (Forall2_elem_l _ _ _ (c, _) Hap
                (list_elem_of_fmap_2 _ _ _ Hc))
      as ([c' proba] & Hin & Hc1 & Hnd & Hpp & Hs1).
    cbn [fst snd] in Hc1, Hnd, Hpp, Hs1. subst c'.
    rewrite Hk1, (getitem_elem ap c proba) by done.
    cbn [mbind option_bind].
    destruct (cardinalities_total_aux proba (Py.sum kc.2.*2) Hnd Hpp Hs1)
      as (res & -> & Htot & Hres & _).
    { rewrite Hsum. by apply round_nonneg, product_nonneg. }
    cbn [mbind option_bind]. eexists. split; [done|]. cbn [fst snd]. done. }
  cbn [mbind option_bind].
  assert (Hcakeys : ca.*1 = cm.*1).
  { apply (Forall2_keys fst fst).
    eapply Forall2_impl; [exact Hca|]. by intros ? ? [? _]. }
  (* axis *)
  match goal with
  | |- context [mapM ?f ?l ≫= _] =>
      destruct (mapM_exists f
                  (fun (x : Z * list Z) (y : Z * list (Z * string)) =>
                     y.1 = x.1 /\ length y.2 = length x.2) l)
        as (axis & -> & Haxis)
  end.
  { intros x (kc & -> & Hkc)%list_elem_of_fmap. cbn [fst snd].
    destruct (Forall2_elem_l _ _ _ _ Hca Hkc) as (kc' & Hkc' & Hk & Hsum & Hpos').
    destruct (Forall2_elem_r _ _ _ _ Hcm Hkc) as (kv & _ & _ & _ & Hpos).
    rewrite (getitem_elem _ kc.1 (Ext.expand kc'.2)).
    - cbn [mbind option_bind]. eexists. split; [done|]. cbn [fst snd].
      split; [done|]. rewrite length_zip_with.
      pose proof (length_expand _ Hpos). pose proof (length_expand _ Hpos').
      lia.
    - replace (((fun kv : Z * list (string * Z) => (kv.1, Ext.expand kv.2))
                  <$> ca).*1) with (ca.*1);
        [by rewrite Hcakeys, Hcmkeys|].
      rewrite <- !list_fmap_compose. apply list_fmap_ext.
      by intros i [? ?] _.
    - apply (list_elem_of_fmap_2' _ _ kc'); [done|]. by rewrite Hk. }
  cbn [mbind option_bind]. unfold Ext.flat_list.
  eexists. split; [reflexivity|].
  apply Forall2_fmap_r.
  apply Forall2_fmap_l in Hcm. apply Forall2_fmap_l in Haxis.
  eapply Forall2_compose; [|exact Hcm|exact Haxis].
  intros [[c ta] nff] kc [k z] (Hk1 & Hsum & Hpos) [Hk2 Hlen].
  cbn [compose fst snd] in *. split.
  - rewrite length_fmap, Hlen, (length_expand _ Hpos). done.
  - apply Forall_fmap, Forall_forall. intros t _. cbn [compose fst snd].
    congruence.
Qed.

Lemma filter_all {T} (P : T -> Prop) `{forall t, Decision (P t)} (l : list T) :
  Forall P l -> filter P l = l.
Proof.
  induction 1 as [|t l Ht _ IH]; [done|].
  by rewrite filter_cons, decide_True, IH.
Qed.

Lemma filter_nothing {T} (P : T -> Prop) `{forall t, Decision (P t)}
    (l : list T) :
  Forall (fun t => ~ P t) l -> filter P l = [].
Proof.
  induction 1 as [|t l Ht _ IH]; [done|].
  by rewrite filter_cons, decide_False, IH.
Qed.

Lemma blocks_count {A T} (key : A -> Z) (size : A -> Z) (tag : T -> Z)
    (l : list A) (blocks : list (list T)) :
  NoDup (key <$> l) ->
  Forall2 (fun x block => Z.of_nat (length block) = size x
                          /\ Forall (fun t => tag t = key x) block) l blocks ->
  (forall x, x ∈ l ->
     Z.of_nat (length (filter (fun t => tag t = key x) (List.concat blocks)))
     = size x)
  /\ (forall t, t ∈ List.concat blocks -> tag t ∈ key <$> l).
Proof.
  intros Hnd HF. induction HF as [|x b l bs [Hlen Hb] HF IH].
  - split; [by intros ? ?%elem_of_nil|by intros ? ?%elem_of_nil].
  - rewrite fmap_cons in Hnd. apply NoDup_cons in Hnd as [Hx Hnd].
    destruct (IH Hnd) as [IH1 IH2]. cbn [List.concat]. split.
    + intros y Hy. rewrite filter_app, length_app, Nat2Z.inj_add.
      apply elem_of_cons in Hy as [->|Hy].
      * rewrite (filter_all _ b Hb), (filter_nothing _ (List.concat bs)).
        { cbn [length]. lia. }
        apply Forall_forall. intros t Ht Heq. apply Hx.
        rewrite <- Heq. by apply IH2.
      * rewrite (filter_nothing _ b), (IH1 _ Hy); [done|].
        eapply Forall_impl; [exact Hb|]. intros t Ht Heq. apply Hx.
        rewrite <- Ht, Heq. by apply list_elem_of_fmap_2.
    + intros t [Ht|Ht]%elem_of_app.
      * rewrite Forall_forall in Hb. rewrite fmap_cons, (Hb _ Ht). left.
      * rewrite fmap_cons. right. by apply IH2.
Qed.

Lemma mapM_keys {A B} (f : A -> option B) (ka : A -> Z) (kb : B -> Z)
    (l : list A) (k : list B) :
  (forall x y, f x = Some y -> kb y = ka x) ->
  mapM f l = Some k -> kb <$> k = ka <$> l.
Proof.
  intros Hf. revert k. induction l as [|x l IH]; intros k.
  - by intros [= <-].
  - cbn. destruct (f x) as [y|] eqn:E; [|done]. cbn.
    destruct (mapM f l) as [k'|]; [|done]. cbn. intros [= <-].
    rewrite !fmap_cons, (Hf _ _ E). f_equal. by apply IH.
Qed.

Lemma mapM_raises {A B} (f : A -> option B) (l : list A) x :
  x ∈ l -> f x = None -> mapM f l = None.
Proof.
  intros Hx Hf. destruct (mapM f l) as [k|] eqn:E; [|done].
  apply mapM_Some in E.
  destruct (Forall2_elem_l _ _ _ _ E Hx) as (y & _ & Hy). congruence.
Qed.

Lemma getitem_missing {K V} `{EqDecision K} (d : list (K * V)) k :
  k ∉ d.*1 -> Py.getitem d k = None.
Proof.
  induction d as [|[k0 v0] d IH]; [done|].
  rewrite fmap_cons, not_elem_of_cons. intros [Hk Hd]. cbn [Py.getitem fst].
  rewrite decide_False by done. by apply IH.
Qed.

(** X25. For distinct cohorts that all have probabilities of positive
    sum, [axis_list] returns, and its result has
    [round(total_axis * nplants)] axes for each emitted cohort and no axis
    of another cohort. *)
Theorem axis_list_count (emited : list (Z * Q * Q))
    (p : list (Z * string * Q)) (nplants : Z) :
  NoDup emited.*1.*1 ->
  Forall (fun row : Z * Q * Q => (0 <= row.1.2)%Q /\ (0 <= row.2)%Q) emited ->
  0 <= nplants ->
  NoDup p.*1 ->
  Forall (fun kv : Z * string * Q => (0 <= kv.2)%Q) p ->
  (forall c, c ∈ p.*1.*1 -> (0 < cohort_mass p c)%Q) ->
  emited.*1.*1 ⊆ p.*1.*1 ->
  exists res,
    Ext.axis_list emited p nplants = Some res
    /\ (forall c total_axis nff, (c, total_axis, nff) ∈ emited ->
          Z.of_nat (length (filter (fun t : Z * Z * string => t.1.1 = c) res))
          = Py.round (total_axis * inject_Z nplants))
    /\ (forall t, t ∈ res -> t.1.1 ∈ emited.*1.*1).
Proof.
  intros Hcohorts Hrows Hn Hkeys Hp Hmass Hcover.
  destruct (axis_list_blocks emited p nplants Hcohorts Hrows Hn Hkeys Hp
              Hmass Hcover) as (blocks & Hres & HF).
  exists (List.concat blocks). split; [done|].
  rewrite <- list_fmap_compose in Hcohorts.
  destruct (blocks_count (fun row : Z * Q * Q => row.1.1)
              (fun row : Z * Q * Q => Py.round (row.1.2 * inject_Z nplants))
              (fun t : Z * Z * string => t.1.1) emited blocks Hcohorts HF)
    as [Hcount Htags].
  split.
  - intros c ta nff Hrow. apply (Hcount _ Hrow).
  - intros t Ht. rewrite <- list_fmap_compose. by apply Htags.
Qed.

(** X26. [axis_list] raises ([KeyError] on [axis_proba[k]]) when an
    emitted cohort has no entry in the theoretical probabilities. *)
Theorem axis_list_unknown_cohort_raises (emited : list (Z * Q * Q))
    (p : list (Z * string * Q)) (nplants : Z) (row : Z * Q * Q) :
  row ∈ emited -> row.1.1 ∉ p.*1.*1 ->
  Ext.axis_list emited p nplants = None.
Proof.
  intros Hrow Hc. unfold Ext.axis_list. cbv zeta.
  match goal with
  | |- context [mapM ?f ?l ≫= _] => destruct (mapM f l) as [cm|] eqn:Ecm
  end; [|done].
  cbn [mbind option_bind].
  match goal with
  | |- context [mapM ?f ?l ≫= _] => destruct (mapM f l) as [ap|] eqn:Eap
  end; [|done].
  cbn [mbind option_bind].
  apply (mapM_keys _ fst fst) in Ecm.
  2:{ intros x y. destruct (Py.getitem _ _); [|done]. cbn.
      destruct (Ext.cardinalities _ _); [|done]. cbn. by intros [= <-]. }
  apply (mapM_keys _ fst fst) in Eap.
  2:{ intros x y. cbv zeta. destruct (Qeq_bool _ _); [done|]. by intros [= <-]. }
  assert (Hin : row.1.1 ∈ cm.*1).
  { rewrite Ecm, <- list_fmap_compose.
    apply (list_elem_of_fmap_2' _ _ row); [done|]. by destruct row as [[? ?] ?]. }
  apply list_elem_of_fmap in Hin as (kc & Hk & Hkc).
  rewrite (mapM_raises _ cm kc); [done|done|].
  rewrite <- Hk, getitem_missing; [done|].
  rewrite Eap, <- list_fmap_compose.
  rewrite (list_fmap_ext _ id (remove_dups _)) by done.
  rewrite list_fmap_id, elem_of_remove_dups.
  intros Hin. apply Hc. rewrite <- !list_fmap_compose in *. exact Hin.
Qed.

(** X27. [axis_list] raises ([ZeroDivisionError]) when the
    probabilities of the axes of one cohort add up to zero. *)
Theorem axis_list_zero_mass_raises (emited : list (Z * Q * Q))
    (p : list (Z * string * Q)) (nplants : Z) (c : Z) :
  c ∈ p.*1.*1 -> (cohort_mass p c == 0)%Q ->
  Ext.axis_list emited p nplants = None.
Proof.
  intros Hc Hm. unfold Ext.axis_list. cbv zeta.
  match goal with
  | |- context [mapM ?f ?l ≫= _] => destruct (mapM f l) as [cm|] eqn:Ecm
  end; [|done].
  cbn [mbind option_bind].
  match goal with
  | |- context [mapM ?f ?l ≫= _] => erewrite (mapM_raises f l)
  end; [done| |].
  - apply (list_elem_of_fmap_2 _ _ c). rewrite elem_of_remove_dups.
    rewrite <- !list_fmap_compose in *. exact Hc.
  - cbn [fst snd]. rewrite cohort_axes_values, <- list_fmap_compose.
    unfold cohort_mass in Hm. apply Qeq_bool_iff in Hm.
    change (snd ∘ (fun kv : Z * string * Q => (kv.1.2, kv.2)))
      with (@snd (Z * string) Q).
    by rewrite Hm.
Qed.

Lemma axis_list_count_witness :
  exists res,
    Ext.axis_list [(1, 1%Q, (21 # 2)%Q); (3, (3 # 4)%Q, 9%Q)]
      [((1, "MS"), (1 # 2)%Q); ((3, "T1"), (1 # 4)%Q);
       ((3, "T1.0"), (1 # 4)%Q)]%string 4 = Some res
    /\ (forall c total_axis nff,
          (c, total_axis, nff) ∈ [(1, 1%Q, (21 # 2)%Q); (3, (3 # 4)%Q, 9%Q)] ->
          Z.of_nat (length (filter (fun t : Z * Z * string => t.1.1 = c) res))
          = Py.round (total_axis * inject_Z 4))
    /\ (forall t, t ∈ res ->
          t.1.1 ∈ [(1, 1%Q, (21 # 2)%Q); (3, (3 # 4)%Q, 9%Q)].*1.*1).
Proof.
  apply (axis_list_count [(1, 1%Q, (21 # 2)%Q); (3, (3 # 4)%Q, 9%Q)]
           [((1, "MS"), (1 # 2)%Q); ((3, "T1"), (1 # 4)%Q);
            ((3, "T1.0"), (1 # 4)%Q)]%string 4).
  - compute_done.
  - repeat constructor; by vm_compute.
  - lia.
  - compute_done.
  - repeat constructor; by vm_compute.
  - intros c Hc. cbn in Hc.
    repeat (apply elem_of_cons in Hc as [->|Hc]; [by vm_compute|]).
    by apply elem_of_nil in Hc.
  - intros c Hc. cbn in Hc. cbn.
    repeat (apply elem_of_cons in Hc as [->|Hc]; [compute_done|]).
    by apply elem_of_nil in Hc.
Defined.

Lemma axis_list_unknown_cohort_raises_witness :
  Ext.axis_list [(1, 1%Q, (21 # 2)%Q); (4, (3 # 4)%Q, 9%Q)]
    [((1, "MS"), (1 # 2)%Q); ((3, "T1"), (1 # 4)%Q)]%string 4 = None.
Proof.
  apply (axis_list_unknown_cohort_raises _ _ 4 (4, (3 # 4)%Q, 9%Q)).
  - apply list_elem_of_further, list_elem_of_here.
  - compute_done.
Defined.

Lemma axis_list_zero_mass_raises_witness :
  Ext.axis_list [(1, 1%Q, (21 # 2)%Q)]
    [((1, "MS"), (1 # 2)%Q); ((3, "T1"), 0%Q)]%string 4 = None.
Proof.
  apply (axis_list_zero_mass_raises _ _ 4 3).
  - compute_done.
  - by vm_compute.
Defined.
